(** * CalPal scheduling core: a shallow embedding and its properties

    The development follows the four services of the repository:
    - [MinimalBookingService]      (packages/features/bookings/services)
    - [MinimalAvailabilityService] (packages/features/availability/services)
    - [CalendarSyncService]        (packages/features/calendar/services)
    - [CalendarAuthService]        (packages/features/calendar/services)

    Instants are JavaScript [Date] values read through [getTime()]: an
    integer number of milliseconds since the epoch, here a [Z].  The Prisma
    client is an explicit store threaded through a state-and-exception
    monad; every [await]ed call of the source is one bind.

    Part I holds the definitions, Part II the theorems. *)

From Stdlib Require Import ZArith List String Ascii Bool Lia Sorted DecimalString.
Import ListNotations.
Open Scope string_scope.
Open Scope list_scope.
Open Scope Z_scope.

(* ===================================================================== *)
(** * Part I: definitions                                                *)
(* ===================================================================== *)

(** ** JavaScript truthiness of optional strings *)

Module Js.

(** [s || d] on [string | undefined | null]: the empty string is falsy. *)
Definition truthy (o : option string) : bool :=
  match o with
  | Some s => negb (s =? "")%string
  | None => false
  end.

Definition orElse (o : option string) (d : string) : string :=
  if truthy o then match o with Some s => s | None => d end else d.

End Js.

(** ** The persisted state (Prisma models of the migration) *)

Module Store.

(** The four booking states the scheduler uses (the enum lives in
    [@calcom/prisma/enums], outside the services). *)
Inductive BookingStatus := PENDING | CONFIRMED | REJECTED | CANCELLED.

Definition BookingStatus_eqb (a b : BookingStatus) : bool :=
  match a, b with
  | PENDING, PENDING | CONFIRMED, CONFIRMED
  | REJECTED, REJECTED | CANCELLED, CANCELLED => true
  | _, _ => false
  end.

(** Prisma's [status: { in: [...] }]. *)
Definition statusIn (allowed : list BookingStatus) (s : BookingStatus) : bool :=
  existsb (BookingStatus_eqb s) allowed.

Record Booking := mkBooking {
  b_id : Z;
  b_uid : string;
  b_userId : Z;
  b_startTime : Z;
  b_endTime : Z;
  b_title : string;
  b_description : option string;
  b_status : BookingStatus;
  b_attendeeName : option string;
  b_attendeeEmail : option string;
  b_videoProvider : option string;
  b_videoLink : option string;
  b_calendarEventId : option string;
  b_timezone : option string
}.

(** [startTime]/[endTime] are TIME columns, read back as [Date]s. *)
Record AvailabilityBlock := mkBlock {
  ab_id : string;
  ab_userId : Z;
  ab_dayOfWeek : Z;
  ab_startTime : Z;
  ab_endTime : Z;
  ab_timezone : string;
  ab_isActive : bool
}.

Record CalendarIntegration := mkIntegration {
  ci_id : string;
  ci_userId : Z;
  ci_type : string;
  ci_accessToken : string;
  ci_refreshToken : option string;
  ci_tokenExpiresAt : option Z;
  ci_calendarId : string;
  ci_syncToken : option string;
  ci_lastSyncAt : option Z;
  ci_syncStatus : string;
  ci_syncError : option string
}.

(** A cached calendar event (the spec's busy interval).  The generated
    row id and the [createdAt]/[updatedAt] columns are managed by the
    store and read by no service; they are left out. *)
Record CalendarEvent := mkEvent {
  ce_calendarIntegrationId : string;
  ce_externalEventId : string;
  ce_startTime : Z;
  ce_endTime : Z;
  ce_title : option string;
  ce_isBusy : bool;
  ce_syncedAt : Z
}.

(** The client's state: the four tables, in insertion order, and the
    number of interactive transactions opened so far. *)
Record Db := mkDb {
  bookings : list Booking;
  availabilityBlocks : list AvailabilityBlock;
  calendarIntegrations : list CalendarIntegration;
  calendarEvents : list CalendarEvent;
  txOpened : nat
}.

Definition set_bookings (l : list Booking) (db : Db) : Db :=
  mkDb l (availabilityBlocks db) (calendarIntegrations db) (calendarEvents db) (txOpened db).

Definition set_availabilityBlocks (l : list AvailabilityBlock) (db : Db) : Db :=
  mkDb (bookings db) l (calendarIntegrations db) (calendarEvents db) (txOpened db).

Definition set_calendarIntegrations (l : list CalendarIntegration) (db : Db) : Db :=
  mkDb (bookings db) (availabilityBlocks db) l (calendarEvents db) (txOpened db).

Definition set_calendarEvents (l : list CalendarEvent) (db : Db) : Db :=
  mkDb (bookings db) (availabilityBlocks db) (calendarIntegrations db) l (txOpened db).

Definition set_txOpened (n : nat) (db : Db) : Db :=
  mkDb (bookings db) (availabilityBlocks db) (calendarIntegrations db) (calendarEvents db) n.

Definition emptyDb : Db := mkDb [] [] [] [] 0.

End Store.

(** ** State and exceptions: the shape of an [async] method *)

Module Async.
Import Store.

Inductive Result (E A : Type) :=
| Ok (a : A)
| Throw (e : E).
Arguments Ok {E A} a.
Arguments Throw {E A} e.

(** A method run against the store: the store afterwards, and either the
    value the promise resolves to or the exception it rejects with. *)
Definition M (E A : Type) : Type := Db -> Db * Result E A.

Definition ret {E A} (a : A) : M E A := fun db => (db, Ok a).

Definition throw {E A} (e : E) : M E A := fun db => (db, Throw e).

Definition bind {E A B} (m : M E A) (k : A -> M E B) : M E B :=
  fun db =>
    match m db with
    | (db', Ok a) => k a db'
    | (db', Throw e) => (db', Throw e)
    end.

(** [try { m } catch (error) { h error }]: writes made before the throw
    stay in the store. *)
Definition try_catch {E A} (m : M E A) (h : E -> M E A) : M E A :=
  fun db =>
    match m db with
    | (db', Ok a) => (db', Ok a)
    | (db', Throw e) => h e db'
    end.

Definition gets {E A} (f : Db -> A) : M E A := fun db => (db, Ok (f db)).

Definition modify {E} (f : Db -> Db) : M E unit := fun db => (f db, Ok tt).

Definition liftResult {E A} (r : Result E A) : M E A := fun db => (db, r).

(** [prisma.$transaction(async (tx) => ...)]: the callback's writes are
    committed when it resolves and discarded when it rejects. *)
Definition transaction {E A} (m : M E A) : M E A :=
  fun db =>
    let db0 := set_txOpened (S (txOpened db)) db in
    match m db0 with
    | (db', Ok a) => (db', Ok a)
    | (_, Throw e) => (db0, Throw e)
    end.

Declare Scope async_scope.
Delimit Scope async_scope with async.
Notation "x <- m ;; k" := (bind m (fun x => k))
  (at level 61, m at next level, right associativity) : async_scope.
Notation "m ;;; k" := (bind m (fun _ => k))
  (at level 61, right associativity) : async_scope.

End Async.

(** ** MinimalBookingService *)

Module MinimalBookingService.
Import Store Async.
Local Open Scope async_scope.

Inductive TRPCCode := BAD_REQUEST | CONFLICT | NOT_FOUND.

(** What [createPendingBooking] rejects with: the [ZodError] of
    [createBookingInputSchema.parse] (with the paths of the failing
    fields) or a [TRPCError]. *)
Inductive Failure :=
| ZodError (paths : list string)
| TRPCError (code : TRPCCode) (message : string).

Inductive VideoProvider := GoogleMeet | Zoom.

Definition videoProviderName (v : VideoProvider) : string :=
  match v with
  | GoogleMeet => "google-meet"
  | Zoom => "zoom"
  end.

Record CreatePendingBookingInput := mkInput {
  userId : Z;
  startTime : Z;
  endTime : Z;
  attendeeName : string;
  attendeeEmail : string;
  notes : option string;
  videoProvider : option VideoProvider;
  timezone : string;
  title : option string
}.

Record BookingResult := mkResult {
  r_id : Z;
  r_uid : string;
  r_status : BookingStatus;
  r_startTime : Z;
  r_endTime : Z;
  r_attendeeName : option string;
  r_attendeeEmail : option string;
  r_videoProvider : option string;
  r_videoLink : option string;
  r_calendarEventId : option string
}.

(** zod's [z.string().email()] test; its regular expression belongs to
    the zod package. *)
Class EmailFormat := isEmail : string -> bool.

Definition strlen (s : string) : Z := Z.of_nat (String.length s).

(** [createBookingInputSchema.parse]: the typed fields ([z.number()],
    [z.date()], [z.enum], [z.string()]) hold by typing; the refinements
    are the length bounds and the e-mail format.  Lengths are counted
    per character of the Rocq string. *)
Definition createBookingInputSchema_parse `{EmailFormat}
  (input : CreatePendingBookingInput) : Result Failure CreatePendingBookingInput :=
  let issues :=
    (if (1 <=? strlen (attendeeName input)) && (strlen (attendeeName input) <=? 100)
     then [] else ["attendeeName"])
    ++ (if isEmail (attendeeEmail input) then [] else ["attendeeEmail"])
    ++ (match notes input with
        | Some n => if strlen n <=? 500 then [] else ["notes"]
        | None => []
        end) in
  match issues with
  | [] => Ok input
  | _ => Throw (ZodError issues)
  end.

(** The [OR] of the overlap query on one stored interval
    [[existingStart, existingEnd)], for the request [[newStart, newEnd)]:
    the new booking starts during the existing one, or ends during it,
    or contains it. *)
Definition overlapClauses (newStart newEnd existingStart existingEnd : Z) : bool :=
     ((existingStart <=? newStart) && (existingEnd >? newStart))
  || ((existingStart <? newEnd) && (existingEnd >=? newEnd))
  || ((existingStart >=? newStart) && (existingEnd <=? newEnd)).

(** The [where] clause of the overlap query, as a row predicate. *)
Definition overlappingWhere (validated : CreatePendingBookingInput) (b : Booking) : bool :=
  (b_userId b =? userId validated)
  && statusIn [PENDING; CONFIRMED] (b_status b)
  && overlapClauses (startTime validated) (endTime validated) (b_startTime b) (b_endTime b).

Definition booking_findFirst (where_ : Booking -> bool) : M Failure (option Booking) :=
  gets (fun db => find where_ (bookings db)).

(** The autoincrement key: one more than the largest id in the table. *)
Definition nextBookingId (db : Db) : Z :=
  1 + fold_right (fun b acc => Z.max (b_id b) acc) 0 (bookings db).

Definition booking_create (mk : Z -> Booking) : M Failure Booking :=
  fun db =>
    let row := mk (nextBookingId db) in
    (set_bookings (bookings db ++ [row]) db, Ok row).

Definition toBookingResult (b : Booking) : BookingResult :=
  mkResult (b_id b) (b_uid b) (b_status b) (b_startTime b) (b_endTime b)
    (b_attendeeName b) (b_attendeeEmail b) (b_videoProvider b)
    (b_videoLink b) (b_calendarEventId b).

(** The row [booking.create] is given, under the key the store assigns. *)
Definition pendingRow (uid : string) (validated : CreatePendingBookingInput) (id : Z) : Booking :=
  mkBooking id uid (userId validated)
    (startTime validated) (endTime validated)
    (Js.orElse (title validated) ("Meeting with " ++ attendeeName validated)%string)
    (notes validated)
    PENDING
    (Some (attendeeName validated))
    (Some (attendeeEmail validated))
    (option_map videoProviderName (videoProvider validated))
    None None
    (Some (timezone validated)).

(** The callback of [$transaction]: the overlap query, then the insert.
    The e-mail notifications sent after the insert sit in a
    [try]/[catch] that only logs: they change neither the store nor the
    result and are not modelled. *)
Definition checkThenInsert (uid : string) (validated : CreatePendingBookingInput)
  : M Failure BookingResult :=
  overlappingBooking <- booking_findFirst (overlappingWhere validated) ;;
  match overlappingBooking with
  | Some _ => throw (TRPCError CONFLICT "Time slot is no longer available")
  | None =>
    booking <- booking_create (pendingRow uid validated) ;;
    ret (toBookingResult booking)
  end.

(** [createPendingBooking].  [now] is the clock read by [new Date()] in
    the future-start check; [uid] is the generated
    [booking-<Date.now()>-<random>] string. *)
Definition createPendingBooking `{EmailFormat} (now : Z) (uid : string)
  (input : CreatePendingBookingInput) : M Failure BookingResult :=
  validated <- liftResult (createBookingInputSchema_parse input) ;;
  let durationMs := endTime validated - startTime validated in
  let minDuration := 15 * 60 * 1000 in
  let maxDuration := 8 * 60 * 60 * 1000 in
  if durationMs <? minDuration then
    throw (TRPCError BAD_REQUEST "Booking duration must be at least 15 minutes")
  else if durationMs >? maxDuration then
    throw (TRPCError BAD_REQUEST "Booking duration cannot exceed 8 hours")
  else if startTime validated <? now then
    throw (TRPCError BAD_REQUEST "Cannot book time slots in the past")
  else
    transaction (checkThenInsert uid validated).

(** The error kinds of the specification, read off a failure. *)
Definition isValidation (e : Failure) : bool :=
  match e with
  | ZodError _ => true
  | TRPCError BAD_REQUEST _ => true
  | TRPCError _ _ => false
  end.

(** An e-mail test for running the service on examples: the address
    has an at sign. *)
Definition hasAtSign (s : string) : bool :=
  existsb (Ascii.eqb "@"%char) (list_ascii_of_string s).

(** The half-open overlap test of the specification's glossary:
    [[a,b)] and [[c,d)] overlap iff [a < d] and [b > c]. *)
Definition halfOpenOverlap (a b c d : Z) : bool := (a <? d) && (b >? c).

End MinimalBookingService.

(** ** MinimalAvailabilityService *)

Module MinimalAvailabilityService.
Import Store.

(** The [Date] methods the slot generator calls, all in the server's
    local time zone: [getDay()], [getHours()], [getMinutes()],
    [setHours(h, m, 0, 0)] and [setDate(getDate() + 1)], each as a
    function of the instant. *)
Class LocalDate := {
  getDay : Z -> Z;
  getHours : Z -> Z;
  getMinutes : Z -> Z;
  setHours : Z -> Z -> Z -> Z;
  setDateNext : Z -> Z
}.

(** date-fns-tz: [fromZonedTime(date, timeZone)], and [formatInTimeZone]
    at the one pattern the service uses, [yyyy-MM-dd'T'HH:mm:ssXXX]. *)
Class DateFnsTz := {
  fromZonedTime : Z -> string -> Z;
  formatInTimeZone : Z -> string -> string
}.

Record TimeSlot := mkSlot {
  startTime : Z;
  endTime : Z;
  displayStartTime : string;
  displayEndTime : string
}.

Record CalculateAvailableSlotsInput := mkSlotsInput {
  userId : Z;
  startDate : Z;
  endDate : Z;
  userTimezone : string;
  slotDurationMinutes : option Z
}.

(** The [{ startTime, endTime }] shape [slotsOverlap] takes. *)
Record Span := mkSpan { s_start : Z; s_end : Z }.

Definition spanOfSlot (s : TimeSlot) : Span := mkSpan (startTime s) (endTime s).

Definition slotsOverlap (slot1 slot2 : Span) : bool :=
  (s_start slot1 <? s_end slot2) && (s_end slot1 >? s_start slot2).

(** [getCalendarEvents]: the busy events of the user's active
    google-calendar integration that meet the date range. *)
Definition getCalendarEvents (db : Db) (userId startDate endDate : Z) : list Span :=
  match find (fun ci => (ci_userId ci =? userId)
                        && (ci_type ci =? "google-calendar")%string
                        && (ci_syncStatus ci =? "active")%string)
             (calendarIntegrations db) with
  | None => []
  | Some integration =>
    map (fun e => mkSpan (ce_startTime e) (ce_endTime e))
      (filter (fun e => (ce_calendarIntegrationId e =? ci_id integration)%string
                        && ce_isBusy e
                        && ((ce_startTime e <=? endDate) && (ce_endTime e >=? startDate)))
              (calendarEvents db))
  end.

Section Slots.
Context `{LocalDate} `{DateFnsTz}.

(** The inner [while (slotStart.getTime() + slotDurationMs <= maxEnd)].
    [None] is a loop still running when the fuel is spent. *)
Fixpoint slotLoop (fuel : nat) (userTimezone : string) (slotDurationMs maxEnd slotStart : Z)
  : option (list TimeSlot) :=
  match fuel with
  | O => None
  | S fuel' =>
    if slotStart + slotDurationMs <=? maxEnd then
      let slotEnd := slotStart + slotDurationMs in
      match slotLoop fuel' userTimezone slotDurationMs maxEnd (slotStart + slotDurationMs) with
      | Some slots =>
        Some (mkSlot slotStart slotEnd
                (formatInTimeZone slotStart userTimezone)
                (formatInTimeZone slotEnd userTimezone) :: slots)
      | None => None
      end
    else Some []
  end.

(** The slots of one matching day. *)
Definition daySlots (fuel : nat) (block : AvailabilityBlock)
  (startDate endDate : Z) (userTimezone : string) (slotDurationMs currentDate : Z)
  : option (list TimeSlot) :=
  let blockStartHours := getHours (ab_startTime block) in
  let blockStartMinutes := getMinutes (ab_startTime block) in
  let blockEndHours := getHours (ab_endTime block) in
  let blockEndMinutes := getMinutes (ab_endTime block) in
  let dayStart := setHours currentDate blockStartHours blockStartMinutes in
  let dayEnd := setHours currentDate blockEndHours blockEndMinutes in
  let dayStartUTC := fromZonedTime dayStart (ab_timezone block) in
  let dayEndUTC := fromZonedTime dayEnd (ab_timezone block) in
  let slotStart := Z.max dayStartUTC startDate in
  let maxEnd := Z.min dayEndUTC endDate in
  slotLoop fuel userTimezone slotDurationMs maxEnd slotStart.

(** The outer [while (currentDate <= endDate)]; [fuel0] is the budget of
    each inner loop. *)
Fixpoint dayLoop (fuel fuel0 : nat) (block : AvailabilityBlock)
  (startDate endDate : Z) (userTimezone : string) (slotDurationMs currentDate : Z)
  : option (list TimeSlot) :=
  match fuel with
  | O => None
  | S fuel' =>
    if currentDate <=? endDate then
      match (if getDay currentDate =? ab_dayOfWeek block
             then daySlots fuel0 block startDate endDate userTimezone slotDurationMs currentDate
             else Some []) with
      | None => None
      | Some today =>
        match dayLoop fuel' fuel0 block startDate endDate userTimezone slotDurationMs
                (setHours (setDateNext currentDate) 0 0) with
        | Some later => Some (today ++ later)
        | None => None
        end
      end
    else Some []
  end.

Definition generateSlotsFromBlock (fuel : nat) (block : AvailabilityBlock)
  (startDate endDate : Z) (userTimezone : string) (slotDurationMinutes : Z)
  : option (list TimeSlot) :=
  let slotDurationMs := slotDurationMinutes * 60 * 1000 in
  dayLoop fuel fuel block startDate endDate userTimezone slotDurationMs startDate.

(** [for (const block of availabilityBlocks) allSlots.push(...slots)]. *)
Fixpoint allSlotsOf (fuel : nat) (blocks : list AvailabilityBlock)
  (startDate endDate : Z) (userTimezone : string) (slotDurationMinutes : Z)
  : option (list TimeSlot) :=
  match blocks with
  | [] => Some []
  | block :: blocks' =>
    match generateSlotsFromBlock fuel block startDate endDate userTimezone slotDurationMinutes with
    | None => None
    | Some slots =>
      match allSlotsOf fuel blocks' startDate endDate userTimezone slotDurationMinutes with
      | Some more => Some (slots ++ more)
      | None => None
      end
    end
  end.

(** [Array.prototype.sort] with a comparator: a stable sort; [x] goes
    before [y] when [compare x y <= 0]. *)
Fixpoint insertSorted {A} (compare : A -> A -> Z) (x : A) (l : list A) : list A :=
  match l with
  | [] => [x]
  | y :: l' => if compare x y <=? 0 then x :: y :: l' else y :: insertSorted compare x l'
  end.

Definition sortWith {A} (compare : A -> A -> Z) (l : list A) : list A :=
  fold_right (insertSorted compare) [] l.

(** The destructuring default [slotDurationMinutes = 30]. *)
Definition slotDurationOf (input : CalculateAvailableSlotsInput) : Z :=
  match slotDurationMinutes input with
  | Some d => d
  | None => 30
  end.

(** The comparator handed to [sort]. *)
Definition compareStart (a b : TimeSlot) : Z := startTime a - startTime b.

Definition calculateAvailableSlots (fuel : nat) (db : Db)
  (input : CalculateAvailableSlotsInput) : option (list TimeSlot) :=
  let slotDuration := slotDurationOf input in
  let blocks := filter (fun b => (ab_userId b =? userId input) && ab_isActive b)
                       (availabilityBlocks db) in
  match blocks with
  | [] => Some []
  | _ =>
    let calendarEvents := getCalendarEvents db (userId input) (startDate input) (endDate input) in
    let bookings :=
      filter (fun b => (b_userId b =? userId input)
                       && statusIn [PENDING; CONFIRMED] (b_status b)
                       && ((b_startTime b <=? endDate input) && (b_endTime b >=? startDate input)))
             (bookings db) in
    match allSlotsOf fuel blocks (startDate input) (endDate input)
            (userTimezone input) slotDuration with
    | None => None
    | Some allSlots =>
      let availableSlots :=
        filter (fun slot =>
                  let conflictsWithCalendar :=
                    existsb (fun event => slotsOverlap (spanOfSlot slot) event) calendarEvents in
                  if conflictsWithCalendar then false
                  else
                    let conflictsWithBooking :=
                      existsb (fun booking =>
                                 slotsOverlap (spanOfSlot slot)
                                   (mkSpan (b_startTime booking) (b_endTime booking)))
                              bookings in
                    negb conflictsWithBooking)
               allSlots in
      Some (sortWith compareStart availableSlots)
    end
  end.


End Slots.

(** Ascending by start time. *)
Definition byStart (a b : TimeSlot) : Prop := startTime a <= startTime b.

(** A slot inside the requested range. *)
Definition within (lo hi : Z) (s : TimeSlot) : Prop :=
  lo <= startTime s /\ endTime s <= hi.

(** *** A server whose local zone is UTC

    An executable instance of the two interfaces, for running the
    service on concrete calendars: local time is UTC, and the only zone
    [fromZonedTime] is asked about is UTC. *)

Definition msPerDay : Z := 86400000.

#[local] Instance utcDate : LocalDate := {|
  getDay := fun t => (t / msPerDay + 4) mod 7;
  getHours := fun t => (t mod msPerDay) / 3600000;
  getMinutes := fun t => (t mod 3600000) / 60000;
  setHours := fun t h m => (t / msPerDay) * msPerDay + h * 3600000 + m * 60000;
  setDateNext := fun t => t + msPerDay
|}.

Definition digit (n : Z) : string :=
  String (ascii_of_nat (48 + Z.to_nat (n mod 10))) EmptyString.

Definition twoDigits (n : Z) : string := (digit (n / 10) ++ digit n)%string.

Definition fourDigits (n : Z) : string := (twoDigits (n / 100) ++ twoDigits n)%string.

(** The civil date [(year, month, day)] of a day number since the epoch
    (proleptic Gregorian). *)
Definition civilFromDays (days : Z) : Z * Z * Z :=
  let z := days + 719468 in
  let era := z / 146097 in
  let doe := z - era * 146097 in
  let yoe := (doe - doe / 1460 + doe / 36524 - doe / 146096) / 365 in
  let doy := doe - (365 * yoe + yoe / 4 - yoe / 100) in
  let mp := (5 * doy + 2) / 153 in
  let d := doy - (153 * mp + 2) / 5 + 1 in
  let m := if mp <? 10 then mp + 3 else mp - 9 in
  let y := yoe + era * 400 + (if m <=? 2 then 1 else 0) in
  (y, m, d).

(** [yyyy-MM-dd'T'HH:mm:ssXXX] in the zone UTC. *)
Definition formatUtc (t : Z) : string :=
  let '(y, m, d) := civilFromDays (t / msPerDay) in
  (fourDigits y ++ "-" ++ twoDigits m ++ "-" ++ twoDigits d
   ++ "T" ++ twoDigits ((t mod msPerDay) / 3600000) ++ ":"
   ++ twoDigits ((t mod 3600000) / 60000) ++ ":"
   ++ twoDigits ((t mod 60000) / 1000) ++ "Z")%string.

#[local] Instance utcTz : DateFnsTz := {|
  fromZonedTime := fun t _ => t;
  formatInTimeZone := fun t _ => formatUtc t
|}.

End MinimalAvailabilityService.

(** ** Exceptions of the calendar services *)

Module Exn.

(** A thrown value: an [Error] with its message, or anything else. *)
Inductive Thrown :=
| JsError (message : string)
| NonError.

(** [error instanceof Error ? error.message : "Unknown error"]. *)
Definition messageOf (error : Thrown) : string :=
  match error with
  | JsError message => message
  | NonError => "Unknown error"
  end.

End Exn.

(** ** CalendarSyncService *)

Module CalendarSyncService.
Import Store Async Exn.
Local Open Scope async_scope.

(** The fields of [GoogleCalendarEvent] the sync reads.  [mapEvent]
    turns a missing id into the empty string. *)
Record GoogleCalendarEvent := mkGEvent {
  id : string;
  start_dateTime : option string;
  end_dateTime : option string;
  summary : option string
}.

Record SyncEventsResult := mkListed {
  events : list GoogleCalendarEvent;
  nextSyncToken : option string
}.

(** The two ways the service calls [client.listEvents]: with the stored
    sync token, or with a [timeMin]/[timeMax] window (instants, sent as
    ISO strings). *)
Inductive ListOptions :=
| BySyncToken (syncToken : string)
| ByWindow (timeMin timeMax : Z).

(** [GoogleCalendarClient.listEvents(calendarId, options)] over the
    authorised client: the provider boundary. *)
Class GoogleCalendar := listEvents : string -> ListOptions -> Result Thrown SyncEventsResult.

(** [new Date(s)] on a string: [None] is an Invalid Date. *)
Class DateParse := newDate : string -> option Z.

(** date-fns [subDays(date, n)]. *)
Class DateFns := subDays : Z -> Z -> Z.

Record SyncResult := mkSyncResult {
  eventsSynced : Z;
  res_nextSyncToken : option string;
  lastSyncAt : Z;
  hasError : bool;
  errorMessage : option string
}.

Definition calendarIntegration_findUnique (integrationId : string)
  : M Thrown (option CalendarIntegration) :=
  gets (fun db => find (fun ci => (ci_id ci =? integrationId)%string) (calendarIntegrations db)).

Definition recordNotFound : Thrown := JsError "Record to update not found.".

(** The integration table with [data] applied to the row of the id. *)
Definition updateById (integrationId : string)
  (data : CalendarIntegration -> CalendarIntegration) (db : Db) : Db :=
  set_calendarIntegrations
    (map (fun ci => if (ci_id ci =? integrationId)%string then data ci else ci)
         (calendarIntegrations db)) db.

(** [calendarIntegration.update({ where: { id }, data })]: rejects when
    no row has the id. *)
Definition calendarIntegration_update (integrationId : string)
  (data : CalendarIntegration -> CalendarIntegration) : M Thrown unit :=
  fun db =>
    if existsb (fun ci => (ci_id ci =? integrationId)%string) (calendarIntegrations db) then
      (updateById integrationId data db, Ok tt)
    else (db, Throw recordNotFound).

(** The row [findUnique] returns. *)
Definition integrationOf (integrationId : string) (db : Db) : option CalendarIntegration :=
  find (fun ci => (ci_id ci =? integrationId)%string) (calendarIntegrations db).

Definition sameKey (integrationId externalEventId : string) (e : CalendarEvent) : bool :=
  (ce_calendarIntegrationId e =? integrationId)%string
  && (ce_externalEventId e =? externalEventId)%string.

(** [calendarEvent.upsert] on the unique key
    [(calendarIntegrationId, externalEventId)]. *)
Definition calendarEvent_upsert (integrationId externalEventId : string)
  (create : CalendarEvent) (update : CalendarEvent -> CalendarEvent) : M Thrown unit :=
  modify (fun db =>
    if existsb (sameKey integrationId externalEventId) (calendarEvents db) then
      set_calendarEvents
        (map (fun e => if sameKey integrationId externalEventId e then update e else e)
             (calendarEvents db)) db
    else set_calendarEvents (calendarEvents db ++ [create]) db).

(** A [Date] handed to the store: an Invalid Date is refused, the
    DateTime columns cannot hold it. *)
Definition storableDate (d : option Z) : M Thrown Z :=
  match d with
  | Some t => ret t
  | None => throw (JsError "Provided Date object is invalid. Expected Date.")
  end.

Section Sync.
Context `{GoogleCalendar} `{DateParse} `{DateFns}.

(** One clock reading [now] serves every [new Date()] of a call. *)
Definition upsertEvent (now : Z) (integrationId : string) (event : GoogleCalendarEvent)
  (startDateTime : string) : M Thrown unit :=
  let startTime := newDate startDateTime in
  let endTime :=
    if Js.truthy (end_dateTime event)
    then match end_dateTime event with Some e => newDate e | None => startTime end
    else startTime in
  startTime' <- storableDate startTime ;;
  endTime' <- storableDate endTime ;;
  calendarEvent_upsert integrationId (id event)
    (mkEvent integrationId (id event) startTime' endTime'
       (Some (Js.orElse (summary event) "Untitled Event")) true now)
    (fun e =>
       mkEvent (ce_calendarIntegrationId e) (ce_externalEventId e) startTime' endTime'
         (Some (Js.orElse (summary event) "Untitled Event")) (ce_isBusy e) now).

(** The [for (const event of events)] loop with its counter. *)
Fixpoint processLoop (now : Z) (integrationId : string)
  (events : list GoogleCalendarEvent) (eventsProcessed : Z) : M Thrown Z :=
  match events with
  | [] => ret eventsProcessed
  | event :: rest =>
    if negb (Js.truthy (Some (id event))) || negb (Js.truthy (start_dateTime event)) then
      processLoop now integrationId rest eventsProcessed
    else
      match start_dateTime event with
      | None => processLoop now integrationId rest eventsProcessed
      | Some startDateTime =>
        upsertEvent now integrationId event startDateTime ;;;
        processLoop now integrationId rest (eventsProcessed + 1)
      end
  end.

Definition processSyncEvents (now : Z) (integrationId : string)
  (events : list GoogleCalendarEvent) : M Thrown Z :=
  processLoop now integrationId events 0.

(** The [data] of the update after a successful sync.  An [undefined]
    [nextSyncToken] leaves the column as it is. *)
Definition syncSucceeded (now : Z) (next : option string) (ci : CalendarIntegration)
  : CalendarIntegration :=
  mkIntegration (ci_id ci) (ci_userId ci) (ci_type ci) (ci_accessToken ci)
    (ci_refreshToken ci) (ci_tokenExpiresAt ci) (ci_calendarId ci)
    (match next with Some t => Some t | None => ci_syncToken ci end)
    (Some now) "active" None.

(** The [data] of the update in the [catch] blocks. *)
Definition syncFailed (message : string) (ci : CalendarIntegration) : CalendarIntegration :=
  mkIntegration (ci_id ci) (ci_userId ci) (ci_type ci) (ci_accessToken ci)
    (ci_refreshToken ci) (ci_tokenExpiresAt ci) (ci_calendarId ci)
    (ci_syncToken ci) (ci_lastSyncAt ci) "error" (Some message).

Definition notFound (integrationId : string) : Thrown :=
  JsError ("Calendar integration not found: " ++ integrationId)%string.

(** The shared [catch (error)] block. *)
Definition recordFailure (now : Z) (integrationId : string) (error : Thrown)
  : M Thrown SyncResult :=
  let message := messageOf error in
  calendarIntegration_update integrationId (syncFailed message) ;;;
  ret (mkSyncResult 0 None now true (Some message)).

(** The window of a full sync: the last 90 days and the next 90 days. *)
Definition fullWindow (now : Z) : ListOptions :=
  let timeMin := subDays now 90 in
  let timeMax := now + 90 * 24 * 60 * 60 * 1000 in
  ByWindow timeMin timeMax.

Definition performFullSync (now : Z) (integrationId : string) : M Thrown SyncResult :=
  try_catch
    (integration <- calendarIntegration_findUnique integrationId ;;
     match integration with
     | None => throw (notFound integrationId)
     | Some integration =>
       result <- liftResult (listEvents (ci_calendarId integration) (fullWindow now)) ;;
       eventsSynced <- processSyncEvents now integrationId (events result) ;;
       calendarIntegration_update integrationId (syncSucceeded now (nextSyncToken result)) ;;;
       ret (mkSyncResult eventsSynced (nextSyncToken result) now false None)
     end)
    (recordFailure now integrationId).

(** What the [try] block of [performIncrementalSync] ends with: a value,
    or the promise of [performFullSync] returned without [await], which
    the surrounding [catch] no longer covers. *)
Inductive Completion :=
| Value (result : SyncResult)
| DelegateToFullSync.

Definition performIncrementalSync (now : Z) (integrationId : string) : M Thrown SyncResult :=
  completion <-
    try_catch
      (integration <- calendarIntegration_findUnique integrationId ;;
       match integration with
       | None => throw (notFound integrationId)
       | Some integration =>
         if negb (Js.truthy (ci_syncToken integration)) then ret DelegateToFullSync
         else
           match ci_syncToken integration with
           | None => ret DelegateToFullSync
           | Some syncToken =>
             result <- liftResult (listEvents (ci_calendarId integration) (BySyncToken syncToken)) ;;
             eventsSynced <- processSyncEvents now integrationId (events result) ;;
             calendarIntegration_update integrationId (syncSucceeded now (nextSyncToken result)) ;;;
             ret (Value (mkSyncResult eventsSynced (nextSyncToken result) now false None))
           end
       end)
      (fun error => result <- recordFailure now integrationId error ;; ret (Value result)) ;;
  match completion with
  | Value result => ret result
  | DelegateToFullSync => performFullSync now integrationId
  end.

(** What both syncs do with a listing that came back, for an
    integration that exists: the loop, then the update that records
    the outcome (a closed form the proofs compare the methods with). *)
Definition afterListing (now : Z) (integrationId : string) (listed : SyncEventsResult)
  (db : Db) : Db * Result Thrown SyncResult :=
  match processSyncEvents now integrationId (events listed) db with
  | (db1, Ok eventsSynced) =>
    (updateById integrationId (syncSucceeded now (nextSyncToken listed)) db1,
     Ok (mkSyncResult eventsSynced (nextSyncToken listed) now false None))
  | (db1, Throw error) =>
    (updateById integrationId (syncFailed (messageOf error)) db1,
     Ok (mkSyncResult 0 None now true (Some (messageOf error))))
  end.

(** The listing [performIncrementalSync] asks for: by the stored token
    when there is one, else the window of the full sync it hands over to. *)
Definition incrementalRequest (now : Z) (ci : CalendarIntegration) : ListOptions :=
  match ci_syncToken ci with
  | Some syncToken => if Js.truthy (Some syncToken) then BySyncToken syncToken else fullWindow now
  | None => fullWindow now
  end.

(** [cleanupOldEvents(integrationId?)]: [deleteMany] of the events that
    start before the cutoff; the result is the number of rows deleted. *)
Definition cleanupWhere (now : Z) (integrationId : option string) (e : CalendarEvent) : bool :=
  let cutoffDate := subDays now 90 in
  if Js.truthy integrationId
  then match integrationId with
       | Some i => (ce_calendarIntegrationId e =? i)%string && (ce_startTime e <? cutoffDate)
       | None => ce_startTime e <? cutoffDate
       end
  else ce_startTime e <? cutoffDate.

Definition cleanupOldEvents (now : Z) (integrationId : option string) : M Thrown Z :=
  fun db =>
    let doomed := filter (cleanupWhere now integrationId) (calendarEvents db) in
    (set_calendarEvents
       (filter (fun e => negb (cleanupWhere now integrationId e)) (calendarEvents db)) db,
     Ok (Z.of_nat (List.length doomed))).

End Sync.

(** The events the loop upserts: those with an id and a start
    date-time; the rest it skips. *)
Definition processed (event : GoogleCalendarEvent) : bool :=
  Js.truthy (Some (id event)) && Js.truthy (start_dateTime event).

(** The store after a change that touched the event table only. *)
Definition eventsOnly (db db' : Db) : Prop :=
  db' = set_calendarEvents (calendarEvents db') db.

(** The unique key of a cached event. *)
Definition keyOf (e : CalendarEvent) : string * string :=
  (ce_calendarIntegrationId e, ce_externalEventId e).

(** [after] keeps every key of [before], in place, and may add rows at
    the end: nothing was deleted. *)
Definition keysExtend (before after : list CalendarEvent) : Prop :=
  exists added, map keyOf after = map keyOf before ++ added.

(** *** Executable instances: UTC dates *)

(** [subDays] when the local zone is UTC: whole days of 24 hours. *)
#[local] Instance utcSubDays : DateFns := fun date n => date - n * 86400000.

Definition digitOf (c : ascii) : option Z :=
  let n := Z.of_nat (nat_of_ascii c) in
  if (48 <=? n) && (n <=? 57) then Some (n - 48) else None.

Fixpoint digitsOf (acc : Z) (l : list ascii) : option Z :=
  match l with
  | [] => Some acc
  | c :: l' =>
    match digitOf c with
    | Some d => digitsOf (acc * 10 + d) l'
    | None => None
    end
  end.

(** Days from 1970-01-01 to the civil date [y-m-d] (proleptic Gregorian). *)
Definition daysFromCivil (y m d : Z) : Z :=
  let y' := if m <=? 2 then y - 1 else y in
  let era := y' / 400 in
  let yoe := y' - era * 400 in
  let mp := (m + 9) mod 12 in
  let doy := (153 * mp + 2) / 5 + d - 1 in
  let doe := yoe * 365 + yoe / 4 - yoe / 100 + doy in
  era * 146097 + doe - 719468.

(** [new Date(s)] on the strings of the shape [YYYY-MM-DDTHH:MM:SSZ];
    every other string is taken as unparsable. *)
Definition parseIsoUtc (s : string) : option Z :=
  match list_ascii_of_string s with
  | [y1; y2; y3; y4; "-"%char; m1; m2; "-"%char; d1; d2; "T"%char;
     h1; h2; ":"%char; n1; n2; ":"%char; s1; s2; "Z"%char] =>
    match digitsOf 0 [y1; y2; y3; y4], digitsOf 0 [m1; m2], digitsOf 0 [d1; d2],
          digitsOf 0 [h1; h2], digitsOf 0 [n1; n2], digitsOf 0 [s1; s2] with
    | Some y, Some m, Some d, Some h, Some n, Some sec =>
      if (1 <=? m) && (m <=? 12) && (1 <=? d) && (d <=? 31)
         && (h <=? 23) && (n <=? 59) && (sec <=? 59)
      then Some (daysFromCivil y m d * 86400000 + h * 3600000 + n * 60000 + sec * 1000)
      else None
    | _, _, _, _, _, _ => None
    end
  | _ => None
  end.

#[local] Instance isoParse : DateParse := parseIsoUtc.

End CalendarSyncService.

(** ** CalendarAuthService *)

Module CalendarAuthService.
Import Store Async Exn.
Local Open Scope async_scope.

(** The credentials object of the OAuth client ([OAuthTokens]). *)
Record Credentials := mkCredentials {
  access_token : option string;
  refresh_token : option string;
  expiry_date : option Z;
  token_type : option string;
  scope : option string
}.

(** [@calcom/lib/crypto] under the process-wide [ENCRYPTION_KEY], and
    [JSON.stringify] on the credentials object. *)
Class Crypto := {
  symmetricEncrypt : string -> string;
  symmetricDecrypt : string -> Result Thrown string;
  stringify : Credentials -> string
}.

(** [getGoogleAppKeys()] and [OAuth2Client.refreshAccessToken()] on a
    client built from the two keys.  [refreshTokens] never hands the
    decrypted refresh token to the client, so the answer cannot depend
    on it. *)
Class GoogleOAuth := {
  getGoogleAppKeys : Result Thrown (string * string);
  refreshAccessToken : string -> string -> Result Thrown Credentials
}.

Definition fiveMinutes : Z := 5 * 60 * 1000.

Definition calendarIntegration_findUnique (integrationId : string)
  : M Thrown (option CalendarIntegration) :=
  CalendarSyncService.calendarIntegration_findUnique integrationId.

Definition notFound (integrationId : string) : Thrown :=
  JsError ("Calendar integration not found: " ++ integrationId)%string.

(** [expiry ? new Date(expiry) : new Date(Date.now() + 3600 * 1000)]:
    the number 0 is falsy. *)
Definition expiryOrDefault (now : Z) (expiry : option Z) : Z :=
  match expiry with
  | Some e => if e =? 0 then now + 3600 * 1000 else e
  | None => now + 3600 * 1000
  end.

Section Auth.
Context `{Crypto} `{GoogleOAuth}.

(** The [data] of the update that stores refreshed credentials. *)
Definition storeTokens (accessToken : string) (refreshToken : option string)
  (tokenExpiresAt : Z) (ci : CalendarIntegration) : CalendarIntegration :=
  mkIntegration (ci_id ci) (ci_userId ci) (ci_type ci) accessToken
    refreshToken (Some tokenExpiresAt) (ci_calendarId ci)
    (ci_syncToken ci) (ci_lastSyncAt ci) (ci_syncStatus ci) (ci_syncError ci).

(** The access-token column after a refresh: the new credentials
    object, with [newTokens.refresh_token || refreshToken] as its
    refresh token, stringified and encrypted. *)
Definition sealedCredentials (newTokens : Credentials) (refreshToken : string) : string :=
  symmetricEncrypt
    (stringify
       (mkCredentials (access_token newTokens)
          (Some (Js.orElse (refresh_token newTokens) refreshToken))
          (expiry_date newTokens) (token_type newTokens) (scope newTokens))).

(** [refreshTokens]; its [catch] logs and rethrows. *)
Definition refreshTokens (now : Z) (integrationId : string) : M Thrown unit :=
  try_catch
    (integration <- calendarIntegration_findUnique integrationId ;;
     match integration with
     | None => throw (notFound integrationId)
     | Some integration =>
       if negb (Js.truthy (ci_refreshToken integration)) then
         throw (JsError "No refresh token available")
       else
         match ci_refreshToken integration with
         | None => throw (JsError "No refresh token available")
         | Some stored =>
           refreshToken <- liftResult (symmetricDecrypt stored) ;;
           keys <- liftResult getGoogleAppKeys ;;
           newTokens <- liftResult (refreshAccessToken (fst keys) (snd keys)) ;;
           if negb (Js.truthy (access_token newTokens)) then
             throw (JsError "No access token received from refresh")
           else
             let encryptedAccessToken := sealedCredentials newTokens refreshToken in
             let encryptedRefreshToken :=
               if Js.truthy (refresh_token newTokens)
               then option_map symmetricEncrypt (refresh_token newTokens)
               else ci_refreshToken integration in
             let tokenExpiresAt := expiryOrDefault now (expiry_date newTokens) in
             CalendarSyncService.calendarIntegration_update integrationId
               (storeTokens encryptedAccessToken encryptedRefreshToken tokenExpiresAt)
         end
     end)
    (fun error => throw error).

(** [ensureValidToken]: [now] is its own [Date.now()], [nowAtRefresh]
    the later one read inside [refreshTokens]. *)
Definition ensureValidToken (now nowAtRefresh : Z) (integrationId : string) : M Thrown unit :=
  integration <- calendarIntegration_findUnique integrationId ;;
  match integration with
  | None => throw (notFound integrationId)
  | Some integration =>
    match ci_tokenExpiresAt integration with
    | Some expiresAt =>
      if expiresAt - now <? fiveMinutes then refreshTokens nowAtRefresh integrationId
      else ret tt
    | None => ret tt
    end
  end.

End Auth.

End CalendarAuthService.

(** ** Concrete calendars

    Monday 2026-11-16, 00:00 UTC is instant 1794787200000.  Admin 7 has
    one availability block, Mondays 09:00-17:00 UTC, and one
    google-calendar integration. *)

Module Examples.
Import Store MinimalBookingService.

Definition monday : Z := 1794787200000.

Definition at_ (h m : Z) : Z := monday + h * 3600000 + m * 60000.

Definition request (start stop : Z) : CreatePendingBookingInput :=
  mkInput 7 start stop "Ada" "ada@example.org" None (Some Zoom) "UTC" None.

Definition confirmedAt (start stop : Z) : Booking :=
  mkBooking 1 "booking-1" 7 start stop "Meeting with Bob" None CONFIRMED
    (Some "Bob") (Some "bob@example.org") None None None (Some "UTC").

Definition busyAt (start stop : Z) : CalendarEvent :=
  mkEvent "integration-1" "event-1" start stop (Some "Dentist") true monday.

Definition mondayBlock : AvailabilityBlock :=
  mkBlock "block-1" 7 1 (9 * 3600000) (17 * 3600000) "UTC" true.

Definition integration (syncToken : option string) (syncStatus : string) : CalendarIntegration :=
  mkIntegration "integration-1" 7 "google-calendar" "ciphertext" (Some "sealed-refresh")
    (Some (at_ 8 2)) "primary" syncToken (Some (at_ 7 0)) syncStatus None.

(** The Monday calendar with a busy event at 10:00-10:30, under a given
    sync status of the integration. *)
Definition mondayDb (syncStatus : string) : Db :=
  mkDb [] [mondayBlock] [integration (Some "token-1") syncStatus]
       [busyAt (at_ 10 0) (at_ 10 30)] 0.

(** A provider whose delta moves event-1 to 14:00-15:00 and then
    carries an event whose start no [Date] can be made of. *)
Definition providerWithBadDate : CalendarSyncService.GoogleCalendar :=
  fun _ _ =>
    Async.Ok (CalendarSyncService.mkListed
      [CalendarSyncService.mkGEvent "event-1"
         (Some "2026-11-16T14:00:00Z") (Some "2026-11-16T15:00:00Z") (Some "Dentist");
       CalendarSyncService.mkGEvent "event-2"
         (Some "next tuesday") None (Some "Lunch")]
      (Some "token-2")).

(** A provider that refuses every sync token (HTTP 410) and answers a
    window listing. *)
Definition providerRejectingToken : CalendarSyncService.GoogleCalendar :=
  fun _ options =>
    match options with
    | CalendarSyncService.BySyncToken _ =>
      Async.Throw (Exn.JsError "Sync token is no longer valid, a full sync is required.")
    | CalendarSyncService.ByWindow _ _ =>
      Async.Ok (CalendarSyncService.mkListed
        [CalendarSyncService.mkGEvent "event-1"
           (Some "2026-11-16T14:00:00Z") (Some "2026-11-16T15:00:00Z") (Some "Dentist")]
        (Some "token-2"))
    end.

(** A stand-in cipher that can be run: a prefix put on and taken off. *)
Definition seal (text : string) : string := ("sealed-" ++ text)%string.

Definition unseal (text : string) : Async.Result Exn.Thrown string :=
  if String.prefix "sealed-" text
  then Async.Ok (String.substring 7 (String.length text - 7) text)
  else Async.Throw (Exn.JsError "Invalid ciphertext").

Definition showField (name : string) (value : option string) : string :=
  match value with
  | Some v => (name ++ "=" ++ v ++ ";")%string
  | None => ""
  end.

Definition toyCrypto : CalendarAuthService.Crypto := {|
  CalendarAuthService.symmetricEncrypt := seal;
  CalendarAuthService.symmetricDecrypt := unseal;
  CalendarAuthService.stringify := fun c =>
    (showField "access_token" (CalendarAuthService.access_token c)
     ++ showField "refresh_token" (CalendarAuthService.refresh_token c)
     ++ showField "expiry_date"
          (option_map (fun e => NilEmpty.string_of_int (Z.to_int e))
             (CalendarAuthService.expiry_date c))
     ++ showField "token_type" (CalendarAuthService.token_type c)
     ++ showField "scope" (CalendarAuthService.scope c))%string
|}.

(** A provider whose refresh answer carries a new access token, good
    until 09:00, and no refresh token. *)
Definition refreshWithoutRefreshToken : CalendarAuthService.GoogleOAuth := {|
  CalendarAuthService.getGoogleAppKeys := Async.Ok ("client-id", "client-secret");
  CalendarAuthService.refreshAccessToken := fun _ _ =>
    Async.Ok (CalendarAuthService.mkCredentials (Some "ya29.new") None (Some (at_ 9 0))
                (Some "Bearer") (Some "calendar"))
|}.


(** The range the public router asks for: the whole Monday. *)
Definition wholeMonday : MinimalAvailabilityService.CalculateAvailableSlotsInput :=
  MinimalAvailabilityService.mkSlotsInput 7 monday (monday + 86399000) "UTC" None.

End Examples.

(** ** MinimalBookingService: approval, rejection, listing *)

Module BookingAdmin.
Import Store Async MinimalBookingService.
Local Open Scope async_scope.

(** What the admin-side methods reject with: a [TRPCError], or an error
    of the store itself. *)
Inductive Rejected :=
| Trpc (failure : Failure)
| StoreError (error : Exn.Thrown).

Definition pendingNotFound : Rejected :=
  Trpc (TRPCError NOT_FOUND "Pending booking not found").

(** [o || null]. *)
Definition orNull (o : option string) : option string :=
  if Js.truthy o then o else None.

(** The [where] of both lookups: [{ uid, userId, status: PENDING }]. *)
Definition pendingWhere (bookingId : string) (userId : Z) (b : Booking) : bool :=
  (b_uid b =? bookingId)%string && (b_userId b =? userId)
  && BookingStatus_eqb (b_status b) PENDING.

(** [booking.update({ where: { id }, data })]: the updated row, or a
    rejection when no row has the id. *)
Definition booking_update (id : Z) (data : Booking -> Booking) : M Rejected Booking :=
  fun db =>
    match find (fun b => b_id b =? id) (bookings db) with
    | Some row =>
      (set_bookings (map (fun b => if b_id b =? id then data b else b) (bookings db)) db,
       Ok (data row))
    | None => (db, Throw (StoreError CalendarSyncService.recordNotFound))
    end.

(** The [data] of the approval. *)
Definition confirmed (calendarEventId videoLink : option string) (b : Booking) : Booking :=
  mkBooking (b_id b) (b_uid b) (b_userId b) (b_startTime b) (b_endTime b) (b_title b)
    (b_description b) CONFIRMED (b_attendeeName b) (b_attendeeEmail b) (b_videoProvider b)
    (orNull videoLink) (orNull calendarEventId) (b_timezone b).

(** The [data] of the rejection.  The [rejectionReason] it also writes
    is a column outside the [Booking] record; no method of the services
    reads it back. *)
Definition rejected (b : Booking) : Booking :=
  mkBooking (b_id b) (b_uid b) (b_userId b) (b_startTime b) (b_endTime b) (b_title b)
    (b_description b) REJECTED (b_attendeeName b) (b_attendeeEmail b) (b_videoProvider b)
    (b_videoLink b) (b_calendarEventId b) (b_timezone b).

(** [approveBooking(bookingId, userId, options?)]; the two arguments
    after [userId] are [options?.calendarEventId] and
    [options?.videoLink].  The confirmation e-mail sits in a
    [try]/[catch] that only logs and is not modelled. *)
Definition approveBooking (bookingId : string) (userId : Z)
  (calendarEventId videoLink : option string) : M Rejected BookingResult :=
  booking <- gets (fun db => find (pendingWhere bookingId userId) (bookings db)) ;;
  match booking with
  | None => throw pendingNotFound
  | Some booking =>
    updated <- booking_update (b_id booking) (confirmed calendarEventId videoLink) ;;
    ret (toBookingResult updated)
  end.

(** [rejectBooking(bookingId, userId, reason?)]. *)
Definition rejectBooking (bookingId : string) (userId : Z) (reason : option string)
  : M Rejected BookingResult :=
  booking <- gets (fun db => find (pendingWhere bookingId userId) (bookings db)) ;;
  match booking with
  | None => throw pendingNotFound
  | Some booking =>
    updated <- booking_update (b_id booking) rejected ;;
    ret (toBookingResult updated)
  end.

(** The [where] that [getBookingsByUser] builds: the user, an [OR] of
    the date bounds that were given, and the status list when it is
    given and not empty. *)
Definition listWhere (userId : Z) (startDate endDate : option Z)
  (status : option (list BookingStatus)) (b : Booking) : bool :=
  (b_userId b =? userId)
  && (match startDate, endDate with
      | None, None => true
      | _, _ =>
        existsb (fun clause : Booking -> bool => clause b)
          ((match startDate with
            | Some s => [fun b => b_startTime b >=? s]
            | None => []
            end)
           ++ (match endDate with
               | Some e => [fun b => b_endTime b <=? e]
               | None => []
               end))
      end)
  && (match status with
      | Some allowed =>
        if (0 <? Z.of_nat (List.length allowed)) then statusIn allowed (b_status b) else true
      | None => true
      end).

Definition compareStartTime (a b : Booking) : Z := b_startTime a - b_startTime b.

(** [getBookingsByUser(userId, options?)]: [findMany] with
    [orderBy: { startTime: "asc" }], then the projection. *)
Definition getBookingsByUser (userId : Z) (startDate endDate : option Z)
  (status : option (list BookingStatus)) : M Rejected (list BookingResult) :=
  bookings <- gets (fun db =>
    MinimalAvailabilityService.sortWith compareStartTime
      (filter (listWhere userId startDate endDate status) (bookings db))) ;;
  ret (map toBookingResult bookings).

(** The store without the rows of one id. *)
Definition withoutBooking (id : Z) (db : Db) : Db :=
  set_bookings (filter (fun b => negb (b_id b =? id)) (bookings db)) db.

End BookingAdmin.

(** ** MinimalAvailabilityService: the parts of the computation, named *)

Module SlotParts.
Import Store MinimalAvailabilityService.

(** The blocks [findMany] hands to the generator. *)
Definition activeBlocks (db : Db) (input : CalculateAvailableSlotsInput)
  : list AvailabilityBlock :=
  filter (fun b => (ab_userId b =? userId input) && ab_isActive b) (availabilityBlocks db).

(** The [where] of the booking query. *)
Definition bookedWhere (input : CalculateAvailableSlotsInput) (b : Booking) : bool :=
  (b_userId b =? userId input)
  && statusIn [PENDING; CONFIRMED] (b_status b)
  && ((b_startTime b <=? endDate input) && (b_endTime b >=? startDate input)).

(** The interval a booking row occupies. *)
Definition spanOf (b : Booking) : Span := mkSpan (b_startTime b) (b_endTime b).

(** The intervals of the bookings the query returns. *)
Definition bookedSpans (db : Db) (input : CalculateAvailableSlotsInput) : list Span :=
  map (fun b => mkSpan (b_startTime b) (b_endTime b)) (filter (bookedWhere input) (bookings db)).

(** The predicate of [allSlots.filter]: no calendar event and no booking
    overlaps the slot. *)
Definition isFree (db : Db) (input : CalculateAvailableSlotsInput) (slot : TimeSlot) : bool :=
  negb (existsb (slotsOverlap (spanOfSlot slot))
          (getCalendarEvents db (userId input) (startDate input) (endDate input)))
  && negb (existsb (slotsOverlap (spanOfSlot slot)) (bookedSpans db input)).

Section Window.
Context `{LocalDate} `{DateFnsTz}.

(** The window of a block on the day of [currentDate], in UTC. *)
Definition dayStartUTC (block : AvailabilityBlock) (currentDate : Z) : Z :=
  fromZonedTime
    (setHours currentDate (getHours (ab_startTime block)) (getMinutes (ab_startTime block)))
    (ab_timezone block).

Definition dayEndUTC (block : AvailabilityBlock) (currentDate : Z) : Z :=
  fromZonedTime
    (setHours currentDate (getHours (ab_endTime block)) (getMinutes (ab_endTime block)))
    (ab_timezone block).

End Window.

End SlotParts.

(** ** CalendarSyncService: what a sync writes *)

Module SyncParts.
Import Store Async Exn CalendarSyncService.

(** The columns of an integration that the OAuth flow owns. *)
Definition connectionOf (ci : CalendarIntegration)
  : string * Z * string * string * option string * option Z * string :=
  (ci_id ci, ci_userId ci, ci_type ci, ci_accessToken ci, ci_refreshToken ci,
   ci_tokenExpiresAt ci, ci_calendarId ci).

(** The cached events of one integration, in table order. *)
Definition eventsOf (integrationId : string) (db : Db) : list CalendarEvent :=
  filter (fun e => (ce_calendarIntegrationId e =? integrationId)%string) (calendarEvents db).

Section Dates.
Context `{DateParse}.

(** The two [Date]s the loop makes of an event: [new Date(start.dateTime)]
    and [new Date(end.dateTime || start.dateTime)]; [None] when one of
    them is an Invalid Date or the event has no start date-time. *)
Definition datesOf (event : GoogleCalendarEvent) : option (Z * Z) :=
  match start_dateTime event with
  | None => None
  | Some startDateTime =>
    let startTime := newDate startDateTime in
    let endTime :=
      if Js.truthy (end_dateTime event)
      then match end_dateTime event with Some e => newDate e | None => startTime end
      else startTime in
    match startTime, endTime with
    | Some s, Some t => Some (s, t)
    | _, _ => None
    end
  end.

(** The [update] branch of the upsert, on a row. *)
Definition refreshed (now : Z) (event : GoogleCalendarEvent) (e : CalendarEvent) : CalendarEvent :=
  match datesOf event with
  | Some (s, t) =>
    mkEvent (ce_calendarIntegrationId e) (ce_externalEventId e) s t
      (Some (Js.orElse (summary event) "Untitled Event")) (ce_isBusy e) now
  | None => e
  end.

(** What one listed event does to one cached row. *)
Definition applyTo (now : Z) (integrationId : string) (e : CalendarEvent)
  (event : GoogleCalendarEvent) : CalendarEvent :=
  if processed event && sameKey integrationId (id event) e then refreshed now event e else e.

(** The store after [calendarEvent.upsert] for one listed event. *)
Definition upserted (now : Z) (integrationId : string) (event : GoogleCalendarEvent)
  (db : Db) : Db :=
  match datesOf event with
  | Some (s, t) =>
    set_calendarEvents
      (if existsb (sameKey integrationId (id event)) (calendarEvents db)
       then map (fun e => if sameKey integrationId (id event) e then refreshed now event e else e)
              (calendarEvents db)
       else calendarEvents db
            ++ [mkEvent integrationId (id event) s t
                  (Some (Js.orElse (summary event) "Untitled Event")) true now]) db
  | None => db
  end.

End Dates.

(** A cached row that some listed event addresses. *)
Definition touchedBy (integrationId : string) (events : list GoogleCalendarEvent)
  (e : CalendarEvent) : bool :=
  existsb (fun event => processed event && sameKey integrationId (id event) e) events.

Definition withSyncedAt (now : Z) (e : CalendarEvent) : CalendarEvent :=
  mkEvent (ce_calendarIntegrationId e) (ce_externalEventId e) (ce_startTime e) (ce_endTime e)
    (ce_title e) (ce_isBusy e) now.

(** The store with [syncedAt] set to [now] on the rows the listing
    addresses, and nothing else changed. *)
Definition restamped (now : Z) (integrationId : string) (events : list GoogleCalendarEvent)
  (db : Db) : Db :=
  set_calendarEvents
    (map (fun e => if touchedBy integrationId events e then withSyncedAt now e else e)
       (calendarEvents db)) db.

End SyncParts.

(** ** CalendarAuthService: connecting a calendar, and the client *)

Module CalendarConnect.
Import Store Async Exn CalendarAuthService.
Local Open Scope async_scope.

(** The columns of an integration that the sync engine owns, with the
    columns nobody rewrites. *)
Definition syncColumnsOf (ci : CalendarIntegration)
  : string * Z * string * string * option string * option Z * string * option string :=
  (ci_id ci, ci_userId ci, ci_type ci, ci_calendarId ci, ci_syncToken ci, ci_lastSyncAt ci,
   ci_syncStatus ci, ci_syncError ci).

(** [tokens.expiry_date]: [number | null | undefined]. *)
Inductive Expiry :=
| Undefined
| Null
| Millis (ms : Z).

(** The [tokens] of [getToken], and of the object [JSON.parse]
    returns. *)
Record Tokens := mkTokens {
  t_access_token : option string;
  t_refresh_token : option string;
  t_expiry_date : Expiry;
  t_token_type : option string;
  t_scope : option string
}.

(** [OAuth2Client.getToken(code)] on a client built from the two keys
    and the redirect URI. *)
Class OAuthCode := getToken : string -> string -> string -> string -> Result Thrown Tokens.

(** [JSON.stringify] on the five-field object, and [JSON.parse]
    followed by the reading of the five fields. *)
Class Json := {
  stringifyTokens : Tokens -> string;
  parseTokens : string -> Result Thrown Tokens
}.

(** An [OAuth2Client] with credentials set. *)
Record OAuth2Client := mkClient {
  client_id : string;
  client_secret : string;
  credentials : Tokens
}.

(** [tokens.expiry_date ? new Date(tokens.expiry_date)
     : tokens.expiry_date === undefined ? null : new Date(Date.now() + 3600 * 1000)]. *)
Definition expiresAtOf (now : Z) (expiry : Expiry) : option Z :=
  match expiry with
  | Millis ms => if ms =? 0 then Some (now + 3600 * 1000) else Some ms
  | Undefined => None
  | Null => Some (now + 3600 * 1000)
  end.

(** The [where] of the upsert: the unique key [(userId, type)]. *)
Definition userId_type (userId : Z) (ci : CalendarIntegration) : bool :=
  (ci_userId ci =? userId) && (ci_type ci =? "google-calendar")%string.

(** The [update] of the upsert. *)
Definition reconnected (accessToken : string) (refreshToken : option string)
  (tokenExpiresAt : option Z) (ci : CalendarIntegration) : CalendarIntegration :=
  mkIntegration (ci_id ci) (ci_userId ci) (ci_type ci) accessToken refreshToken tokenExpiresAt
    (ci_calendarId ci) (ci_syncToken ci) (ci_lastSyncAt ci) "disconnected" None.

(** [calendarIntegration.upsert]: [newId] is the key the store gives a
    created row; the columns the [create] leaves out take the defaults
    of the migration. *)
Definition calendarIntegration_upsert (newId : string) (userId : Z)
  (accessToken : string) (refreshToken : option string) (tokenExpiresAt : option Z)
  : M Thrown CalendarIntegration :=
  fun db =>
    match find (userId_type userId) (calendarIntegrations db) with
    | Some found =>
      (set_calendarIntegrations
         (map (fun ci => if userId_type userId ci
                         then reconnected accessToken refreshToken tokenExpiresAt ci else ci)
            (calendarIntegrations db)) db,
       Ok (reconnected accessToken refreshToken tokenExpiresAt found))
    | None =>
      let row := mkIntegration newId userId "google-calendar" accessToken refreshToken
                   tokenExpiresAt "primary" None None "disconnected" None in
      (set_calendarIntegrations (calendarIntegrations db ++ [row]) db, Ok row)
    end.

Section Connect.
Context `{Crypto} `{GoogleOAuth} `{OAuthCode} `{Json}.

(** [exchangeCodeForTokens(userId, code, redirectUri)]; [now] is the
    [Date.now()] of the default expiry.  Its [catch] logs and
    rethrows. *)
Definition exchangeCodeForTokens (now : Z) (newId : string) (userId : Z)
  (code redirectUri : string) : M Thrown string :=
  try_catch
    (keys <- liftResult getGoogleAppKeys ;;
     tokens <- liftResult (getToken (fst keys) (snd keys) redirectUri code) ;;
     if negb (Js.truthy (t_access_token tokens)) then
       throw (JsError "No access token received from Google")
     else
       let encryptedAccessToken :=
         symmetricEncrypt
           (stringifyTokens
              (mkTokens (t_access_token tokens) (t_refresh_token tokens)
                 (t_expiry_date tokens) (t_token_type tokens) (t_scope tokens))) in
       let encryptedRefreshToken :=
         if Js.truthy (t_refresh_token tokens)
         then option_map symmetricEncrypt (t_refresh_token tokens)
         else None in
       let tokenExpiresAt := expiresAtOf now (t_expiry_date tokens) in
       integration <- calendarIntegration_upsert newId userId encryptedAccessToken
                        encryptedRefreshToken tokenExpiresAt ;;
       ret (ci_id integration))
    (fun error => throw error).

(** [getOAuthClient(integrationId)]. *)
Definition getOAuthClient (integrationId : string) : M Thrown OAuth2Client :=
  integration <- calendarIntegration_findUnique integrationId ;;
  match integration with
  | None => throw (notFound integrationId)
  | Some integration =>
    text <- liftResult (symmetricDecrypt (ci_accessToken integration)) ;;
    decryptedTokens <- liftResult (parseTokens text) ;;
    keys <- liftResult getGoogleAppKeys ;;
    ret (mkClient (fst keys) (snd keys)
           (mkTokens (t_access_token decryptedTokens) (t_refresh_token decryptedTokens)
              (t_expiry_date decryptedTokens) (t_token_type decryptedTokens)
              (t_scope decryptedTokens)))
  end.

End Connect.

End CalendarConnect.

(** ** The calendar sync job *)

Module SyncJob.
Import Store Async Exn CalendarAuthService CalendarConnect.
Local Open Scope async_scope.

Record SyncJobResult := mkJobResult {
  integrationsProcessed : Z;
  integrationsSynced : Z;
  integrationsFailed : Z;
  eventsSynced : Z
}.

(** The clock readings of one round of the loop: the [Date.now()] of
    [ensureValidToken], the one inside [refreshTokens], and the
    [new Date()] of the sync. *)
Record Readings := mkReadings {
  atCheck : Z;
  atRefresh : Z;
  atSync : Z
}.

(** A change of the store that, among the integrations, has touched
    the rows of one id only, and has touched no booking and no block. *)
Definition aside (integrationId : string) (db db' : Db) : Prop :=
  bookings db' = bookings db
  /\ availabilityBlocks db' = availabilityBlocks db
  /\ map ci_id (calendarIntegrations db') = map ci_id (calendarIntegrations db)
  /\ forall other, other <> integrationId ->
       CalendarSyncService.integrationOf other db' = CalendarSyncService.integrationOf other db.

Section Job.
Context `{Crypto} `{GoogleOAuth} `{Json} `{CalendarSyncService.DateParse}
        `{CalendarSyncService.DateFns}.
(** The calendar API as seen through a client: the answer of a listing
    may depend on the credentials the client carries. *)
Variable calendarOf : OAuth2Client -> CalendarSyncService.GoogleCalendar.
(** The readings of round [k], and the reading of the cleanup. *)
Variable readings : nat -> Readings.
Variable atCleanup : Z.

(** The body of the inner [try]. *)
Definition syncOne (k : nat) (integrationId : string)
  : M Thrown CalendarSyncService.SyncResult :=
  ensureValidToken (atCheck (readings k)) (atRefresh (readings k)) integrationId ;;;
  oAuthClient <- getOAuthClient integrationId ;;
  CalendarSyncService.performIncrementalSync (H := calendarOf oAuthClient)
    (atSync (readings k)) integrationId.

Definition failedOne (result : SyncJobResult) : SyncJobResult :=
  mkJobResult (integrationsProcessed result) (integrationsSynced result)
    (integrationsFailed result + 1) (eventsSynced result).

(** One round of [for (const integration of integrations)]. *)
Definition syncRound (k : nat) (integration : CalendarIntegration) (result : SyncJobResult)
  : M Thrown SyncJobResult :=
  let result :=
    mkJobResult (integrationsProcessed result + 1) (integrationsSynced result)
      (integrationsFailed result) (eventsSynced result) in
  try_catch
    (syncResult <- syncOne k (ci_id integration) ;;
     if negb (CalendarSyncService.hasError syncResult) then
       ret (mkJobResult (integrationsProcessed result) (integrationsSynced result + 1)
              (integrationsFailed result)
              (eventsSynced result + CalendarSyncService.eventsSynced syncResult))
     else ret (failedOne result))
    (fun _ => ret (failedOne result)).

Fixpoint syncLoop (k : nat) (integrations : list CalendarIntegration)
  (result : SyncJobResult) : M Thrown SyncJobResult :=
  match integrations with
  | [] => ret result
  | integration :: rest =>
    result' <- syncRound k integration result ;;
    syncLoop (S k) rest result'
  end.

(** [syncAllCalendars()]; the outer [catch] logs and rethrows. *)
Definition syncAllCalendars : M Thrown SyncJobResult :=
  try_catch
    (integrations <- gets (fun db =>
       filter (fun ci => (ci_syncStatus ci =? "active")%string) (calendarIntegrations db)) ;;
     result <- syncLoop 0 integrations (mkJobResult 0 0 0 0) ;;
     CalendarSyncService.cleanupOldEvents atCleanup None ;;;
     ret result)
    (fun error => throw error).

End Job.

End SyncJob.

(** ** The rate limit of the public booking endpoint *)

Module RateLimit.

Record RateLimitEntry := mkEntry {
  count : Z;
  resetAt : Z
}.

(** [rateLimitStore], a [Map] from IP address to entry, as its lookup
    function. *)
Definition RateLimitStore : Type := string -> option RateLimitEntry.

Definition emptyStore : RateLimitStore := fun _ => None.

Definition set (ip : string) (entry : RateLimitEntry) (store : RateLimitStore)
  : RateLimitStore :=
  fun key => if (key =? ip)%string then Some entry else store key.

Definition RATE_LIMIT_COUNT : Z := 10.
Definition RATE_LIMIT_WINDOW_MS : Z := 60 * 60 * 1000.

(** [cleanupExpiredEntries()]: every entry whose window has passed is
    deleted. *)
Definition cleanupExpiredEntries (now : Z) (store : RateLimitStore) : RateLimitStore :=
  fun key =>
    match store key with
    | Some entry => if resetAt entry <? now then None else Some entry
    | None => None
    end.

(** The object [isRateLimited] returns; a field left out is [None]. *)
Record Verdict := mkVerdict {
  limited : bool;
  v_resetAt : option Z;
  remaining : option Z
}.

(** [isRateLimited(ip)]; [entry.count += 1] writes through to the
    entry held by the map. *)
Definition isRateLimited (now : Z) (ip : string) (store : RateLimitStore)
  : RateLimitStore * Verdict :=
  match store ip with
  | None =>
    (set ip (mkEntry 1 (now + RATE_LIMIT_WINDOW_MS)) store,
     mkVerdict false None (Some (RATE_LIMIT_COUNT - 1)))
  | Some entry =>
    if resetAt entry <? now then
      (set ip (mkEntry 1 (now + RATE_LIMIT_WINDOW_MS)) store,
       mkVerdict false None (Some (RATE_LIMIT_COUNT - 1)))
    else if count entry >=? RATE_LIMIT_COUNT then
      (store, mkVerdict true (Some (resetAt entry)) (Some 0))
    else
      (set ip (mkEntry (count entry + 1) (resetAt entry)) store,
       mkVerdict false None (Some (RATE_LIMIT_COUNT - (count entry + 1))))
  end.

(** [Math.ceil(x / 1000)] on integers. *)
Definition ceilSeconds (ms : Z) : Z := - ((- ms) / 1000).

(** The [secondsToWait] of the middleware for a limited verdict;
    [nowAtThrow] is its own [Date.now()].  A [resetAt] of 0 is falsy. *)
Definition secondsToWait (nowAtThrow : Z) (verdict : Verdict) : Z :=
  match v_resetAt verdict with
  | Some r => if r =? 0 then 3600 else ceilSeconds (r - nowAtThrow)
  | None => 3600
  end.

(** What the middleware does with a request: it rejects with
    TOO_MANY_REQUESTS and the seconds to wait, or calls [next]. *)
Inductive Outcome (A : Type) :=
| TooManyRequests (retryAfter : Z)
| Next (result : A).
Arguments TooManyRequests {A} retryAfter.
Arguments Next {A} result.

(** [publicBookingRateLimit]: [next] runs against the persisted state
    [State] only when the verdict is not limited. *)
Definition publicBookingRateLimit {State A : Type} (now nowAtThrow : Z) (ip : string)
  (next : State -> State * A) (store : RateLimitStore) (state : State)
  : RateLimitStore * State * Outcome A :=
  let (store', rateLimitResult) := isRateLimited now ip store in
  if limited rateLimitResult then
    (store', state, TooManyRequests (secondsToWait nowAtThrow rateLimitResult))
  else
    let (state', result) := next state in
    (store', state', Next result).

(** The verdicts of a run of requests from one address, at the given
    clock readings. *)
Fixpoint verdicts (ip : string) (times : list Z) (store : RateLimitStore) : list Verdict :=
  match times with
  | [] => []
  | now :: later =>
    let (store', verdict) := isRateLimited now ip store in
    verdict :: verdicts ip later store'
  end.

(** The verdict on the request number [k] (from 0) of a window that
    closes at [closes]. *)
Definition verdictOf (closes : Z) (k : Z) : Verdict :=
  if k <? RATE_LIMIT_COUNT
  then mkVerdict false None (Some (RATE_LIMIT_COUNT - (k + 1)))
  else mkVerdict true (Some closes) (Some 0).

(** A request to a rate-limited procedure: its two clock readings
    and what the procedure behind the middleware does to the state. *)
Record Request (State A : Type) := mkRequest {
  arrives : Z;
  arrivesAtThrow : Z;
  handler : State -> State * A
}.
Arguments mkRequest {State A} arrives arrivesAtThrow handler.
Arguments arrives {State A} r.
Arguments arrivesAtThrow {State A} r.
Arguments handler {State A} r.

(** Requests of one address served one after the other: the state at
    the end and the outcomes. *)
Fixpoint serve {State A : Type} (ip : string) (requests : list (Request State A))
  (store : RateLimitStore) (state : State) : State * list (Outcome A) :=
  match requests with
  | [] => (state, [])
  | request :: later =>
    let '(store', state', outcome) :=
      publicBookingRateLimit (arrives request) (arrivesAtThrow request) ip (handler request)
        store state in
    let (final, outcomes) := serve ip later store' state' in
    (final, outcome :: outcomes)
  end.

Definition reachedNext {A : Type} (outcome : Outcome A) : bool :=
  match outcome with
  | Next _ => true
  | TooManyRequests _ => false
  end.

End RateLimit.

(** ** AvailabilityBlockService *)

Module AvailabilityBlockService.
Import Store Async Exn MinimalAvailabilityService.
Local Open Scope async_scope.

(** [Date.prototype.getSeconds], in the server's local time zone. *)
Class LocalSeconds := getSeconds : Z -> Z.

(** The [Date] that is read back after a [Date] was written to a [TIME]
    column. *)
Class TimeColumn := asTime : Z -> Z.

Record CreateAvailabilityBlockInput := mkCreate {
  userId : Z;
  dayOfWeek : Z;
  startTime : Z;
  endTime : Z;
  timezone : string;
  isActive : option bool
}.

Record UpdateAvailabilityBlockInput := mkUpdate {
  id : string;
  u_dayOfWeek : option Z;
  u_startTime : option Z;
  u_endTime : option Z;
  u_timezone : option string;
  u_isActive : option bool
}.

(** [a ?? b]. *)
Definition orDefault {A} (a : option A) (b : A) : A :=
  match a with
  | Some x => x
  | None => b
  end.

(** Truthiness of an optional number: [undefined] and 0 are falsy. *)
Definition truthyNumber (n : option Z) : bool :=
  match n with
  | Some x => negb (x =? 0)
  | None => false
  end.

(** Truthiness of an optional [Date]: an object is truthy. *)
Definition truthyDate (d : option Z) : bool :=
  match d with
  | Some _ => true
  | None => false
  end.

Definition blockNotFound (id : string) : Thrown :=
  JsError ("Availability block not found: " ++ id)%string.

Section Service.
Context `{LocalDate} `{LocalSeconds} `{TimeColumn}.

(** Hours, minutes and seconds of a [Date], in milliseconds. *)
Definition timeMs (date : Z) : Z :=
  getHours date * 3600000 + getMinutes date * 60000 + getSeconds date * 1000.

(** [validateAvailabilityBlock(input)]; the [instanceof Date] test
    holds by typing. *)
Definition validateAvailabilityBlock (input : CreateAvailabilityBlockInput)
  : Result Thrown unit :=
  if (dayOfWeek input <? 0) || (dayOfWeek input >? 6) then
    Throw (JsError "dayOfWeek must be between 0 (Sunday) and 6 (Saturday)")
  else if negb (Js.truthy (Some (timezone input))) then
    Throw (JsError "timezone is required and must be a valid IANA timezone identifier")
  else
    let startTimeMs := timeMs (startTime input) in
    let endTimeMs := timeMs (endTime input) in
    if endTimeMs <=? startTimeMs then
      Throw (JsError "endTime must be after startTime")
    else
      let durationMs := endTimeMs - startTimeMs in
      if durationMs >? 24 * 3600000 then
        Throw (JsError "Availability block duration cannot exceed 24 hours")
      else Ok tt.

(** [create(input)]; [newId] is the key the store gives the row. *)
Definition create (newId : string) (input : CreateAvailabilityBlockInput)
  : M Thrown AvailabilityBlock :=
  liftResult (validateAvailabilityBlock input) ;;;
  fun db =>
    let block :=
      mkBlock newId (userId input) (dayOfWeek input) (asTime (startTime input))
        (asTime (endTime input)) (timezone input) (orDefault (isActive input) true) in
    (set_availabilityBlocks (availabilityBlocks db ++ [block]) db, Ok block).

(** The [data] of the update: a field left [undefined] is not
    written. *)
Definition updated (updateData : UpdateAvailabilityBlockInput) (b : AvailabilityBlock)
  : AvailabilityBlock :=
  mkBlock (ab_id b) (ab_userId b)
    (orDefault (u_dayOfWeek updateData) (ab_dayOfWeek b))
    (orDefault (option_map asTime (u_startTime updateData)) (ab_startTime b))
    (orDefault (option_map asTime (u_endTime updateData)) (ab_endTime b))
    (orDefault (u_timezone updateData) (ab_timezone b))
    (orDefault (u_isActive updateData) (ab_isActive b)).

(** [update(input)]. *)
Definition update (input : UpdateAvailabilityBlockInput) : M Thrown AvailabilityBlock :=
  existingBlock <- gets (fun db =>
    find (fun b => (ab_id b =? id input)%string) (availabilityBlocks db)) ;;
  match existingBlock with
  | None => throw (blockNotFound (id input))
  | Some existingBlock =>
    (if truthyDate (u_startTime input) || truthyDate (u_endTime input)
        || truthyNumber (u_dayOfWeek input) || Js.truthy (u_timezone input)
     then
       liftResult
         (validateAvailabilityBlock
            (mkCreate (ab_userId existingBlock)
               (orDefault (u_dayOfWeek input) (ab_dayOfWeek existingBlock))
               (orDefault (u_startTime input) (ab_startTime existingBlock))
               (orDefault (u_endTime input) (ab_endTime existingBlock))
               (orDefault (u_timezone input) (ab_timezone existingBlock))
               None))
     else ret tt) ;;;
    fun db =>
      (set_availabilityBlocks
         (map (fun b => if (ab_id b =? id input)%string then updated input b else b)
            (availabilityBlocks db)) db,
       Ok (updated input existingBlock))
  end.

(** [delete(id, userId)]. *)
Definition delete (blockId : string) (callerId : Z) : M Thrown unit :=
  block <- gets (fun db =>
    find (fun b => (ab_id b =? blockId)%string) (availabilityBlocks db)) ;;
  match block with
  | None => throw (blockNotFound blockId)
  | Some block =>
    if negb (ab_userId block =? callerId) then
      throw (JsError "Unauthorized: You can only delete your own availability blocks")
    else
      modify (fun db =>
        set_availabilityBlocks
          (filter (fun b => negb (ab_id b =? blockId)%string) (availabilityBlocks db)) db)
  end.

(** A stored block that [validateAvailabilityBlock] would let in. *)
Definition validBlock (b : AvailabilityBlock) : Prop :=
  0 <= ab_dayOfWeek b <= 6 /\ ab_timezone b <> ""
  /\ timeMs (ab_startTime b) < timeMs (ab_endTime b).

End Service.

End AvailabilityBlockService.

(** ** The data retention job *)

Module DataRetentionJob.
Import Store.

(** [d.setFullYear(d.getFullYear() - 1)] on a local [Date], as a
    function of the instant. *)
Class CalendarYear := oneYearBefore : Z -> Z.

Record DataRetentionJobResult := mkRetention {
  bookingsDeleted : Z;
  bookingsProcessed : Z
}.

Definition batchSize : nat := 100.

(** [array.slice(i, j)]. *)
Definition slice {A} (i j : nat) (l : list A) : list A := firstn (j - i) (skipn i l).

Definition idIn (bookingIds : list Z) (b : Booking) : bool :=
  existsb (Z.eqb (b_id b)) bookingIds.

(** [booking.deleteMany({ where: { id: { in: bookingIds } } })]: the
    store afterwards and the count. *)
Definition booking_deleteMany (bookingIds : list Z) (db : Db) : Db * Z :=
  (set_bookings (filter (fun b => negb (idIn bookingIds b)) (bookings db)) db,
   Z.of_nat (List.length (filter (idIn bookingIds) (bookings db)))).

(** The [for (let i = 0; i < oldBookings.length; i += batchSize)] loop;
    [None] when the fuel runs out. *)
Fixpoint batchLoop (fuel : nat) (i : nat) (oldBookings : list Booking)
  (result : DataRetentionJobResult) (db : Db) : option (Db * DataRetentionJobResult) :=
  match fuel with
  | O => None
  | S fuel' =>
    if (i <? List.length oldBookings)%nat then
      let batch := slice i (i + batchSize) oldBookings in
      let bookingIds := map b_id batch in
      let (db', count) := booking_deleteMany bookingIds db in
      batchLoop fuel' (i + batchSize) oldBookings
        (mkRetention (bookingsDeleted result + count) (bookingsProcessed result)) db'
    else Some (db, result)
  end.

Section Job.
Context `{CalendarYear}.

(** The [where] of the [findMany]: [endTime < oneYearAgo]. *)
Definition expired (now : Z) (b : Booking) : bool := b_endTime b <? oneYearBefore now.

(** [cleanupOldBookings()]; [now] is its [new Date()].  The store
    calls of the model cannot reject, so the [catch], which logs and
    rethrows, is never entered. *)
Definition cleanupOldBookings (fuel : nat) (now : Z) (db : Db)
  : option (Db * DataRetentionJobResult) :=
  let oldBookings := filter (expired now) (bookings db) in
  let result := mkRetention 0 (Z.of_nat (List.length oldBookings)) in
  if (List.length oldBookings =? 0)%nat then Some (db, result)
  else batchLoop fuel 0 oldBookings result db.

End Job.

End DataRetentionJob.

(** ** ZoomClient: the access token *)

Module ZoomClient.
Import Async Exn.

Record ZoomTokenResponse := mkTokenResponse {
  access_token : string;
  token_type : string;
  expires_in : Z;
  scope : string
}.

(** A JavaScript [Date]: an instant in milliseconds, or the Invalid
    Date that [new Date(value)] gives for a value more than
    8.64e15 ms away from the epoch. *)
Inductive JsDate :=
| Instant (ms : Z)
| InvalidDate.

Definition maxTime : Z := 8640000000000000.

(** [new Date(value)] on a number. *)
Definition newDate (value : Z) : JsDate :=
  if Z.abs value <=? maxTime then Instant value else InvalidDate.

(** [date > new Date()]: both sides become numbers, the Invalid Date
    becomes NaN, and every comparison with NaN is false. *)
Definition isAfter (date : JsDate) (now : Z) : bool :=
  match date with
  | Instant ms => ms >? now
  | InvalidDate => false
  end.

(** The two private fields of the client. *)
Record ClientState := mkClientState {
  accessToken : option string;
  tokenExpiresAt : option JsDate
}.

(** What a call has done: the state afterwards, what the promise
    settles with, and whether the token endpoint was asked. *)
Record Call := mkCall {
  stateAfter : ClientState;
  settled : Result Thrown string;
  asked : bool
}.

(** [getAccessToken()].  [now] is the [new Date()] of the validity
    test, [response] what the token endpoint answers if it is asked,
    and [nowAfter] the [Date.now()] read when the answer is in. *)
Definition getAccessToken (now nowAfter : Z) (response : Result Thrown ZoomTokenResponse)
  (state : ClientState) : Call :=
  match accessToken state, tokenExpiresAt state with
  | Some token, Some expiresAt =>
    if Js.truthy (Some token) && isAfter expiresAt now then mkCall state (Ok token) false
    else
      match response with
      | Ok data =>
        let expiresIn := expires_in data - 300 in
        mkCall (mkClientState (Some (access_token data))
                  (Some (newDate (nowAfter + expiresIn * 1000))))
          (Ok (access_token data)) true
      | Throw _ => mkCall state (Throw (JsError "Failed to obtain Zoom access token")) true
      end
  | _, _ =>
    match response with
    | Ok data =>
      let expiresIn := expires_in data - 300 in
      mkCall (mkClientState (Some (access_token data))
                (Some (newDate (nowAfter + expiresIn * 1000))))
        (Ok (access_token data)) true
    | Throw _ => mkCall state (Throw (JsError "Failed to obtain Zoom access token")) true
    end
  end.

End ZoomClient.

(** ** GoogleCalendarClient: listing the events *)

Module GoogleCalendarClient.
Import Async Exn CalendarSyncService.

(** [calendar_v3.Schema$EventDateTime] and [calendar_v3.Schema$Event],
    as far as the client and the sync read them. *)
Record EventDateTime := mkEventDateTime {
  dateTime : option string
}.

Record SchemaEvent := mkSchemaEvent {
  e_id : option string;
  e_start : option EventDateTime;
  e_end : option EventDateTime;
  e_summary : option string
}.

(** [mapEvent]: [id: event.id || ""], [start: event.start || {}],
    [end: event.end || {}]. *)
Definition mapEvent (event : SchemaEvent) : GoogleCalendarEvent :=
  mkGEvent (Js.orElse (e_id event) "")
    (match e_start event with Some t => dateTime t | None => None end)
    (match e_end event with Some t => dateTime t | None => None end)
    (e_summary event).

(** The parameters of [events.list] that vary; [calendarId],
    [singleEvents] and [maxResults] stay as first set. *)
Record Params := mkParams {
  p_calendarId : string;
  p_syncToken : option string;
  p_timeMin : option string;
  p_timeMax : option string;
  p_pageToken : option string
}.

Record ListResponse := mkResponse {
  items : option (list SchemaEvent);
  r_nextSyncToken : option string;
  r_nextPageToken : option string
}.

Record Listing := mkListing {
  l_events : list GoogleCalendarEvent;
  l_nextSyncToken : option string;
  hasMore : bool
}.

(** The [options] of [listEvents]. *)
Record Options := mkOptions {
  o_syncToken : option string;
  o_timeMin : option string;
  o_timeMax : option string
}.

(** [this.calendar.events.list(params)]. *)
Class CalendarApi := events_list : Params -> Result Thrown ListResponse.

(** The default window: the ISO strings of [now] with its month moved
    back by three and forward by three. *)
Class MonthWindow := threeMonthsAround : Z -> string * string.

Definition withPageToken (pageToken : option string) (params : Params) : Params :=
  if Js.truthy pageToken
  then mkParams (p_calendarId params) (p_syncToken params) (p_timeMin params)
         (p_timeMax params) pageToken
  else params.

Definition mapped (response : ListResponse) : list GoogleCalendarEvent :=
  match items response with
  | Some listed => map mapEvent listed
  | None => []
  end.

(** [a || b] on optional strings. *)
Definition orOption (a b : option string) : option string :=
  if Js.truthy a then a else b.

(** The sync token the loop ends with: the last one that is not
    empty. *)
Fixpoint lastSyncToken (pages : list ListResponse) (nextSyncToken : option string)
  : option string :=
  match pages with
  | [] => nextSyncToken
  | page :: later => lastSyncToken later (orOption (r_nextSyncToken page) nextSyncToken)
  end.

Section Client.
Context `{CalendarApi} `{MonthWindow}.

(** The [do ... while (pageToken)] loop; [None] when the fuel runs
    out. *)
Fixpoint pageLoop (fuel : nat) (params : Params) (events : list GoogleCalendarEvent)
  (nextSyncToken pageToken : option string) : option (Result Thrown Listing) :=
  match fuel with
  | O => None
  | S fuel' =>
    let params := withPageToken pageToken params in
    match events_list params with
    | Throw error => Some (Throw error)
    | Ok response =>
      let events := events ++ mapped response in
      let nextSyncToken := orOption (r_nextSyncToken response) nextSyncToken in
      let pageToken := orOption (r_nextPageToken response) None in
      if Js.truthy pageToken
      then pageLoop fuel' params events nextSyncToken pageToken
      else Some (Ok (mkListing events nextSyncToken false))
    end
  end.

(** The parameters [listEvents] starts from; [now] is the [new Date()]
    of the default window. *)
Definition initialParams (now : Z) (calendarId : string) (options : Options) : Params :=
  if Js.truthy (o_syncToken options) then
    mkParams calendarId (o_syncToken options) None None None
  else if Js.truthy (o_timeMin options) && Js.truthy (o_timeMax options) then
    mkParams calendarId None (o_timeMin options) (o_timeMax options) None
  else
    mkParams calendarId None (Some (fst (threeMonthsAround now)))
      (Some (snd (threeMonthsAround now))) None.

(** [listEvents(calendarId, options)].  Its [catch] logs and
    rethrows. *)
Definition listEvents (fuel : nat) (now : Z) (calendarId : string) (options : Options)
  : option (Result Thrown Listing) :=
  pageLoop fuel (initialParams now calendarId options) [] None None.

(** The pages the API serves from a page token on, to the first page
    without a next page token. *)
Inductive Paged (params : Params) : option string -> list ListResponse -> Prop :=
| Paged_last (pageToken : option string) (response : ListResponse) :
    events_list (withPageToken pageToken params) = Ok response ->
    Js.truthy (r_nextPageToken response) = false ->
    Paged params pageToken [response]
| Paged_more (pageToken : option string) (response : ListResponse)
    (later : list ListResponse) :
    events_list (withPageToken pageToken params) = Ok response ->
    Js.truthy (r_nextPageToken response) = true ->
    Paged params (r_nextPageToken response) later ->
    Paged params pageToken (response :: later).

(** The API serves [n] pages from a page token on and fails on the
    next one. *)
Inductive Broken (params : Params) : option string -> nat -> Thrown -> Prop :=
| Broken_now (pageToken : option string) (error : Thrown) :
    events_list (withPageToken pageToken params) = Throw error ->
    Broken params pageToken 0 error
| Broken_later (pageToken : option string) (response : ListResponse) (n : nat)
    (error : Thrown) :
    events_list (withPageToken pageToken params) = Ok response ->
    Js.truthy (r_nextPageToken response) = true ->
    Broken params (r_nextPageToken response) n error ->
    Broken params pageToken (S n) error.

End Client.

End GoogleCalendarClient.

(** ** More concrete data *)

Module AdminExamples.
Import Store MinimalBookingService Examples.

(** Admin 7's second booking, pending, Monday 11:00-11:30. *)
Definition pendingBooking : Booking :=
  mkBooking 2 "booking-2" 7 (at_ 11 0) (at_ 11 30) "Meeting with Cy" None PENDING
    (Some "Cy") (Some "cy@example.org") (Some "zoom") None None (Some "UTC").

(** The Monday calendar with a confirmed booking at 10:15-10:45 and the
    pending one at 11:00-11:30. *)
Definition twoBookings : Db :=
  mkDb [confirmedAt (at_ 10 15) (at_ 10 45); pendingBooking] [mondayBlock]
       [integration (Some "token-1") "active"] [] 0.

(** The store after the pending booking was rejected. *)
Definition afterRejection : Db :=
  fst (BookingAdmin.rejectBooking "booking-2" 7 (Some "busy") twoBookings).

(** The slots of that Monday, half an hour each. *)
Definition mondaySlots : list MinimalAvailabilityService.TimeSlot :=
  match MinimalAvailabilityService.calculateAvailableSlots
          (H := MinimalAvailabilityService.utcDate) (H0 := MinimalAvailabilityService.utcTz)
          20 twoBookings wholeMonday with
  | Some slots => slots
  | None => []
  end.

Definition nineOClock : MinimalAvailabilityService.TimeSlot :=
  MinimalAvailabilityService.mkSlot (at_ 9 0) (at_ 9 30)
    "2026-11-16T09:00:00Z" "2026-11-16T09:30:00Z".

(** The store after a third booking, 12:00-13:00, was accepted. *)
Definition afterBooking : Db :=
  fst (createPendingBooking (H := hasAtSign) monday "booking-3"
         (request (at_ 12 0) (at_ 13 0)) twoBookings).

(** The store after the pending booking was approved. *)
Definition afterApproval : Db :=
  fst (BookingAdmin.approveBooking "booking-2" 7 None (Some "https://zoom.example/j/1")
         twoBookings).

(** The same Monday with a second block for the same hours. *)
Definition doubledBlock : Db :=
  set_availabilityBlocks
    [mondayBlock; mkBlock "block-2" 7 1 (9 * 3600000) (17 * 3600000) "UTC" true]
    twoBookings.

(** One page of a listing: event-1 moved to 14:00-15:00, and an
    all-day event, which has no start date-time. *)
Definition onePage : list CalendarSyncService.GoogleCalendarEvent :=
  [CalendarSyncService.mkGEvent "event-1"
     (Some "2026-11-16T14:00:00Z") (Some "2026-11-16T15:00:00Z") (Some "Dentist");
   CalendarSyncService.mkGEvent "event-3" None None (Some "Holiday")].

(** The Monday calendar after that page was processed at 08:00. *)
Definition afterOnePage : Db :=
  fst (CalendarSyncService.processSyncEvents (H0 := CalendarSyncService.isoParse)
         (at_ 8 0) "integration-1" onePage (mondayDb "active")).

(** A slot query of another admin. *)
Definition otherAdminsMonday : MinimalAvailabilityService.CalculateAvailableSlotsInput :=
  MinimalAvailabilityService.mkSlotsInput 8 monday (monday + 86399000) "UTC" None.

(** Two admins on the Monday calendar: admin 8 has the same hours as
    admin 7 and a calendar of their own, with a stand-up at
    11:00-12:00. *)
Definition twoAdmins : Db :=
  mkDb []
    [mondayBlock; mkBlock "block-2" 8 1 (9 * 3600000) (17 * 3600000) "UTC" true]
    [integration (Some "token-1") "active";
     mkIntegration "integration-2" 8 "google-calendar" "ciphertext-2"
       (Some "sealed-refresh-2") (Some (at_ 8 2)) "primary" (Some "token-9")
       (Some (at_ 7 0)) "active" None]
    [busyAt (at_ 10 0) (at_ 10 30);
     mkEvent "integration-2" "event-9" (at_ 11 0) (at_ 12 0) (Some "Stand-up") true monday]
    0.

(** The Monday calendar with a cached event of last spring. *)
Definition withOldEvent : Db :=
  set_calendarEvents
    [mkEvent "integration-1" "event-0" (monday - 200 * 86400000)
       (monday - 200 * 86400000 + 3600000) (Some "Kick-off") true monday;
     busyAt (at_ 10 0) (at_ 10 30)]
    (mondayDb "active").

(** A stand-in JSON layer that can be run: the five fields in order,
    separated by bars; a string field is [+value] or [-] when absent. *)
Definition showOptional (value : option string) : string :=
  match value with
  | Some v => String "+" v
  | None => "-"
  end.

Definition showExpiry (expiry : CalendarConnect.Expiry) : string :=
  match expiry with
  | CalendarConnect.Undefined => "undefined"
  | CalendarConnect.Null => "null"
  | CalendarConnect.Millis ms => NilEmpty.string_of_int (Z.to_int ms)
  end.

Definition showTokens (t : CalendarConnect.Tokens) : string :=
  (showOptional (CalendarConnect.t_access_token t) ++ "|"
   ++ showOptional (CalendarConnect.t_refresh_token t) ++ "|"
   ++ showExpiry (CalendarConnect.t_expiry_date t) ++ "|"
   ++ showOptional (CalendarConnect.t_token_type t) ++ "|"
   ++ showOptional (CalendarConnect.t_scope t))%string.

Fixpoint splitOnBar (field : string) (rest : string) : list string :=
  match rest with
  | EmptyString => [field]
  | String c rest' =>
    if Ascii.eqb c "|" then field :: splitOnBar "" rest'
    else splitOnBar (field ++ String c "") rest'
  end.

Definition readOptional (field : string) : option (option string) :=
  match field with
  | String "+" v => Some (Some v)
  | String "-" EmptyString => Some None
  | _ => None
  end.

Definition readExpiry (field : string) : option CalendarConnect.Expiry :=
  if (field =? "undefined")%string then Some CalendarConnect.Undefined
  else if (field =? "null")%string then Some CalendarConnect.Null
  else match field with
       | EmptyString => None
       | _ => option_map CalendarConnect.Millis
                (CalendarSyncService.digitsOf 0 (list_ascii_of_string field))
       end.

Definition readTokens (text : string) : Async.Result Exn.Thrown CalendarConnect.Tokens :=
  match splitOnBar "" text with
  | [a; r; e; ty; sc] =>
    match readOptional a, readOptional r, readExpiry e, readOptional ty, readOptional sc with
    | Some a', Some r', Some e', Some ty', Some sc' =>
      Async.Ok (CalendarConnect.mkTokens a' r' e' ty' sc')
    | _, _, _, _, _ => Async.Throw (Exn.JsError "Unexpected token in JSON")
    end
  | _ => Async.Throw (Exn.JsError "Unexpected end of JSON input")
  end.

Definition toyJson : CalendarConnect.Json := {|
  CalendarConnect.stringifyTokens := showTokens;
  CalendarConnect.parseTokens := readTokens
|}.

(** A provider that issues, for any code, an access token with a
    refresh token and no expiry date. *)
Definition issuedTokens : CalendarConnect.Tokens :=
  CalendarConnect.mkTokens (Some "ya29.first") (Some "1//refresh") CalendarConnect.Undefined
    (Some "Bearer") (Some "calendar").

Definition issuing : CalendarConnect.OAuthCode := fun _ _ _ _ => Async.Ok issuedTokens.

(** Admin 7 connects again on the Monday calendar; admin 8 connects
    for the first time. *)
Definition afterReconnect : Db :=
  fst (CalendarConnect.exchangeCodeForTokens (H := toyCrypto) (H0 := refreshWithoutRefreshToken)
         (H1 := issuing) (H2 := toyJson)
         (at_ 8 0) "integration-2" 7 "code-1" "https://cal.example/callback"
         (mondayDb "active")).

Definition afterFirstConnect : Db :=
  fst (CalendarConnect.exchangeCodeForTokens (H := toyCrypto) (H0 := refreshWithoutRefreshToken)
         (H1 := issuing) (H2 := toyJson)
         (at_ 8 0) "integration-2" 8 "code-1" "https://cal.example/callback"
         (mondayDb "active")).

(** Seconds of the minute and the [TIME] column when the server's
    local zone is UTC. *)
Definition utcSeconds : AvailabilityBlockService.LocalSeconds :=
  fun date => (date / 1000) mod 60.

Definition utcTime : AvailabilityBlockService.TimeColumn :=
  fun date => date mod 86400000.

(** Tuesday 13:00-15:30, given as dates of the Monday. *)
Definition tuesdayAfternoon : AvailabilityBlockService.CreateAvailabilityBlockInput :=
  AvailabilityBlockService.mkCreate 7 2 (at_ 13 0) (at_ 15 30) "Europe/Vienna" None.

(** One year back when no 29 February lies between, and the Monday
    calendar with a cancelled booking of two years ago. *)
Definition plainYear : DataRetentionJob.CalendarYear := fun now => now - 365 * 86400000.

Definition longAgo : Booking :=
  mkBooking 3 "booking-0" 7 (monday - 730 * 86400000) (monday - 730 * 86400000 + 1800000)
    "Meeting with Di" None CANCELLED (Some "Di") (Some "di@example.org") None None None
    (Some "UTC").

Definition withOldBooking : Db := set_bookings (longAgo :: bookings twoBookings) twoBookings.

(** A calendar API that serves the listing in two pages: the dentist
    first, then a lunch and the sync token. *)
Definition firstPage : GoogleCalendarClient.ListResponse :=
  GoogleCalendarClient.mkResponse
    (Some [GoogleCalendarClient.mkSchemaEvent (Some "event-1")
             (Some (GoogleCalendarClient.mkEventDateTime (Some "2026-11-16T14:00:00Z")))
             (Some (GoogleCalendarClient.mkEventDateTime (Some "2026-11-16T15:00:00Z")))
             (Some "Dentist")])
    None (Some "page-2").

Definition secondPage : GoogleCalendarClient.ListResponse :=
  GoogleCalendarClient.mkResponse
    (Some [GoogleCalendarClient.mkSchemaEvent (Some "event-2")
             (Some (GoogleCalendarClient.mkEventDateTime (Some "2026-11-16T12:00:00Z")))
             (Some (GoogleCalendarClient.mkEventDateTime (Some "2026-11-16T12:45:00Z")))
             (Some "Lunch")])
    (Some "token-2") None.

Definition twoPages : GoogleCalendarClient.CalendarApi :=
  fun params =>
    match GoogleCalendarClient.p_pageToken params with
    | None => Async.Ok firstPage
    | Some pageToken =>
      if (pageToken =? "page-2")%string then Async.Ok secondPage
      else Async.Throw (Exn.JsError "Invalid page token")
    end.

Definition aroundMonday : GoogleCalendarClient.MonthWindow :=
  fun _ => ("2026-08-16T00:00:00.000Z", "2027-02-16T00:00:00.000Z").

(** The Monday calendar when no refresh token is stored. *)
Definition withoutRefreshToken : Db :=
  set_calendarIntegrations
    [mkIntegration "integration-1" 7 "google-calendar" "ciphertext" None
       (Some (at_ 8 2)) "primary" None None "active" None] (mondayDb "active").

(** A visitor, the request the visitor keeps sending, and a store in
    which the visitor has used up the window that closes five seconds
    after midnight. *)
Definition visitor : string := "203.0.113.7".

Definition attempt : RateLimit.Request Db (Async.Result Failure BookingResult) :=
  RateLimit.mkRequest monday monday
    (createPendingBooking (H := hasAtSign) monday "booking-3" (request (at_ 12 0) (at_ 13 0))).

Definition usedUp : RateLimit.RateLimitStore :=
  RateLimit.set visitor (RateLimit.mkEntry 10 (monday + 5000)) RateLimit.emptyStore.

End AdminExamples.

(* ===================================================================== *)
(** * Part II: theorems                                                  *)
(* ===================================================================== *)

(** ** The booking conflict guard *)

Module BookingGuard.
Import Store Async MinimalBookingService Examples.

Ltac zbool :=
  repeat match goal with
  | |- context [?a <? ?b] => destruct (Z.ltb_spec a b)
  | |- context [?a <=? ?b] => destruct (Z.leb_spec a b)
  | |- context [?a >? ?b] => rewrite (Z.gtb_ltb a b)
  | |- context [?a >=? ?b] => rewrite (Z.geb_leb a b)
  | H : context [?a >? ?b] |- _ => rewrite (Z.gtb_ltb a b) in H
  | H : context [?a >=? ?b] |- _ => rewrite (Z.geb_leb a b) in H
  end.

(** The three clauses against the half-open test, on proper intervals. *)
Lemma overlapClauses_halfOpenOverlap (s1 e1 s2 e2 : Z) :
  s1 < e1 -> s2 < e2 ->
  overlapClauses s1 e1 s2 e2 = halfOpenOverlap s1 e1 s2 e2.
Proof.
  intros H1 H2. unfold overlapClauses, halfOpenOverlap.
  zbool; simpl; try reflexivity; lia.
Qed.

Lemma halfOpenOverlap_true (a b c d : Z) :
  halfOpenOverlap a b c d = true <-> a < d /\ b > c.
Proof.
  unfold halfOpenOverlap. rewrite andb_true_iff, Z.ltb_lt, Z.gtb_ltb, Z.ltb_lt. lia.
Qed.

Lemma statusIn_pending_confirmed (s : BookingStatus) :
  statusIn [PENDING; CONFIRMED] s = true <-> s = PENDING \/ s = CONFIRMED.
Proof.
  destruct s; simpl; split; intros; try tauto; try discriminate;
    destruct H as [H | H]; discriminate.
Qed.

Section Guard.
Context `{EmailFormat}.

Lemma parse_Ok_same (input validated : CreatePendingBookingInput) :
  createBookingInputSchema_parse input = Ok validated -> validated = input.
Proof.
  unfold createBookingInputSchema_parse.
  destruct (_ ++ _ ++ _); intros E; [ now inversion E | discriminate ].
Qed.

(** A request the schema refuses never reaches the store. *)
Lemma schema_failure (now : Z) (uid : string) (input : CreatePendingBookingInput)
  (e : Failure) (db : Db) :
  createBookingInputSchema_parse input = Throw e ->
  createPendingBooking now uid input db = (db, Throw e) /\ isValidation e = true.
Proof.
  intros E. unfold createPendingBooking, bind, liftResult. rewrite E. split; [ reflexivity | ].
  unfold createBookingInputSchema_parse in E.
  destruct (_ ++ _ ++ _); [ discriminate | now inversion E ].
Qed.

(** Past the three checks, the call is the transaction. *)
Lemma validated_runs_transaction (now : Z) (uid : string)
  (input : CreatePendingBookingInput) (db : Db) :
  createBookingInputSchema_parse input = Ok input ->
  15 * 60 * 1000 <= endTime input - startTime input <= 8 * 60 * 60 * 1000 ->
  now <= startTime input ->
  createPendingBooking now uid input db = transaction (checkThenInsert uid input) db.
Proof.
  intros E Hd Hn. unfold createPendingBooking, bind, liftResult. rewrite E.
  cbv zeta.
  destruct (Z.ltb_spec (endTime input - startTime input) (15 * 60 * 1000)); [ lia | ].
  rewrite Z.gtb_ltb.
  destruct (Z.ltb_spec (8 * 60 * 60 * 1000) (endTime input - startTime input)); [ lia | ].
  destruct (Z.ltb_spec (startTime input) now); [ lia | reflexivity ].
Qed.

Lemma transaction_outcome (uid : string) (input : CreatePendingBookingInput) (db : Db) :
  transaction (checkThenInsert uid input) db =
  match find (overlappingWhere input) (bookings db) with
  | Some _ =>
    (set_txOpened (S (txOpened db)) db,
     Throw (TRPCError CONFLICT "Time slot is no longer available"))
  | None =>
    (set_bookings (bookings db ++ [pendingRow uid input (nextBookingId db)])
       (set_txOpened (S (txOpened db)) db),
     Ok (toBookingResult (pendingRow uid input (nextBookingId db))))
  end.
Proof.
  unfold transaction, checkThenInsert, bind, booking_findFirst, gets. simpl.
  destruct (find _ _); reflexivity.
Qed.

Lemma find_overlapping_Some_iff (input : CreatePendingBookingInput) (l : list Booking) :
  Forall (fun b => b_startTime b < b_endTime b) l ->
  startTime input < endTime input ->
  (exists b, find (overlappingWhere input) l = Some b) <->
  (exists b, In b l /\ b_userId b = userId input
             /\ (b_status b = PENDING \/ b_status b = CONFIRMED)
             /\ halfOpenOverlap (startTime input) (endTime input)
                  (b_startTime b) (b_endTime b) = true).
Proof.
  intros Hwf Hin.
  assert (Hrow : forall b, In b l ->
            (overlappingWhere input b = true <->
             b_userId b = userId input
             /\ (b_status b = PENDING \/ b_status b = CONFIRMED)
             /\ halfOpenOverlap (startTime input) (endTime input)
                  (b_startTime b) (b_endTime b) = true)).
  { intros b Hb. unfold overlappingWhere.
    rewrite Forall_forall in Hwf.
    rewrite (overlapClauses_halfOpenOverlap _ _ _ _ Hin (Hwf b Hb)).
    rewrite !andb_true_iff, Z.eqb_eq, statusIn_pending_confirmed. tauto. }
  split.
  - intros [b Hf]. apply find_some in Hf. destruct Hf as [Hb Hw].
    exists b. split; [ exact Hb | now apply Hrow ].
  - intros [b [Hb Hp]].
    destruct (find (overlappingWhere input) l) eqn:Ef; [ now eexists | ].
    apply (find_none _ _ Ef) in Hb as Hn. apply Hrow in Hp; [ congruence | exact Hb ].
Qed.

(** C2: on proper intervals the three clauses of the overlap query are
    the half-open overlap test; so a request that has passed validation
    is refused with CONFLICT exactly when a pending or confirmed booking
    of the same admin half-open-overlaps it; and a request for
    10:00-10:30 meets a confirmed booking at 10:15-10:45 with CONFLICT. *)
Theorem overlap_query_is_half_open_overlap :
  (forall s1 e1 s2 e2 : Z, s1 < e1 -> s2 < e2 ->
     (overlapClauses s1 e1 s2 e2 = true <-> s1 < e2 /\ e1 > s2))
  /\ (forall (now : Z) (uid : string) (db : Db) (input : CreatePendingBookingInput),
        createBookingInputSchema_parse input = Ok input ->
        15 * 60 * 1000 <= endTime input - startTime input <= 8 * 60 * 60 * 1000 ->
        now <= startTime input ->
        Forall (fun b => b_startTime b < b_endTime b) (bookings db) ->
        ((exists message,
            snd (createPendingBooking now uid input db) = Throw (TRPCError CONFLICT message))
         <->
         (exists b, In b (bookings db) /\ b_userId b = userId input
                    /\ (b_status b = PENDING \/ b_status b = CONFIRMED)
                    /\ halfOpenOverlap (startTime input) (endTime input)
                         (b_startTime b) (b_endTime b) = true)))
  /\ (forall (now : Z) (uid : string) (db : Db) (input : CreatePendingBookingInput)
             (midnight : Z) (b : Booking),
        createBookingInputSchema_parse input = Ok input ->
        startTime input = midnight + 10 * 3600000 ->
        endTime input = midnight + 10 * 3600000 + 30 * 60000 ->
        now <= startTime input ->
        In b (bookings db) -> b_userId b = userId input -> b_status b = CONFIRMED ->
        b_startTime b = midnight + 10 * 3600000 + 15 * 60000 ->
        b_endTime b = midnight + 10 * 3600000 + 45 * 60000 ->
        createPendingBooking now uid input db =
        (set_txOpened (S (txOpened db)) db,
         Throw (TRPCError CONFLICT "Time slot is no longer available"))).
Proof.
  split; [ | split ].
  - intros s1 e1 s2 e2 H1 H2.
    rewrite (overlapClauses_halfOpenOverlap _ _ _ _ H1 H2). apply halfOpenOverlap_true.
  - intros now uid db input E Hd Hn Hwf.
    rewrite (validated_runs_transaction _ _ _ _ E Hd Hn), transaction_outcome.
    rewrite <- (find_overlapping_Some_iff input (bookings db) Hwf) by lia.
    destruct (find _ _); simpl; split.
    + intros _. now eexists.
    + intros _. now eexists.
    + intros [m Hm]. discriminate.
    + intros [b' Hb']. discriminate.
  - intros now uid db input midnight b E Hs He Hn Hb Hu Hst Hbs Hbe.
    rewrite (validated_runs_transaction _ _ _ _ E) by lia.
    rewrite transaction_outcome.
    destruct (find (overlappingWhere input) (bookings db)) eqn:Ef; [ reflexivity | ].
    apply (find_none _ _ Ef) in Hb. exfalso.
    unfold overlappingWhere, overlapClauses in Hb.
    rewrite Hu, Hst, Z.eqb_refl in Hb. simpl in Hb.
    revert Hb. zbool; simpl; try discriminate; lia.
Qed.

(** C6, as the code has it: a request whose start lies strictly before
    the clock reading is refused with a validation error; the store is
    returned as it was, so no transaction was opened and no row
    created. *)
Theorem past_start_rejected_before_transaction
  (now : Z) (uid : string) (db : Db) (input : CreatePendingBookingInput) :
  startTime input < now ->
  exists e, createPendingBooking now uid input db = (db, Throw e)
            /\ isValidation e = true.
Proof.
  intros Hpast.
  destruct (createBookingInputSchema_parse input) as [validated | e] eqn:E.
  - apply parse_Ok_same in E as Hv. subst validated.
    unfold createPendingBooking, bind, liftResult, throw. rewrite E. cbv zeta.
    destruct (_ <? _); [ now eexists | ].
    destruct (_ >? _); [ now eexists | ].
    destruct (Z.ltb_spec (startTime input) now); [ now eexists | lia ].
  - exists e. now apply schema_failure.
Qed.

(** C7: with a well-formed request, a duration under 15 minutes or over
    8 hours is refused with BAD_REQUEST (so are 14 min 59 s and
    8 h 1 s), and a duration of exactly 15 minutes or exactly 8 hours,
    on a start that is not past and with no overlapping booking, is
    inserted as a pending booking. *)
Theorem duration_bounds
  (now : Z) (uid : string) (db : Db) (input : CreatePendingBookingInput) :
  createBookingInputSchema_parse input = Ok input ->
  let durationMs := endTime input - startTime input in
  (durationMs < 15 * 60 * 1000 ->
     createPendingBooking now uid input db =
     (db, Throw (TRPCError BAD_REQUEST "Booking duration must be at least 15 minutes")))
  /\ (durationMs = 14 * 60 * 1000 + 59 * 1000 ->
        exists e, createPendingBooking now uid input db = (db, Throw e)
                  /\ isValidation e = true)
  /\ (durationMs > 8 * 60 * 60 * 1000 ->
        createPendingBooking now uid input db =
        (db, Throw (TRPCError BAD_REQUEST "Booking duration cannot exceed 8 hours")))
  /\ (durationMs = 8 * 60 * 60 * 1000 + 1000 ->
        exists e, createPendingBooking now uid input db = (db, Throw e)
                  /\ isValidation e = true)
  /\ (durationMs = 15 * 60 * 1000 \/ durationMs = 8 * 60 * 60 * 1000 ->
        now <= startTime input ->
        find (overlappingWhere input) (bookings db) = None ->
        let row := pendingRow uid input (nextBookingId db) in
        createPendingBooking now uid input db =
        (set_bookings (bookings db ++ [row]) (set_txOpened (S (txOpened db)) db),
         Ok (toBookingResult row))
        /\ b_status row = PENDING).
Proof.
  intros E durationMs.
  assert (Hlow : durationMs < 15 * 60 * 1000 ->
            createPendingBooking now uid input db =
            (db, Throw (TRPCError BAD_REQUEST "Booking duration must be at least 15 minutes"))).
  { intros Hd. unfold createPendingBooking, bind, liftResult, throw. rewrite E. cbv zeta.
    fold durationMs.
    destruct (Z.ltb_spec durationMs (15 * 60 * 1000)); [ reflexivity | lia ]. }
  assert (Hhigh : durationMs > 8 * 60 * 60 * 1000 ->
            createPendingBooking now uid input db =
            (db, Throw (TRPCError BAD_REQUEST "Booking duration cannot exceed 8 hours"))).
  { intros Hd. unfold createPendingBooking, bind, liftResult, throw. rewrite E. cbv zeta.
    fold durationMs.
    destruct (Z.ltb_spec durationMs (15 * 60 * 1000)); [ lia | ].
    rewrite Z.gtb_ltb.
    destruct (Z.ltb_spec (8 * 60 * 60 * 1000) durationMs); [ reflexivity | lia ]. }
  repeat split.
  - exact Hlow.
  - intros Hd. eexists. split; [ apply Hlow; lia | reflexivity ].
  - exact Hhigh.
  - intros Hd. eexists. split; [ apply Hhigh; lia | reflexivity ].
  - rewrite (validated_runs_transaction _ _ _ _ E) by (subst durationMs; lia).
    rewrite transaction_outcome, H2. reflexivity.
Qed.

(** C9: the guard reads the booking table only.  A request that passes
    validation and meets no pending or confirmed booking of the admin is
    inserted as pending whatever the cached calendar events and the
    availability blocks are: also when it overlaps a busy event, and
    when no block of the admin covers it. *)
Theorem guard_ignores_calendar_and_availability
  (now : Z) (uid : string) (db : Db) (input : CreatePendingBookingInput)
  (events : list CalendarEvent) (blocks : list AvailabilityBlock) :
  createBookingInputSchema_parse input = Ok input ->
  15 * 60 * 1000 <= endTime input - startTime input <= 8 * 60 * 60 * 1000 ->
  now <= startTime input ->
  (forall b, In b (bookings db) -> b_userId b = userId input ->
             b_status b = PENDING \/ b_status b = CONFIRMED ->
             halfOpenOverlap (startTime input) (endTime input)
               (b_startTime b) (b_endTime b) = false) ->
  Forall (fun b => b_startTime b < b_endTime b) (bookings db) ->
  let db0 := set_availabilityBlocks blocks (set_calendarEvents events db) in
  let row := pendingRow uid input (nextBookingId db) in
  createPendingBooking now uid input db0 =
  (set_bookings (bookings db ++ [row]) (set_txOpened (S (txOpened db)) db0),
   Ok (toBookingResult row))
  /\ b_status row = PENDING.
Proof.
  intros E Hd Hn Hfree Hwf db0 row.
  rewrite (validated_runs_transaction _ _ _ _ E Hd Hn), transaction_outcome.
  change (bookings db0) with (bookings db).
  destruct (find (overlappingWhere input) (bookings db)) eqn:Ef;
    [ exfalso | split; reflexivity ].
  assert (Hex : exists b, find (overlappingWhere input) (bookings db) = Some b) by eauto.
  apply (find_overlapping_Some_iff input (bookings db) Hwf) in Hex; [ | lia ].
  destruct Hex as [b' [Hb [Hu [Hs Ho]]]].
  rewrite (Hfree b' Hb Hu Hs) in Ho. discriminate.
Qed.

(** *** Two requests, one after the other *)

Lemma accepted_inv (now : Z) (uid : string) (input : CreatePendingBookingInput)
  (db db' : Db) (r : BookingResult) :
  createPendingBooking now uid input db = (db', Ok r) ->
  createBookingInputSchema_parse input = Ok input
  /\ 15 * 60 * 1000 <= endTime input - startTime input <= 8 * 60 * 60 * 1000
  /\ now <= startTime input
  /\ bookings db' = bookings db ++ [pendingRow uid input (nextBookingId db)].
Proof.
  destruct (createBookingInputSchema_parse input) as [validated | e] eqn:E.
  2:{ destruct (schema_failure now uid input e db E) as [-> _]. discriminate. }
  apply parse_Ok_same in E as Hv. subst validated.
  destruct (Z.lt_ge_cases (endTime input - startTime input) (15 * 60 * 1000)) as [Hlo | Hlo].
  { unfold createPendingBooking, bind, liftResult, throw. rewrite E. cbv zeta.
    destruct (Z.ltb_spec (endTime input - startTime input) (15 * 60 * 1000));
      [ discriminate | lia ]. }
  destruct (Z.lt_ge_cases (8 * 60 * 60 * 1000) (endTime input - startTime input)) as [Hhi | Hhi].
  { unfold createPendingBooking, bind, liftResult, throw. rewrite E. cbv zeta.
    destruct (_ <? _); [ discriminate | ]. rewrite Z.gtb_ltb.
    destruct (Z.ltb_spec (8 * 60 * 60 * 1000) (endTime input - startTime input));
      [ discriminate | lia ]. }
  destruct (Z.lt_ge_cases (startTime input) now) as [Hpast | Hfut].
  { unfold createPendingBooking, bind, liftResult, throw. rewrite E. cbv zeta.
    destruct (_ <? _); [ discriminate | ].
    destruct (_ >? _); [ discriminate | ].
    destruct (Z.ltb_spec (startTime input) now); [ discriminate | lia ]. }
  rewrite (validated_runs_transaction _ _ _ _ E) by lia.
  rewrite transaction_outcome.
  destruct (find _ _); [ discriminate | ].
  intros Hok. inversion Hok; subst. simpl. repeat split; auto; lia.
Qed.

Lemma find_last {A} (p : A -> bool) (l : list A) (x : A) :
  p x = true -> find p (l ++ [x]) <> None.
Proof.
  intros Hp. induction l as [| y l IH]; simpl.
  - now rewrite Hp.
  - destruct (p y); [ discriminate | exact IH ].
Qed.

(** Run one after the other, two requests of one admin whose intervals
    half-open-overlap cannot both be inserted: once the first is in, the
    second meets it and is refused with CONFLICT. *)
Lemma serial_requests_conflict (now1 now2 : Z) (uid1 uid2 : string)
  (input1 input2 : CreatePendingBookingInput) (db db1 : Db) (r1 : BookingResult) :
  createPendingBooking now1 uid1 input1 db = (db1, Ok r1) ->
  createBookingInputSchema_parse input2 = Ok input2 ->
  15 * 60 * 1000 <= endTime input2 - startTime input2 <= 8 * 60 * 60 * 1000 ->
  now2 <= startTime input2 ->
  userId input2 = userId input1 ->
  halfOpenOverlap (startTime input2) (endTime input2) (startTime input1) (endTime input1) = true ->
  createPendingBooking now2 uid2 input2 db1
  = (set_txOpened (S (txOpened db1)) db1,
     Throw (TRPCError CONFLICT "Time slot is no longer available")).
Proof.
  intros Hfirst E2 Hd2 Hn2 Hu Ho.
  destruct (accepted_inv _ _ _ _ _ _ Hfirst) as [_ [Hd1 [_ Hrows]]].
  rewrite (validated_runs_transaction _ _ _ _ E2 Hd2 Hn2), transaction_outcome.
  destruct (find (overlappingWhere input2) (bookings db1)) eqn:Ef; [ reflexivity | ].
  exfalso. revert Ef. rewrite Hrows. apply find_last.
  unfold overlappingWhere. simpl.
  rewrite Hu, Z.eqb_refl, overlapClauses_halfOpenOverlap by lia. now rewrite Ho.
Qed.

End Guard.

(** *** The guard on concrete requests *)

Lemma overlap_query_is_half_open_overlap_witness :
  (overlapClauses (at_ 10 0) (at_ 10 30) (at_ 10 15) (at_ 10 45) = true
   <-> at_ 10 0 < at_ 10 45 /\ at_ 10 30 > at_ 10 15)
  /\ ((exists message,
         snd (createPendingBooking (H := hasAtSign) (at_ 8 0) "booking-2"
                (request (at_ 10 0) (at_ 10 30))
                (mkDb [confirmedAt (at_ 10 15) (at_ 10 45)] [] [] [] 0))
         = Throw (TRPCError CONFLICT message))
      <->
      (exists b, In b [confirmedAt (at_ 10 15) (at_ 10 45)]
                 /\ b_userId b = 7
                 /\ (b_status b = PENDING \/ b_status b = CONFIRMED)
                 /\ halfOpenOverlap (at_ 10 0) (at_ 10 30)
                      (b_startTime b) (b_endTime b) = true))
  /\ createPendingBooking (H := hasAtSign) (at_ 8 0) "booking-2"
       (request (at_ 10 0) (at_ 10 30))
       (mkDb [confirmedAt (at_ 10 15) (at_ 10 45)] [] [] [] 0)
     = (mkDb [confirmedAt (at_ 10 15) (at_ 10 45)] [] [] [] 1,
        Throw (TRPCError CONFLICT "Time slot is no longer available")).
Proof.
  split; [ | split ].
  - apply (proj1 (overlap_query_is_half_open_overlap (H := hasAtSign)));
      vm_compute; reflexivity.
  - apply (proj1 (proj2 (overlap_query_is_half_open_overlap (H := hasAtSign)))
             (at_ 8 0) "booking-2" (mkDb [confirmedAt (at_ 10 15) (at_ 10 45)] [] [] [] 0)
             (request (at_ 10 0) (at_ 10 30))).
    + reflexivity.
    + vm_compute. split; discriminate.
    + vm_compute. discriminate.
    + repeat constructor.
  - apply (proj2 (proj2 (overlap_query_is_half_open_overlap (H := hasAtSign)))
             (at_ 8 0) "booking-2" (mkDb [confirmedAt (at_ 10 15) (at_ 10 45)] [] [] [] 0)
             (request (at_ 10 0) (at_ 10 30)) monday
             (confirmedAt (at_ 10 15) (at_ 10 45)));
      try reflexivity; [ vm_compute; discriminate | simpl; auto ].
Defined.

(** The claim C6 as stated fails on a start equal to the clock reading:
    that start is not strictly in the future, yet the request opens a
    transaction and is inserted. *)
Lemma start_at_clock_reading_is_accepted :
  let input := request (at_ 10 0) (at_ 10 30) in
  let now := at_ 10 0 in
  let row := pendingRow "booking-1" input 1 in
  ~ (now < startTime input)
  /\ createPendingBooking (H := hasAtSign) now "booking-1" input emptyDb
     = (mkDb [row] [] [] [] 1, Ok (toBookingResult row))
  /\ b_status row = PENDING.
Proof.
  split; [ vm_compute; discriminate | split; reflexivity ].
Qed.

Lemma past_start_rejected_before_transaction_witness :
  exists e,
    createPendingBooking (H := hasAtSign) (at_ 10 1) "booking-1"
      (request (at_ 10 0) (at_ 10 30)) emptyDb = (emptyDb, Throw e)
    /\ isValidation e = true.
Proof.
  apply (past_start_rejected_before_transaction (H := hasAtSign)).
  vm_compute; reflexivity.
Defined.

Lemma duration_bounds_witness :
  createPendingBooking (H := hasAtSign) (at_ 8 0) "booking-1"
    (request (at_ 10 0) (at_ 10 15)) emptyDb
  = (mkDb [pendingRow "booking-1" (request (at_ 10 0) (at_ 10 15)) 1] [] [] [] 1,
     Ok (toBookingResult (pendingRow "booking-1" (request (at_ 10 0) (at_ 10 15)) 1)))
  /\ b_status (pendingRow "booking-1" (request (at_ 10 0) (at_ 10 15)) 1) = PENDING.
Proof.
  apply (proj2 (proj2 (proj2 (proj2
           (duration_bounds (H := hasAtSign) (at_ 8 0) "booking-1" emptyDb
              (request (at_ 10 0) (at_ 10 15)) eq_refl)))));
    [ left; reflexivity | vm_compute; discriminate | reflexivity ].
Defined.

(** A request over a cached busy event, for an admin with no
    availability block at all. *)
Lemma guard_ignores_calendar_and_availability_witness :
  createPendingBooking (H := hasAtSign) (at_ 8 0) "booking-1"
    (request (at_ 10 0) (at_ 10 30))
    (mkDb [] [] [] [busyAt (at_ 10 0) (at_ 11 0)] 0)
  = (mkDb [pendingRow "booking-1" (request (at_ 10 0) (at_ 10 30)) 1] [] []
       [busyAt (at_ 10 0) (at_ 11 0)] 1,
     Ok (toBookingResult (pendingRow "booking-1" (request (at_ 10 0) (at_ 10 30)) 1)))
  /\ b_status (pendingRow "booking-1" (request (at_ 10 0) (at_ 10 30)) 1) = PENDING.
Proof.
  apply (guard_ignores_calendar_and_availability (H := hasAtSign) (at_ 8 0) "booking-1"
           emptyDb (request (at_ 10 0) (at_ 10 30)) [busyAt (at_ 10 0) (at_ 11 0)] []).
  - reflexivity.
  - vm_compute. split; discriminate.
  - vm_compute. discriminate.
  - simpl. intros b [].
  - constructor.
Defined.

End BookingGuard.

(** ** The slot computation engine *)

Module SlotComputation.
Import Store MinimalAvailabilityService.

(** *** The comparator sort *)

Lemma insertSorted_In {A} (compare : A -> A -> Z) (x y : A) (l : list A) :
  In y (insertSorted compare x l) <-> y = x \/ In y l.
Proof.
  induction l as [| z l IH]; simpl.
  - intuition.
  - destruct (compare x z <=? 0); simpl; rewrite ?IH; intuition.
Qed.

Lemma sortWith_In {A} (compare : A -> A -> Z) (y : A) (l : list A) :
  In y (sortWith compare l) <-> In y l.
Proof.
  induction l as [| x l IH]; simpl; [ tauto | ].
  rewrite insertSorted_In, IH. intuition.
Qed.

Lemma insertSorted_sorted (x : TimeSlot) (l : list TimeSlot) :
  StronglySorted byStart l -> StronglySorted byStart (insertSorted compareStart x l).
Proof.
  induction l as [| y l IH]; intros Hs; simpl.
  - repeat constructor.
  - inversion Hs as [| ? ? Hl Hy]; subst. unfold compareStart at 1.
    destruct (Z.leb_spec (startTime x - startTime y) 0).
    + constructor; [ exact Hs | ].
      constructor; [ unfold byStart; lia | ].
      rewrite Forall_forall in *. intros z Hz. specialize (Hy z Hz).
      unfold byStart in *. lia.
    + constructor; [ now apply IH | ].
      rewrite Forall_forall in *. intros z Hz.
      apply insertSorted_In in Hz. destruct Hz as [-> | Hz].
      * unfold byStart. lia.
      * now apply Hy.
Qed.

Lemma sortWith_sorted (l : list TimeSlot) :
  StronglySorted byStart (sortWith compareStart l).
Proof.
  induction l as [| x l IH]; simpl; [ constructor | now apply insertSorted_sorted ].
Qed.

Section Engine.
Context `{LocalDate} `{DateFnsTz}.

(** *** Where the generated slots lie *)

Lemma slotLoop_never_ends (fuel : nat) (tz : string) (dur maxEnd start : Z) :
  dur <= 0 -> start + dur <= maxEnd -> slotLoop fuel tz dur maxEnd start = None.
Proof.
  revert start. induction fuel as [| fuel IH]; intros start Hd Hc; simpl; [ reflexivity | ].
  destruct (Z.leb_spec (start + dur) maxEnd); [ | lia ].
  rewrite IH by lia. reflexivity.
Qed.

Lemma slotLoop_within (fuel : nat) (tz : string) (dur maxEnd start : Z) (l : list TimeSlot) :
  slotLoop fuel tz dur maxEnd start = Some l -> Forall (within start maxEnd) l.
Proof.
  revert start l. induction fuel as [| fuel IH]; intros start l; simpl; [ discriminate | ].
  destruct (Z.leb_spec (start + dur) maxEnd) as [Hc | Hc].
  - destruct (slotLoop fuel tz dur maxEnd (start + dur)) as [slots |] eqn:Er; [ | discriminate ].
    intros E. inversion E; subst; clear E.
    destruct (Z.le_gt_cases dur 0) as [Hd | Hd].
    + destruct fuel as [| fuel']; [ discriminate | ].
      simpl in Er. destruct (Z.leb_spec (start + dur + dur) maxEnd); [ | lia ].
      rewrite slotLoop_never_ends in Er by lia. discriminate.
    + constructor; [ unfold within; simpl; lia | ].
      apply IH in Er. rewrite Forall_forall in *. intros s Hs.
      specialize (Er s Hs). unfold within in *. lia.
  - intros E. inversion E. constructor.
Qed.

Lemma daySlots_within (fuel : nat) (block : AvailabilityBlock)
  (startDate endDate : Z) (tz : string) (dur current : Z) (l : list TimeSlot) :
  daySlots fuel block startDate endDate tz dur current = Some l ->
  Forall (within startDate endDate) l.
Proof.
  unfold daySlots. intros E. apply slotLoop_within in E.
  rewrite Forall_forall in *. intros s Hs. specialize (E s Hs).
  unfold within in *. lia.
Qed.

Lemma dayLoop_within (fuel fuel0 : nat) (block : AvailabilityBlock)
  (startDate endDate : Z) (tz : string) (dur current : Z) (l : list TimeSlot) :
  dayLoop fuel fuel0 block startDate endDate tz dur current = Some l ->
  Forall (within startDate endDate) l.
Proof.
  revert current l. induction fuel as [| fuel IH]; intros current l; simpl; [ discriminate | ].
  destruct (current <=? endDate); [ | intros E; inversion E; constructor ].
  destruct (if getDay current =? ab_dayOfWeek block then _ else _) as [today |] eqn:Et;
    [ | discriminate ].
  destruct (dayLoop fuel _ _ _ _ _ _ _) as [later |] eqn:El; [ | discriminate ].
  intros E. inversion E; subst; clear E. apply Forall_app. split.
  - destruct (getDay current =? ab_dayOfWeek block).
    + now apply daySlots_within in Et.
    + inversion Et. constructor.
  - now apply IH in El.
Qed.

Lemma allSlotsOf_within (fuel : nat) (blocks : list AvailabilityBlock)
  (startDate endDate : Z) (tz : string) (minutes : Z) (l : list TimeSlot) :
  allSlotsOf fuel blocks startDate endDate tz minutes = Some l ->
  Forall (within startDate endDate) l.
Proof.
  revert l. induction blocks as [| block blocks IH]; intros l; simpl.
  - intros E. inversion E. constructor.
  - destruct (generateSlotsFromBlock _ _ _ _ _ _) as [slots |] eqn:Eg; [ | discriminate ].
    destruct (allSlotsOf _ _ _ _ _ _) as [more |] eqn:Em; [ | discriminate ].
    intros E. inversion E; subst; clear E. apply Forall_app. split.
    + unfold generateSlotsFromBlock in Eg. now apply dayLoop_within in Eg.
    + now apply IH.
Qed.

(** *** Enough fuel ends the loops *)




(** *** The answer does not depend on the fuel *)





(** *** What survives the filter *)

Lemma overlap_inside_range (lo hi : Z) (slot : TimeSlot) (start stop : Z) :
  within lo hi slot ->
  slotsOverlap (spanOfSlot slot) (mkSpan start stop) = true ->
  (start <=? hi) && (stop >=? lo) = true.
Proof.
  unfold within, slotsOverlap. simpl. intros [Hlo Hhi].
  rewrite !andb_true_iff, Z.ltb_lt, Z.gtb_ltb, Z.ltb_lt, Z.leb_le, Z.geb_leb, Z.leb_le. lia.
Qed.

Lemma available_slot (fuel : nat) (db : Db) (input : CalculateAvailableSlotsInput)
  (slots : list TimeSlot) (slot : TimeSlot) :
  calculateAvailableSlots fuel db input = Some slots -> In slot slots ->
  within (startDate input) (endDate input) slot
  /\ (forall event,
        In event (getCalendarEvents db (userId input) (startDate input) (endDate input)) ->
        slotsOverlap (spanOfSlot slot) event = false)
  /\ (forall b, In b (bookings db) ->
        (b_userId b =? userId input) && statusIn [PENDING; CONFIRMED] (b_status b)
        && ((b_startTime b <=? endDate input) && (b_endTime b >=? startDate input)) = true ->
        slotsOverlap (spanOfSlot slot) (mkSpan (b_startTime b) (b_endTime b)) = false).
Proof.
  unfold calculateAvailableSlots.
  destruct (filter _ (availabilityBlocks db)) as [| block blocks].
  { intros E. inversion E. intros []. }
  destruct (allSlotsOf _ _ _ _ _ _) as [allSlots |] eqn:Ea; [ | discriminate ].
  intros E Hin. inversion E; subst; clear E.
  apply sortWith_In, filter_In in Hin. destruct Hin as [Hall Hkeep].
  apply allSlotsOf_within in Ea. rewrite Forall_forall in Ea.
  split; [ now apply Ea | ].
  destruct (existsb _ (getCalendarEvents _ _ _ _)) eqn:Ec; [ discriminate | ].
  apply negb_true_iff in Hkeep.
  split.
  - intros event Hev.
    destruct (slotsOverlap (spanOfSlot slot) event) eqn:Eo; [ | reflexivity ].
    assert (Ht : existsb (fun event => slotsOverlap (spanOfSlot slot) event)
                   (getCalendarEvents db (userId input) (startDate input) (endDate input))
                 = true) by (apply existsb_exists; eauto).
    congruence.
  - intros b Hb Hw.
    destruct (slotsOverlap _ _) eqn:Eo; [ | reflexivity ].
    rewrite <- Hkeep. symmetry. apply existsb_exists. exists b. split; [ | exact Eo ].
    apply filter_In. split; assumption.
Qed.


End Engine.

(** *** The engine on the Monday calendar *)


(** The concrete scenario of the specification: slots at 09:00, 09:30,
    then 10:30, 11:00, ..., 16:30 (minutes after midnight). *)
Example monday_slots :
  option_map (map (fun s => (startTime s - Examples.monday) / 60000))
    (calculateAvailableSlots (H := utcDate) (H0 := utcTz) 40
       (Examples.mondayDb "active") Examples.wholeMonday)
  = Some [540; 570; 630; 660; 690; 720; 750; 780; 810; 840; 870; 900; 930; 960; 990].
Proof. vm_compute. reflexivity. Qed.



End SlotComputation.

(** ** The calendar sync engine *)

Module SyncEngine.
Import Store Async Exn CalendarSyncService.

(** *** Key-preserving changes of the cache *)

Lemma keysExtend_refl (l : list CalendarEvent) : keysExtend l l.
Proof. exists []. now rewrite app_nil_r. Qed.

Lemma keysExtend_trans (l1 l2 l3 : list CalendarEvent) :
  keysExtend l1 l2 -> keysExtend l2 l3 -> keysExtend l1 l3.
Proof.
  intros [a1 E1] [a2 E2]. exists (a1 ++ a2). now rewrite E2, E1, app_assoc.
Qed.

(** A key that was cached is still cached. *)
Lemma keysExtend_In (l l' : list CalendarEvent) (e : CalendarEvent) :
  keysExtend l l' -> In e l -> exists e', In e' l' /\ keyOf e' = keyOf e.
Proof.
  intros [added E] He.
  assert (Hk : In (keyOf e) (map keyOf l')).
  { rewrite E. apply in_or_app. left. now apply in_map. }
  apply in_map_iff in Hk. destruct Hk as [e' [Hk He']]. now exists e'.
Qed.

Lemma keysExtend_length (l l' : list CalendarEvent) :
  keysExtend l l' -> (List.length l <= List.length l')%nat.
Proof.
  intros [added E]. apply (f_equal (@List.length _)) in E.
  rewrite length_app, !length_map in E. lia.
Qed.

Lemma eventsOnly_refl (db : Db) : eventsOnly db db.
Proof. now destruct db. Qed.

Lemma eventsOnly_trans (db1 db2 db3 : Db) :
  eventsOnly db1 db2 -> eventsOnly db2 db3 -> eventsOnly db1 db3.
Proof. unfold eventsOnly. intros E1 E2. rewrite E2, E1 at 1. reflexivity. Qed.

Lemma upsert_keys (integrationId externalEventId : string)
  (update : CalendarEvent -> CalendarEvent) (l : list CalendarEvent) :
  (forall e, keyOf (update e) = keyOf e) ->
  map keyOf (map (fun e => if sameKey integrationId externalEventId e then update e else e) l)
  = map keyOf l.
Proof.
  intros Hk. rewrite map_map. apply map_ext. intros e.
  destruct (sameKey _ _ e); [ apply Hk | reflexivity ].
Qed.

Lemma upsert_other_rows (integrationId externalEventId : string)
  (update : CalendarEvent -> CalendarEvent) (l : list CalendarEvent) (e : CalendarEvent) :
  In e l -> sameKey integrationId externalEventId e = false ->
  In e (map (fun e => if sameKey integrationId externalEventId e then update e else e) l).
Proof.
  intros He Hs. apply in_map_iff. exists e. now rewrite Hs.
Qed.

Section Engine.
Context `{GoogleCalendar} `{DateParse} `{DateFns}.

(** One upsert: the event table alone changes, keys stay, and rows
    under another key stay as they are. *)
Lemma upsertEvent_stable (now : Z) (integrationId : string) (event : GoogleCalendarEvent)
  (startDateTime : string) (db : Db) :
  let db' := fst (upsertEvent now integrationId event startDateTime db) in
  eventsOnly db db'
  /\ keysExtend (calendarEvents db) (calendarEvents db')
  /\ (forall e, In e (calendarEvents db) ->
                sameKey integrationId (id event) e = false -> In e (calendarEvents db')).
Proof.
  unfold upsertEvent, bind, storableDate, calendarEvent_upsert, modify, ret, throw.
  destruct (newDate startDateTime) as [start |];
    [ | simpl; auto using eventsOnly_refl, keysExtend_refl ].
  destruct (if Js.truthy (end_dateTime event) then _ else _) as [stop |];
    [ | simpl; auto using eventsOnly_refl, keysExtend_refl ].
  simpl. destruct (existsb _ (calendarEvents db)); simpl.
  - split; [ now destruct db | ]. split.
    + exists []. rewrite app_nil_r. now apply upsert_keys.
    + intros e He Hs. now apply upsert_other_rows.
  - split; [ now destruct db | ]. split.
    + eexists. now rewrite map_app.
    + intros e He _. apply in_or_app. now left.
Qed.

Lemma processLoop_stable (now : Z) (integrationId : string)
  (events : list GoogleCalendarEvent) (count : Z) (db : Db) :
  let db' := fst (processLoop now integrationId events count db) in
  eventsOnly db db'
  /\ keysExtend (calendarEvents db) (calendarEvents db')
  /\ (forall e, In e (calendarEvents db) ->
                (forall event, In event events -> processed event = true ->
                               sameKey integrationId (id event) e = false) ->
                In e (calendarEvents db')).
Proof.
  revert count db. induction events as [| event rest IH]; intros count db.
  - simpl. auto using eventsOnly_refl, keysExtend_refl.
  - cbn [processLoop]. cbv zeta.
    assert (Hrest : forall count,
              eventsOnly db (fst (processLoop now integrationId rest count db))
              /\ keysExtend (calendarEvents db)
                   (calendarEvents (fst (processLoop now integrationId rest count db)))
              /\ (forall e, In e (calendarEvents db) ->
                    (forall ev, In ev (event :: rest) -> processed ev = true ->
                                sameKey integrationId (id ev) e = false) ->
                    In e (calendarEvents (fst (processLoop now integrationId rest count db))))).
    { intros c. destruct (IH c db) as [H2 [H3 H4]]. repeat split; auto.
      intros e He Hfree. apply H4; [ exact He | ]. intros ev Hev. apply Hfree. now right. }
    destruct (negb (Js.truthy (Some (id event))) || negb (Js.truthy (start_dateTime event)))
      eqn:Eskip; [ apply Hrest | ].
    destruct (start_dateTime event) as [startDateTime |] eqn:Es; [ | apply Hrest ].
    assert (Hp : processed event = true).
    { unfold processed. rewrite Es. apply orb_false_iff in Eskip.
      destruct Eskip as [E1 E2]. apply negb_false_iff in E1, E2. now rewrite E1, E2. }
    unfold bind.
    pose proof (upsertEvent_stable now integrationId event startDateTime db) as Hu.
    destruct (upsertEvent now integrationId event startDateTime db) as [db1 [[] | e1]];
      simpl in Hu; destruct Hu as [U1 [U2 U3]].
    + destruct (IH (count + 1) db1) as [H2 [H3 H4]]. split; [ | split ].
      * eapply eventsOnly_trans; eauto.
      * eapply keysExtend_trans; eauto.
      * intros e He Hfree. apply H4.
        -- apply U3; [ exact He | ]. apply Hfree; [ now left | exact Hp ].
        -- intros ev Hev. apply Hfree. now right.
    + simpl. repeat split; auto.
Qed.

Lemma processSyncEvents_stable (now : Z) (integrationId : string)
  (events : list GoogleCalendarEvent) (db : Db) :
  let db' := fst (processSyncEvents now integrationId events db) in
  eventsOnly db db' /\ keysExtend (calendarEvents db) (calendarEvents db').
Proof.
  destruct (processLoop_stable now integrationId events 0 db) as [H2 [H3 _]]. now split.
Qed.

(** Events without an id or without a start date-time leave no trace. *)
Lemma processLoop_skips (now : Z) (integrationId : string)
  (events : list GoogleCalendarEvent) (count : Z) (db : Db) :
  (forall event, In event events -> processed event = false) ->
  processLoop now integrationId events count db = (db, Ok count).
Proof.
  revert count. induction events as [| event rest IH]; intros count Hs; [ reflexivity | ].
  cbn [processLoop].
  assert (Hp : processed event = false) by (apply Hs; now left).
  unfold processed in Hp. apply andb_false_iff in Hp.
  replace (negb (Js.truthy (Some (id event))) || negb (Js.truthy (start_dateTime event)))
    with true by (destruct Hp as [-> | ->]; simpl; auto using orb_true_r).
  apply IH. intros ev Hev. apply Hs. now right.
Qed.

(** *** The two syncs, case by case *)

Lemma integration_exists (integrationId : string) (db : Db) (ci : CalendarIntegration) :
  integrationOf integrationId db = Some ci ->
  existsb (fun ci => (ci_id ci =? integrationId)%string) (calendarIntegrations db) = true.
Proof.
  unfold integrationOf. intros Ef. apply find_some in Ef.
  apply existsb_exists. now exists ci.
Qed.


Lemma integrationOf_eventsOnly (integrationId : string) (db db' : Db) :
  eventsOnly db db' -> integrationOf integrationId db' = integrationOf integrationId db.
Proof. unfold eventsOnly. intros ->. reflexivity. Qed.

Lemma recordFailure_found (now : Z) (integrationId : string) (error : Thrown)
  (db : Db) (ci : CalendarIntegration) :
  integrationOf integrationId db = Some ci ->
  recordFailure now integrationId error db
  = (updateById integrationId (syncFailed (messageOf error)) db,
     Ok (mkSyncResult 0 None now true (Some (messageOf error)))).
Proof.
  intros Ef. unfold recordFailure, bind, calendarIntegration_update.
  now rewrite (integration_exists _ _ _ Ef).
Qed.

Lemma recordFailure_missing (now : Z) (integrationId : string) (error : Thrown) (db : Db) :
  integrationOf integrationId db = None ->
  recordFailure now integrationId error db = (db, Throw recordNotFound).
Proof.
  intros Ef. unfold recordFailure, bind, calendarIntegration_update.
  replace (existsb _ (calendarIntegrations db)) with false; [ reflexivity | ].
  symmetry. apply not_true_is_false. intros Hex. apply existsb_exists in Hex.
  destruct Hex as [ci [Hin Hp]]. apply (find_none _ _ Ef) in Hin. congruence.
Qed.

Lemma performFullSync_found (now : Z) (integrationId : string) (db : Db)
  (ci : CalendarIntegration) :
  integrationOf integrationId db = Some ci ->
  performFullSync now integrationId db
  = match listEvents (ci_calendarId ci) (fullWindow now) with
    | Ok listed => afterListing now integrationId listed db
    | Throw error =>
      (updateById integrationId (syncFailed (messageOf error)) db,
       Ok (mkSyncResult 0 None now true (Some (messageOf error))))
    end.
Proof.
  intros Ef. unfold performFullSync, try_catch, bind, calendarIntegration_findUnique, gets.
  fold (integrationOf integrationId db). rewrite Ef. unfold liftResult.
  destruct (listEvents _ _) as [listed | error].
  2:{ now rewrite (recordFailure_found _ _ _ _ _ Ef). }
  unfold afterListing.
  pose proof (processSyncEvents_stable now integrationId (events listed) db) as [Hst _].
  destruct (processSyncEvents now integrationId (events listed) db) as [db1 [n | error]];
    simpl in Hst.
  - unfold calendarIntegration_update.
    rewrite (integration_exists integrationId db1 ci)
      by now rewrite (integrationOf_eventsOnly _ _ _ Hst).
    reflexivity.
  - apply recordFailure_found with (ci := ci).
    now rewrite (integrationOf_eventsOnly _ _ _ Hst).
Qed.

Lemma performFullSync_missing (now : Z) (integrationId : string) (db : Db) :
  integrationOf integrationId db = None ->
  performFullSync now integrationId db = (db, Throw recordNotFound).
Proof.
  intros Ef. unfold performFullSync, try_catch, bind, calendarIntegration_findUnique, gets.
  fold (integrationOf integrationId db). rewrite Ef. simpl.
  now apply recordFailure_missing.
Qed.

Lemma performIncrementalSync_missing (now : Z) (integrationId : string) (db : Db) :
  integrationOf integrationId db = None ->
  performIncrementalSync now integrationId db = (db, Throw recordNotFound).
Proof.
  intros Ef. unfold performIncrementalSync, try_catch, bind, calendarIntegration_findUnique, gets.
  fold (integrationOf integrationId db). rewrite Ef. simpl.
  now rewrite (recordFailure_missing _ _ _ _ Ef).
Qed.

(** Without a stored token the incremental sync is the full sync. *)
Lemma performIncrementalSync_no_token (now : Z) (integrationId : string) (db : Db)
  (ci : CalendarIntegration) :
  integrationOf integrationId db = Some ci ->
  Js.truthy (ci_syncToken ci) = false ->
  performIncrementalSync now integrationId db = performFullSync now integrationId db.
Proof.
  intros Ef Ht. unfold performIncrementalSync at 1.
  unfold try_catch, bind at 1 2, calendarIntegration_findUnique, gets.
  fold (integrationOf integrationId db). rewrite Ef, Ht. reflexivity.
Qed.

Lemma performIncrementalSync_token (now : Z) (integrationId : string) (db : Db)
  (ci : CalendarIntegration) (syncToken : string) :
  integrationOf integrationId db = Some ci ->
  ci_syncToken ci = Some syncToken -> syncToken <> "" ->
  performIncrementalSync now integrationId db
  = match listEvents (ci_calendarId ci) (BySyncToken syncToken) with
    | Ok listed => afterListing now integrationId listed db
    | Throw error =>
      (updateById integrationId (syncFailed (messageOf error)) db,
       Ok (mkSyncResult 0 None now true (Some (messageOf error))))
    end.
Proof.
  intros Ef Et Hne.
  assert (Htruthy : Js.truthy (ci_syncToken ci) = true).
  { rewrite Et. simpl. now apply negb_true_iff, String.eqb_neq. }
  unfold performIncrementalSync, try_catch, bind, calendarIntegration_findUnique, gets.
  fold (integrationOf integrationId db). rewrite Ef, Htruthy, Et. unfold liftResult.
  change (negb true) with false. cbv beta iota.
  destruct (listEvents _ _) as [listed | error].
  2:{ now rewrite (recordFailure_found _ _ _ _ _ Ef). }
  unfold afterListing.
  pose proof (processSyncEvents_stable now integrationId (events listed) db) as [Hst _].
  destruct (processSyncEvents now integrationId (events listed) db) as [db1 [n | error]];
    simpl in Hst.
  - unfold calendarIntegration_update.
    rewrite (integration_exists integrationId db1 ci)
      by now rewrite (integrationOf_eventsOnly _ _ _ Hst).
    reflexivity.
  - rewrite (recordFailure_found now integrationId error db1 ci)
      by now rewrite (integrationOf_eventsOnly _ _ _ Hst).
    reflexivity.
Qed.

(** Both syncs, for an integration that exists, against the listing
    each of them asks for. *)
Lemma sync_found (sync : Z -> string -> M Thrown SyncResult) (request : ListOptions)
  (now : Z) (integrationId : string) (db : Db) (ci : CalendarIntegration) :
  integrationOf integrationId db = Some ci ->
  (sync = performFullSync /\ request = fullWindow now)
  \/ (sync = performIncrementalSync /\ request = incrementalRequest now ci) ->
  sync now integrationId db
  = match listEvents (ci_calendarId ci) request with
    | Ok listed => afterListing now integrationId listed db
    | Throw error =>
      (updateById integrationId (syncFailed (messageOf error)) db,
       Ok (mkSyncResult 0 None now true (Some (messageOf error))))
    end.
Proof.
  intros Ef [[-> ->] | [-> ->]]; [ now apply performFullSync_found | ].
  unfold incrementalRequest.
  destruct (ci_syncToken ci) as [syncToken |] eqn:Et.
  - destruct (Js.truthy (Some syncToken)) eqn:Ht.
    + apply performIncrementalSync_token; [ exact Ef | exact Et | ].
      simpl in Ht. now apply String.eqb_neq, negb_true_iff.
    + rewrite (performIncrementalSync_no_token _ _ _ _ Ef) by now rewrite Et.
      now apply performFullSync_found.
  - rewrite (performIncrementalSync_no_token _ _ _ _ Ef) by now rewrite Et.
    now apply performFullSync_found.
Qed.

Lemma afterListing_events (now : Z) (integrationId : string) (listed : SyncEventsResult)
  (db : Db) :
  calendarEvents (fst (afterListing now integrationId listed db))
  = calendarEvents (fst (processSyncEvents now integrationId (events listed) db)).
Proof.
  unfold afterListing.
  destruct (processSyncEvents now integrationId (events listed) db) as [db1 [n | error]];
    reflexivity.
Qed.


(** C5, against the code.  Without a stored token the incremental sync
    is the full sync.  With a stored token that the provider refuses,
    the refusal is recorded as a failed sync and nothing else happens:
    the window listing of the full sync is never asked for, the cache
    and the refused token stay as they were. *)
Theorem rejected_token_is_recorded_not_retried
  (now : Z) (integrationId : string) (db : Db) (ci : CalendarIntegration) :
  integrationOf integrationId db = Some ci ->
  (Js.truthy (ci_syncToken ci) = false ->
     performIncrementalSync now integrationId db = performFullSync now integrationId db)
  /\ (forall syncToken error,
        ci_syncToken ci = Some syncToken -> syncToken <> "" ->
        listEvents (ci_calendarId ci) (BySyncToken syncToken) = Throw error ->
        performIncrementalSync now integrationId db
        = (updateById integrationId (syncFailed (messageOf error)) db,
           Ok (mkSyncResult 0 None now true (Some (messageOf error))))).
Proof.
  intros Ef. split.
  - now apply performIncrementalSync_no_token.
  - intros syncToken error Et Hne Hl.
    rewrite (performIncrementalSync_token _ _ _ _ _ Ef Et Hne), Hl. reflexivity.
Qed.

Lemma sync_keysExtend (sync : Z -> string -> M Thrown SyncResult)
  (now : Z) (integrationId : string) (db : Db) :
  sync = performFullSync \/ sync = performIncrementalSync ->
  keysExtend (calendarEvents db) (calendarEvents (fst (sync now integrationId db))).
Proof.
  intros Hsync.
  destruct (integrationOf integrationId db) as [ci |] eqn:Ef.
  - assert (Hreq : exists request,
              (sync = performFullSync /\ request = fullWindow now)
              \/ (sync = performIncrementalSync /\ request = incrementalRequest now ci))
      by (destruct Hsync; eauto).
    destruct Hreq as [request Hreq].
    rewrite (sync_found sync request now integrationId db ci Ef Hreq).
    destruct (listEvents _ _) as [listed | error]; [ | apply keysExtend_refl ].
    rewrite afterListing_events. apply processSyncEvents_stable.
  - destruct Hsync as [-> | ->].
    + rewrite (performFullSync_missing _ _ _ Ef). apply keysExtend_refl.
    + rewrite (performIncrementalSync_missing _ _ _ Ef). apply keysExtend_refl.
Qed.

(** C10: a sync never deletes from the cache.  Every cached key is
    still cached after either sync, whatever the provider answers; a
    cached row whose key is carried by none of the listed events that
    the loop processes is still there unchanged, and the loop skips the
    events without id or start date-time; so an event that vanished
    upstream stays until [cleanupOldEvents], which removes exactly the
    rows starting before the 90-day cutoff. *)
Theorem sync_never_deletes :
  (forall sync now integrationId db,
     sync = performFullSync \/ sync = performIncrementalSync ->
     let after := calendarEvents (fst (sync now integrationId db)) in
     keysExtend (calendarEvents db) after
     /\ (forall e, In e (calendarEvents db) -> exists e', In e' after /\ keyOf e' = keyOf e)
     /\ (List.length (calendarEvents db) <= List.length after)%nat)
  /\ (forall sync request now integrationId db ci e,
        integrationOf integrationId db = Some ci ->
        (sync = performFullSync /\ request = fullWindow now)
        \/ (sync = performIncrementalSync /\ request = incrementalRequest now ci) ->
        In e (calendarEvents db) ->
        (forall listed event,
           listEvents (ci_calendarId ci) request = Ok listed ->
           In event (events listed) -> processed event = true ->
           sameKey integrationId (id event) e = false) ->
        In e (calendarEvents (fst (sync now integrationId db))))
  /\ (forall now integrationId events db,
        (forall event, In event events -> processed event = false) ->
        processSyncEvents now integrationId events db = (db, Ok 0))
  /\ (forall now integrationId db e,
        (In e (calendarEvents (fst (cleanupOldEvents now integrationId db)))
         <-> In e (calendarEvents db) /\ cleanupWhere now integrationId e = false)
        /\ (cleanupWhere now None e = true <-> ce_startTime e < subDays now 90)).
Proof.
  split; [ | split; [ | split ] ].
  - intros sync now integrationId db Hsync after.
    pose proof (sync_keysExtend sync now integrationId db Hsync) as Hk.
    split; [ exact Hk | ]. split.
    + intros e He. now apply (keysExtend_In _ _ _ Hk).
    + now apply keysExtend_length.
  - intros sync request now integrationId db ci e Ef Hsync He Hfree.
    rewrite (sync_found sync request now integrationId db ci Ef Hsync).
    destruct (listEvents (ci_calendarId ci) request) as [listed | error] eqn:El;
      [ | exact He ].
    rewrite afterListing_events.
    apply (processLoop_stable now integrationId (events listed) 0 db); [ exact He | ].
    intros event Hev Hp. now apply (Hfree listed).
  - intros now integrationId events db Hs. now apply processLoop_skips.
  - intros now integrationId db e. split.
    + unfold cleanupOldEvents. simpl. rewrite filter_In, negb_true_iff. tauto.
    + unfold cleanupWhere. simpl. apply Z.ltb_lt.
Qed.

End Engine.

(** *** The engine on the Monday calendar *)

Section Monday.
Import Examples.

#[local] Existing Instance isoParse.
#[local] Existing Instance utcSubDays.



(** The failing input of C5: the provider refuses "token-1".  The
    incremental sync ends in status "error" with the token kept ... *)
Lemma rejected_token_is_recorded_not_retried_witness :
  performIncrementalSync (H := providerRejectingToken) (at_ 8 0) "integration-1"
    (mondayDb "active")
  = (updateById "integration-1"
       (syncFailed "Sync token is no longer valid, a full sync is required.")
       (mondayDb "active"),
     Ok (mkSyncResult 0 None (at_ 8 0) true
           (Some "Sync token is no longer valid, a full sync is required."))).
Proof.
  apply (proj2 (rejected_token_is_recorded_not_retried (H := providerRejectingToken)
                  (at_ 8 0) "integration-1" (mondayDb "active")
                  (integration (Some "token-1") "active") eq_refl)
           "token-1"
           (JsError "Sync token is no longer valid, a full sync is required."));
    [ reflexivity | discriminate | reflexivity ].
Defined.

(** ... where the full sync, on the same store and provider, succeeds:
    status "active", the new token stored, event-1 refreshed. *)
Example full_sync_would_have_succeeded :
  let run := performFullSync (H := providerRejectingToken) (at_ 8 0) "integration-1"
               (mondayDb "active") in
  option_map (fun ci => (ci_syncStatus ci, ci_syncToken ci))
    (integrationOf "integration-1" (fst run)) = Some ("active", Some "token-2")
  /\ option_map (fun ci => (ci_syncStatus ci, ci_syncToken ci))
       (integrationOf "integration-1"
          (fst (performIncrementalSync (H := providerRejectingToken) (at_ 8 0)
                  "integration-1" (mondayDb "active"))))
     = Some ("error", Some "token-1").
Proof. split; vm_compute; reflexivity. Qed.

Lemma sync_never_deletes_witness :
  keysExtend (calendarEvents (mondayDb "active"))
    (calendarEvents
       (fst (performIncrementalSync (H := providerWithBadDate) (at_ 8 0) "integration-1"
               (mondayDb "active")))).
Proof.
  apply (proj1 (sync_never_deletes (H := providerWithBadDate))
           performIncrementalSync (at_ 8 0) "integration-1" (mondayDb "active")).
  right. reflexivity.
Defined.

End Monday.

End SyncEngine.

(** ** The credential vault *)

Module CredentialVault.
Import Store Async Exn CalendarAuthService.
Import CalendarSyncService (integrationOf, updateById).

Section Vault.
Context `{Crypto} `{GoogleOAuth}.





End Vault.

(** *** The vault on the Monday calendar

    At 08:00 the stored credential is good until 08:02. *)

Section Monday.
Import Examples.



(** After the call the credential is good until 09:00 and the refresh
    token column is what it was. *)
Example refreshed_on_monday :
  option_map (fun ci => (ci_tokenExpiresAt ci, ci_refreshToken ci))
    (integrationOf "integration-1"
       (fst (ensureValidToken (H := toyCrypto) (H0 := refreshWithoutRefreshToken)
               (at_ 8 0) (at_ 8 0) "integration-1" (mondayDb "active"))))
  = Some (Some (at_ 9 0), Some "sealed-refresh").
Proof. vm_compute. reflexivity. Qed.

End Monday.

End CredentialVault.

(** ** Approval, rejection and listing of bookings *)

Module BookingAdminFacts.
Import Store Async MinimalBookingService BookingAdmin.

Lemma BookingStatus_eqb_eq (a b : BookingStatus) : BookingStatus_eqb a b = true <-> a = b.
Proof. destruct a, b; simpl; split; intros; congruence. Qed.

Lemma pendingWhere_true (bookingId : string) (userId : Z) (b : Booking) :
  pendingWhere bookingId userId b = true
  <-> b_uid b = bookingId /\ b_userId b = userId /\ b_status b = PENDING.
Proof.
  unfold pendingWhere.
  rewrite !andb_true_iff, String.eqb_eq, Z.eqb_eq, BookingStatus_eqb_eq. tauto.
Qed.

(** Rows are told apart by a column without repetitions. *)
Lemma NoDup_map_inj {A B} (f : A -> B) (l : list A) (x y : A) :
  NoDup (map f l) -> In x l -> In y l -> f x = f y -> x = y.
Proof.
  induction l as [| z l IH]; simpl; intros Hnd Hx Hy E; [ contradiction | ].
  inversion Hnd as [| ? ? Hz Hl]; subst.
  destruct Hx as [-> | Hx], Hy as [-> | Hy]; auto.
  - exfalso. apply Hz. rewrite E. now apply in_map.
  - exfalso. apply Hz. rewrite <- E. now apply in_map.
Qed.

Lemma find_the_pending (bookingId : string) (userId : Z) (l : list Booking) (row : Booking) :
  NoDup (map b_uid l) -> In row l -> pendingWhere bookingId userId row = true ->
  find (pendingWhere bookingId userId) l = Some row.
Proof.
  intros Hnd Hin Hp.
  destruct (find (pendingWhere bookingId userId) l) as [row' |] eqn:Ef.
  - apply find_some in Ef. destruct Ef as [Hin' Hp'].
    f_equal. apply (NoDup_map_inj b_uid l); auto.
    apply pendingWhere_true in Hp, Hp'. destruct Hp as [-> _], Hp' as [-> _]. reflexivity.
  - apply (find_none _ _ Ef) in Hin. congruence.
Qed.

Lemma find_by_id (l : list Booking) (row : Booking) :
  NoDup (map b_id l) -> In row l -> find (fun b => b_id b =? b_id row) l = Some row.
Proof.
  intros Hnd Hin.
  destruct (find (fun b => b_id b =? b_id row) l) as [row' |] eqn:Ef.
  - apply find_some in Ef. destruct Ef as [Hin' Hp'].
    f_equal. apply (NoDup_map_inj b_id l); auto. now apply Z.eqb_eq.
  - apply (find_none _ _ Ef) in Hin. now rewrite Z.eqb_refl in Hin.
Qed.

(** With unique ids an update by id rewrites one row, in place. *)
Lemma update_in_place (data : Booking -> Booking) (l : list Booking) (row : Booking) :
  NoDup (map b_id l) -> In row l ->
  exists before after,
    l = before ++ row :: after
    /\ map (fun b => if b_id b =? b_id row then data b else b) l
       = before ++ data row :: after.
Proof.
  intros Hnd Hin. apply in_split in Hin. destruct Hin as [before [after ->]].
  exists before, after. split; [ reflexivity | ].
  rewrite map_app. simpl. rewrite Z.eqb_refl.
  rewrite map_app in Hnd. simpl in Hnd.
  apply NoDup_remove_2 in Hnd.
  assert (Hother : forall l', ~ In (b_id row) (map b_id l') ->
            map (fun b => if b_id b =? b_id row then data b else b) l' = l').
  { induction l' as [| z l' IH]; simpl; intros Hn; [ reflexivity | ].
    destruct (Z.eqb_spec (b_id z) (b_id row)); [ exfalso; apply Hn; now left | ].
    rewrite IH; [ reflexivity | ]. intros Hin. apply Hn. now right. }
  rewrite !Hother; [ reflexivity | | ]; intros Hin; apply Hnd, in_or_app; auto.
Qed.

Lemma transition_not_pending (bookingId : string) (userId : Z) (db : Db)
  (calendarEventId videoLink reason : option string) :
  find (pendingWhere bookingId userId) (bookings db) = None ->
  approveBooking bookingId userId calendarEventId videoLink db = (db, Throw pendingNotFound)
  /\ rejectBooking bookingId userId reason db = (db, Throw pendingNotFound).
Proof.
  intros Ef. unfold approveBooking, rejectBooking, bind, gets. now rewrite Ef.
Qed.

Lemma transition_found (bookingId : string) (userId : Z) (db : Db) (row : Booking)
  (calendarEventId videoLink reason : option string) :
  NoDup (map b_id (bookings db)) ->
  find (pendingWhere bookingId userId) (bookings db) = Some row ->
  approveBooking bookingId userId calendarEventId videoLink db
  = (set_bookings
       (map (fun b => if b_id b =? b_id row then confirmed calendarEventId videoLink b else b)
            (bookings db)) db,
     Ok (toBookingResult (confirmed calendarEventId videoLink row)))
  /\ rejectBooking bookingId userId reason db
     = (set_bookings
          (map (fun b => if b_id b =? b_id row then rejected b else b) (bookings db)) db,
        Ok (toBookingResult (rejected row))).
Proof.
  intros Hnd Ef. apply find_some in Ef as Hin. destruct Hin as [Hin _].
  unfold approveBooking, rejectBooking, bind, gets, booking_update.
  rewrite Ef, (find_by_id _ _ Hnd Hin). split; reflexivity.
Qed.

(** A transition that returned found a pending row and rewrote the rows
    of its id. *)
Lemma transition_inv (bookingId : string) (userId : Z) (db db' : Db)
  (data : Booking -> Booking) (r : BookingResult) :
  (forall b, b_id (data b) = b_id b) ->
  (booking <- gets (fun db => find (pendingWhere bookingId userId) (bookings db)) ;;
   match booking with
   | None => throw pendingNotFound
   | Some booking =>
     updated <- booking_update (b_id booking) data ;; ret (toBookingResult updated)
   end)%async db = (db', Ok r) ->
  exists row,
    In row (bookings db) /\ pendingWhere bookingId userId row = true
    /\ r_id r = b_id row
    /\ db' = set_bookings
               (map (fun b => if b_id b =? b_id row then data b else b) (bookings db)) db.
Proof.
  intros Hid. unfold bind, gets, booking_update, throw, ret.
  destruct (find (pendingWhere bookingId userId) (bookings db)) as [row |] eqn:Ef;
    [ | discriminate ].
  apply find_some in Ef. destruct Ef as [Hin Hp].
  destruct (find (fun b => b_id b =? b_id row) (bookings db)) as [row' |] eqn:Ei;
    [ | discriminate ].
  intros E. inversion E; subst. exists row. repeat split; auto.
  simpl. rewrite Hid. apply find_some in Ei. destruct Ei as [_ Ei]. now apply Z.eqb_eq.
Qed.

(** X1: a booking can be approved or rejected only while it is pending.
    When the admin has no pending booking under the uid (it does not
    exist, belongs to someone else, or is already confirmed, rejected or
    cancelled), both methods reject with NOT_FOUND and leave the store
    as it was. *)
Theorem transition_requires_pending (bookingId : string) (userId : Z) (db : Db)
  (calendarEventId videoLink reason : option string) :
  (forall b, In b (bookings db) -> b_uid b = bookingId -> b_userId b = userId ->
             b_status b <> PENDING) ->
  approveBooking bookingId userId calendarEventId videoLink db
  = (db, Throw (Trpc (TRPCError NOT_FOUND "Pending booking not found")))
  /\ rejectBooking bookingId userId reason db
     = (db, Throw (Trpc (TRPCError NOT_FOUND "Pending booking not found"))).
Proof.
  intros Hnone. apply transition_not_pending.
  destruct (find (pendingWhere bookingId userId) (bookings db)) as [row |] eqn:Ef;
    [ exfalso | reflexivity ].
  apply find_some in Ef. destruct Ef as [Hin Hp]. apply pendingWhere_true in Hp.
  destruct Hp as [Hu [Ha Hs]]. exact (Hnone row Hin Hu Ha Hs).
Qed.

(** X2: with unique ids and uids, approving (rejecting) the admin's
    pending booking rewrites that one row in place, to CONFIRMED with
    the links given (to REJECTED), returns it, and leaves every other
    row, and the order of the table, as they were. *)
Theorem transition_rewrites_one_row (bookingId : string) (userId : Z) (db : Db)
  (row : Booking) (calendarEventId videoLink reason : option string) :
  NoDup (map b_id (bookings db)) -> NoDup (map b_uid (bookings db)) ->
  In row (bookings db) ->
  b_uid row = bookingId -> b_userId row = userId -> b_status row = PENDING ->
  exists before after,
    bookings db = before ++ row :: after
    /\ approveBooking bookingId userId calendarEventId videoLink db
       = (set_bookings (before ++ confirmed calendarEventId videoLink row :: after) db,
          Ok (toBookingResult (confirmed calendarEventId videoLink row)))
    /\ rejectBooking bookingId userId reason db
       = (set_bookings (before ++ rejected row :: after) db,
          Ok (toBookingResult (rejected row))).
Proof.
  intros Hid Huid Hin Hu Ha Hs.
  assert (Hp : pendingWhere bookingId userId row = true) by now apply pendingWhere_true.
  pose proof (find_the_pending _ _ _ _ Huid Hin Hp) as Ef.
  destruct (transition_found bookingId userId db row calendarEventId videoLink reason Hid Ef)
    as [Happ Hrej].
  destruct (in_split _ _ Hin) as [before [after Hsplit]].
  exists before, after. split; [ exact Hsplit | ].
  assert (Hmap : forall data,
            map (fun b => if b_id b =? b_id row then data b else b) (bookings db)
            = before ++ data row :: after).
  { intros data.
    destruct (update_in_place data _ _ Hid Hin) as [b' [a' [Hs' Hm']]].
    rewrite Hm'. rewrite Hsplit in Hs', Hid.
    assert (Hfirst : forall (l1 l2 l1' l2' : list Booking),
              NoDup (map b_id (l1 ++ row :: l2)) ->
              l1 ++ row :: l2 = l1' ++ row :: l2' -> l1 = l1' /\ l2 = l2').
    { induction l1 as [| x l1 IH]; intros l2 l1' l2' Hn E.
      - destruct l1' as [| y l1']; simpl in E; [ inversion E; auto | ].
        inversion E; subst. simpl in Hn. inversion Hn as [| ? ? Hnot _]. exfalso.
        apply Hnot. rewrite map_app. apply in_or_app. right. now left.
      - destruct l1' as [| y l1']; simpl in E.
        + inversion E; subst. simpl in Hn. inversion Hn as [| ? ? Hnot _]. exfalso.
          apply Hnot. rewrite map_app. apply in_or_app. right. now left.
        + inversion E; subst. simpl in Hn. inversion Hn; subst.
          destruct (IH l2 l1' l2') as [-> ->]; auto. }
    destruct (Hfirst _ _ _ _ Hid Hs') as [-> ->]. reflexivity. }
  rewrite Happ, Hrej, !Hmap. split; reflexivity.
Qed.

(** X3: a transition is final.  Once an approval or a rejection of a
    booking has returned, every further approval or rejection of the
    same uid by the same admin rejects with NOT_FOUND and changes
    nothing (uids being unique). *)
Theorem transition_is_final (bookingId : string) (userId : Z) (db db1 : Db)
  (r : BookingResult) (calendarEventId videoLink reason : option string)
  (calendarEventId' videoLink' reason' : option string) :
  NoDup (map b_uid (bookings db)) ->
  approveBooking bookingId userId calendarEventId videoLink db = (db1, Ok r)
  \/ rejectBooking bookingId userId reason db = (db1, Ok r) ->
  approveBooking bookingId userId calendarEventId' videoLink' db1
  = (db1, Throw (Trpc (TRPCError NOT_FOUND "Pending booking not found")))
  /\ rejectBooking bookingId userId reason' db1
     = (db1, Throw (Trpc (TRPCError NOT_FOUND "Pending booking not found"))).
Proof.
  intros Huid Hdone.
  assert (Hshape : exists row data,
            In row (bookings db) /\ pendingWhere bookingId userId row = true
            /\ (forall b, b_uid (data b) = b_uid b /\ b_status (data b) <> PENDING)
            /\ db1 = set_bookings
                       (map (fun b => if b_id b =? b_id row then data b else b)
                            (bookings db)) db).
  { destruct Hdone as [Hdone | Hdone].
    - destruct (transition_inv bookingId userId db db1
                  (confirmed calendarEventId videoLink) r (fun _ => eq_refl) Hdone)
        as [row [Hin [Hp [_ Hdb]]]].
      exists row, (confirmed calendarEventId videoLink).
      repeat split; auto; simpl; discriminate.
    - destruct (transition_inv bookingId userId db db1 rejected r (fun _ => eq_refl) Hdone)
        as [row [Hin [Hp [_ Hdb]]]].
      exists row, rejected. repeat split; auto; simpl; discriminate. }
  destruct Hshape as [row [data [Hin [Hp [Hdata Hdb]]]]].
  apply transition_not_pending.
  destruct (find (pendingWhere bookingId userId) (bookings db1)) as [row1 |] eqn:Ef;
    [ exfalso | reflexivity ].
  apply find_some in Ef. destruct Ef as [Hin1 Hp1].
  rewrite Hdb in Hin1. simpl in Hin1. apply in_map_iff in Hin1.
  destruct Hin1 as [b [Hb Hinb]].
  apply pendingWhere_true in Hp, Hp1. destruct Hp as [Hu _], Hp1 as [Hu1 [_ Hs1]].
  destruct (Z.eqb_spec (b_id b) (b_id row)) as [Hsame | Hdiff].
  - subst row1. now apply (proj2 (Hdata b)).
  - subst row1. apply Hdiff. f_equal.
    apply (NoDup_map_inj b_uid (bookings db)); auto. congruence.
Qed.

(** A transition that returned, with unique ids: the row and the store. *)
Lemma transition_inv_unique (bookingId : string) (userId : Z) (db db' : Db)
  (data : Booking -> Booking) (r : BookingResult) :
  NoDup (map b_id (bookings db)) ->
  (booking <- gets (fun db => find (pendingWhere bookingId userId) (bookings db)) ;;
   match booking with
   | None => throw pendingNotFound
   | Some booking =>
     updated <- booking_update (b_id booking) data ;; ret (toBookingResult updated)
   end)%async db = (db', Ok r) ->
  exists row,
    In row (bookings db) /\ pendingWhere bookingId userId row = true
    /\ r = toBookingResult (data row)
    /\ db' = set_bookings
               (map (fun b => if b_id b =? b_id row then data b else b) (bookings db)) db.
Proof.
  intros Hnd. unfold bind, gets, booking_update, throw, ret.
  destruct (find (pendingWhere bookingId userId) (bookings db)) as [row |] eqn:Ef;
    [ | discriminate ].
  apply find_some in Ef. destruct Ef as [Hin Hp].
  rewrite (find_by_id _ _ Hnd Hin).
  intros E. inversion E; subst. exists row. repeat split; auto.
Qed.

Section WithGuard.
Context `{EmailFormat}.

(** X4: what a transition does to the guard.  An approved booking keeps
    its interval taken: a later request of the same admin that
    half-open-overlaps it is refused with CONFLICT.  A rejected booking
    gives its interval back: a later valid request that overlaps no
    other pending or confirmed booking of the admin is inserted. *)
Theorem transition_and_guard (bookingId : string) (userId : Z) (db db1 : Db)
  (r : BookingResult) (now : Z) (uid : string) (input : CreatePendingBookingInput) :
  NoDup (map b_id (bookings db)) ->
  Forall (fun b => b_startTime b < b_endTime b) (bookings db) ->
  createBookingInputSchema_parse input = Ok input ->
  15 * 60 * 1000 <= endTime input - startTime input <= 8 * 60 * 60 * 1000 ->
  now <= startTime input ->
  MinimalBookingService.userId input = userId ->
  (forall calendarEventId videoLink,
     approveBooking bookingId userId calendarEventId videoLink db = (db1, Ok r) ->
     halfOpenOverlap (startTime input) (endTime input) (r_startTime r) (r_endTime r) = true ->
     createPendingBooking now uid input db1
     = (set_txOpened (S (txOpened db1)) db1,
        Throw (TRPCError CONFLICT "Time slot is no longer available")))
  /\ (forall reason,
        rejectBooking bookingId userId reason db = (db1, Ok r) ->
        (forall b, In b (bookings db) -> b_id b <> r_id r -> b_userId b = userId ->
                   b_status b = PENDING \/ b_status b = CONFIRMED ->
                   halfOpenOverlap (startTime input) (endTime input)
                     (b_startTime b) (b_endTime b) = false) ->
        let row := pendingRow uid input (nextBookingId db1) in
        createPendingBooking now uid input db1
        = (set_bookings (bookings db1 ++ [row]) (set_txOpened (S (txOpened db1)) db1),
           Ok (toBookingResult row))).
Proof.
  intros Hid Hwf E Hd Hn Hu. split.
  - intros calendarEventId videoLink Happ Ho.
    destruct (transition_inv_unique _ _ _ _ _ _ Hid Happ) as [row [Hin [Hp [-> ->]]]].
    apply pendingWhere_true in Hp. destruct Hp as [_ [Ha _]].
    rewrite (BookingGuard.validated_runs_transaction _ _ _ _ E Hd Hn).
    rewrite BookingGuard.transaction_outcome.
    destruct (find (overlappingWhere input) _) eqn:Ef; [ reflexivity | exfalso ].
    assert (Hrow : In (confirmed calendarEventId videoLink row)
                     (map (fun b => if b_id b =? b_id row
                                    then confirmed calendarEventId videoLink b else b)
                          (bookings db))).
    { apply in_map_iff. exists row. now rewrite Z.eqb_refl. }
    apply (find_none _ _ Ef) in Hrow. revert Hrow.
    unfold overlappingWhere. simpl in *. rewrite Hu, Ha, Z.eqb_refl. simpl.
    rewrite Forall_forall in Hwf.
    rewrite BookingGuard.overlapClauses_halfOpenOverlap by (try apply Hwf; auto; lia).
    rewrite Ho. discriminate.
  - intros reason Hrej Hfree row0.
    destruct (transition_inv_unique _ _ _ _ _ _ Hid Hrej) as [row [Hin [Hp [-> ->]]]].
    rewrite (BookingGuard.validated_runs_transaction _ _ _ _ E Hd Hn).
    rewrite BookingGuard.transaction_outcome.
    destruct (find (overlappingWhere input) _) as [b1 |] eqn:Ef; [ exfalso | reflexivity ].
    apply find_some in Ef. destruct Ef as [Hin1 Hw]. simpl in Hin1.
    apply in_map_iff in Hin1. destruct Hin1 as [b [Hb Hinb]].
    unfold overlappingWhere in Hw. rewrite !andb_true_iff in Hw.
    destruct Hw as [[Hw1 Hw2] Hw3].
    destruct (Z.eqb_spec (b_id b) (b_id row)) as [Hsame | Hdiff]; subst b1.
    + simpl in Hw2. discriminate.
    + rewrite Forall_forall in Hwf.
      rewrite BookingGuard.overlapClauses_halfOpenOverlap in Hw3
        by (try apply Hwf; auto; lia).
      rewrite Hfree in Hw3; try discriminate; auto.
      * apply Z.eqb_eq in Hw1. congruence.
      * now apply BookingGuard.statusIn_pending_confirmed.
Qed.

End WithGuard.

(** *** The listing *)

Lemma insertSorted_by_key {A} (key : A -> Z) (x : A) (l : list A) :
  StronglySorted (fun a b => key a <= key b) l ->
  StronglySorted (fun a b => key a <= key b)
    (MinimalAvailabilityService.insertSorted (fun a b => key a - key b) x l).
Proof.
  induction l as [| y l IH]; intros Hs; simpl.
  - repeat constructor.
  - inversion Hs as [| ? ? Hl Hy]; subst.
    destruct (Z.leb_spec (key x - key y) 0).
    + constructor; [ exact Hs | ].
      constructor; [ lia | ].
      rewrite Forall_forall in *. intros z Hz. specialize (Hy z Hz). lia.
    + constructor; [ now apply IH | ].
      rewrite Forall_forall in *. intros z Hz.
      apply SlotComputation.insertSorted_In in Hz. destruct Hz as [-> | Hz]; [ lia | ].
      now apply Hy.
Qed.

Lemma sortWith_by_key {A} (key : A -> Z) (l : list A) :
  StronglySorted (fun a b => key a <= key b)
    (MinimalAvailabilityService.sortWith (fun a b => key a - key b) l).
Proof.
  induction l as [| x l IH]; simpl; [ constructor | now apply insertSorted_by_key ].
Qed.

(** X5: [getBookingsByUser] returns, ascending by start time and without
    touching the store, exactly the admin's bookings that pass the
    status list and, when a bound is given, start at or after
    [startDate] OR end at or before [endDate]; so with both bounds given
    a booking that starts after [startDate] is listed however late it
    ends. *)
Theorem listing_is_sorted_union (userId : Z) (startDate endDate : option Z)
  (status : option (list BookingStatus)) (db : Db) :
  exists rows,
    getBookingsByUser userId startDate endDate status db = (db, Ok (map toBookingResult rows))
    /\ StronglySorted (fun a b => b_startTime a <= b_startTime b) rows
    /\ (forall b, In b rows <->
          In b (bookings db) /\ b_userId b = userId
          /\ (startDate = None /\ endDate = None
              \/ (exists s, startDate = Some s /\ s <= b_startTime b)
              \/ (exists e, endDate = Some e /\ b_endTime b <= e))
          /\ (forall allowed, status = Some allowed -> allowed <> [] ->
                              In (b_status b) allowed))
    /\ (forall b s e,
          startDate = Some s -> endDate = Some e -> status = None ->
          In b (bookings db) -> b_userId b = userId ->
          s <= b_startTime b -> e < b_endTime b -> In b rows).
Proof.
  eexists. split; [ reflexivity | ]. split; [ apply (sortWith_by_key b_startTime) | ].
  assert (Hchar : forall b,
            In b (MinimalAvailabilityService.sortWith compareStartTime
                    (filter (listWhere userId startDate endDate status) (bookings db)))
            <-> In b (bookings db) /\ b_userId b = userId
                /\ (startDate = None /\ endDate = None
                    \/ (exists s, startDate = Some s /\ s <= b_startTime b)
                    \/ (exists e, endDate = Some e /\ b_endTime b <= e))
                /\ (forall allowed, status = Some allowed -> allowed <> [] ->
                                    In (b_status b) allowed)).
  { intros b. rewrite SlotComputation.sortWith_In, filter_In.
    unfold listWhere. rewrite !andb_true_iff, Z.eqb_eq.
    assert (Hdates :
              (match startDate, endDate with
               | None, None => true
               | _, _ =>
                 existsb (fun clause : Booking -> bool => clause b)
                   ((match startDate with
                     | Some s => [fun b => b_startTime b >=? s]
                     | None => []
                     end)
                    ++ (match endDate with
                        | Some e => [fun b => b_endTime b <=? e]
                        | None => []
                        end))
               end) = true
              <-> (startDate = None /\ endDate = None
                   \/ (exists s, startDate = Some s /\ s <= b_startTime b)
                   \/ (exists e, endDate = Some e /\ b_endTime b <= e))).
    { destruct startDate as [s |], endDate as [e |]; simpl;
        rewrite ?orb_false_r, ?orb_true_iff, ?Z.geb_leb, ?Z.leb_le.
      - split.
        + intros [Hs | He]; [ right; left | right; right ]; eauto.
        + intros [[Hx _] | [[s' [Es Hs]] | [e' [Ee He]]]];
            [ discriminate | left | right ]; congruence.
      - split.
        + intros Hs. right; left; eauto.
        + intros [[Hx _] | [[s' [Es Hs]] | [e' [Ee He]]]];
            [ discriminate | congruence | discriminate ].
      - split.
        + intros He. right; right; eauto.
        + intros [[_ Hx] | [[s' [Es Hs]] | [e' [Ee He]]]];
            [ discriminate | discriminate | congruence ].
      - split; [ intros _; left; auto | reflexivity ]. }
    assert (Hstatus :
              (match status with
               | Some allowed =>
                 if (0 <? Z.of_nat (List.length allowed))
                 then statusIn allowed (b_status b) else true
               | None => true
               end) = true
              <-> (forall allowed, status = Some allowed -> allowed <> [] ->
                                   In (b_status b) allowed)).
    { assert (Hin : forall allowed,
                statusIn allowed (b_status b) = true <-> In (b_status b) allowed).
      { intros allowed. unfold statusIn. rewrite existsb_exists. split.
        - intros [x [Hx Heq]]. apply BookingStatus_eqb_eq in Heq. now subst.
        - intros Hx. exists (b_status b). split; [ exact Hx | ].
          now apply BookingStatus_eqb_eq. }
      destruct status as [allowed |].
      - destruct (Z.ltb_spec 0 (Z.of_nat (List.length allowed))) as [Hlen | Hlen].
        + rewrite Hin. split.
          * intros Hx allowed' Ea _. now inversion Ea; subst.
          * intros Hx. apply Hx; [ reflexivity | ]. intros ->. simpl in Hlen. lia.
        + split; [ | reflexivity ]. intros _ allowed' Ea Hne. inversion Ea; subst.
          destruct allowed'; [ now contradiction Hne | simpl in Hlen; lia ].
      - split; [ intros _ allowed Ea; discriminate | reflexivity ]. }
    rewrite Hdates, Hstatus. tauto. }
  split; [ exact Hchar | ].
  intros b s e Es Ee Est Hin Hu Hs He. apply Hchar.
  repeat split; auto.
  - right; left. eauto.
  - intros allowed Ea. congruence.
Qed.

(** *** The transitions on the Monday calendar *)

Section Monday.
Import Examples AdminExamples.

Lemma twoBookings_ids : NoDup (map b_id (bookings twoBookings)).
Proof. repeat constructor; simpl; intuition discriminate. Qed.

Lemma twoBookings_uids : NoDup (map b_uid (bookings twoBookings)).
Proof. repeat constructor; simpl; intuition discriminate. Qed.

Lemma twoBookings_proper :
  Forall (fun b => b_startTime b < b_endTime b) (bookings twoBookings).
Proof. repeat constructor. Qed.

(** The confirmed booking cannot be approved again. *)
Lemma transition_requires_pending_witness :
  approveBooking "booking-1" 7 None (Some "https://meet.example/abc") twoBookings
  = (twoBookings, Throw (Trpc (TRPCError NOT_FOUND "Pending booking not found")))
  /\ rejectBooking "booking-1" 7 (Some "busy") twoBookings
     = (twoBookings, Throw (Trpc (TRPCError NOT_FOUND "Pending booking not found"))).
Proof.
  apply (transition_requires_pending "booking-1" 7 twoBookings).
  intros b [<- | [<- | []]]; simpl; intros; discriminate.
Defined.

Lemma transition_rewrites_one_row_witness :
  exists before after,
    bookings twoBookings = before ++ pendingBooking :: after
    /\ approveBooking "booking-2" 7 (Some "event-9") (Some "https://zoom.example/j/1")
         twoBookings
       = (set_bookings
            (before ++ confirmed (Some "event-9") (Some "https://zoom.example/j/1")
                         pendingBooking :: after) twoBookings,
          Ok (toBookingResult
                (confirmed (Some "event-9") (Some "https://zoom.example/j/1")
                   pendingBooking)))
    /\ rejectBooking "booking-2" 7 None twoBookings
       = (set_bookings (before ++ rejected pendingBooking :: after) twoBookings,
          Ok (toBookingResult (rejected pendingBooking))).
Proof.
  apply (transition_rewrites_one_row "booking-2" 7 twoBookings pendingBooking
           (Some "event-9") (Some "https://zoom.example/j/1") None
           twoBookings_ids twoBookings_uids).
  - simpl. auto.
  - reflexivity.
  - reflexivity.
  - reflexivity.
Defined.

Lemma transition_is_final_witness :
  approveBooking "booking-2" 7 None None afterRejection
  = (afterRejection, Throw (Trpc (TRPCError NOT_FOUND "Pending booking not found")))
  /\ rejectBooking "booking-2" 7 None afterRejection
     = (afterRejection, Throw (Trpc (TRPCError NOT_FOUND "Pending booking not found"))).
Proof.
  apply (transition_is_final "booking-2" 7 twoBookings afterRejection
           (toBookingResult (rejected pendingBooking)) None None (Some "busy") None None None
           twoBookings_uids).
  right. reflexivity.
Defined.

(** After the rejection, 11:00-11:30 can be requested again. *)
Lemma transition_and_guard_witness :
  createPendingBooking (H := hasAtSign) (at_ 8 0) "booking-3"
    (request (at_ 11 0) (at_ 11 30)) afterRejection
  = (set_bookings
       (bookings afterRejection
        ++ [pendingRow "booking-3" (request (at_ 11 0) (at_ 11 30))
              (nextBookingId afterRejection)])
       (set_txOpened (S (txOpened afterRejection)) afterRejection),
     Ok (toBookingResult
           (pendingRow "booking-3" (request (at_ 11 0) (at_ 11 30))
              (nextBookingId afterRejection)))).
Proof.
  refine (proj2 (transition_and_guard (H := hasAtSign) "booking-2" 7 twoBookings
                   afterRejection (toBookingResult (rejected pendingBooking))
                   (at_ 8 0) "booking-3" (request (at_ 11 0) (at_ 11 30))
                   twoBookings_ids twoBookings_proper eq_refl _ _ eq_refl)
            (Some "busy") eq_refl _).
  - vm_compute. split; discriminate.
  - vm_compute. discriminate.
  - intros b [<- | [<- | []]]; simpl; intros; try reflexivity. congruence.
Defined.

End Monday.

End BookingAdminFacts.

(** ** More on the slot computation *)

Module SlotFacts.
Import Store MinimalAvailabilityService SlotParts.

Lemma existsb_map {A B} (f : B -> bool) (g : A -> B) (l : list A) :
  existsb f (map g l) = existsb (fun x => f (g x)) l.
Proof. induction l as [| x l IH]; simpl; [ reflexivity | now rewrite IH ]. Qed.

Section Engine.
Context `{LocalDate} `{DateFnsTz}.

(** The computation, in its parts. *)
Lemma calculateAvailableSlots_parts (fuel : nat) (db : Db)
  (input : CalculateAvailableSlotsInput) :
  calculateAvailableSlots fuel db input
  = match activeBlocks db input with
    | [] => Some []
    | _ :: _ =>
      option_map (fun allSlots => sortWith compareStart (filter (isFree db input) allSlots))
        (allSlotsOf fuel (activeBlocks db input) (startDate input) (endDate input)
           (userTimezone input) (slotDurationOf input))
    end.
Proof.
  unfold calculateAvailableSlots, activeBlocks.
  destruct (filter _ (availabilityBlocks db)) as [| block blocks]; [ reflexivity | ].
  destruct (allSlotsOf _ _ _ _ _ _) as [allSlots |]; [ | reflexivity ].
  simpl. do 2 f_equal. apply filter_ext. intros slot.
  unfold isFree, bookedSpans, bookedWhere. rewrite existsb_map.
  destruct (existsb _ (getCalendarEvents _ _ _ _)); reflexivity.
Qed.

(** *** Where an offered slot comes from *)

Lemma slotLoop_grid (fuel : nat) (tz : string) (dur maxEnd start : Z) (l : list TimeSlot)
  (s : TimeSlot) :
  slotLoop fuel tz dur maxEnd start = Some l -> In s l ->
  exists k, 0 <= k /\ startTime s = start + k * dur
            /\ endTime s = startTime s + dur /\ endTime s <= maxEnd
            /\ displayStartTime s = formatInTimeZone (startTime s) tz
            /\ displayEndTime s = formatInTimeZone (endTime s) tz.
Proof.
  revert start l. induction fuel as [| fuel IH]; intros start l; simpl; [ discriminate | ].
  destruct (Z.leb_spec (start + dur) maxEnd) as [Hc | Hc].
  - destruct (slotLoop fuel tz dur maxEnd (start + dur)) as [slots |] eqn:Er; [ | discriminate ].
    intros E Hin. inversion E; subst; clear E. destruct Hin as [<- | Hin].
    + exists 0. simpl. repeat split; auto; lia.
    + destruct (IH _ _ Er Hin) as [k [Hk [Hs Hrest]]].
      exists (k + 1). repeat split; try tauto; lia.
  - intros E. inversion E. intros [].
Qed.

Lemma dayLoop_day (fuel fuel0 : nat) (block : AvailabilityBlock)
  (startDate endDate : Z) (tz : string) (dur current : Z) (l : list TimeSlot) (s : TimeSlot) :
  dayLoop fuel fuel0 block startDate endDate tz dur current = Some l -> In s l ->
  exists currentDate today,
    currentDate <= endDate /\ getDay currentDate = ab_dayOfWeek block
    /\ daySlots fuel0 block startDate endDate tz dur currentDate = Some today
    /\ In s today.
Proof.
  revert current l. induction fuel as [| fuel IH]; intros current l; simpl; [ discriminate | ].
  destruct (Z.leb_spec current endDate) as [Hc | Hc]; [ | intros E; inversion E; intros [] ].
  destruct (Z.eqb_spec (getDay current) (ab_dayOfWeek block)) as [Hday | Hday].
  - destruct (daySlots fuel0 _ _ _ _ _ _) as [today |] eqn:Et; [ | discriminate ].
    destruct (dayLoop fuel _ _ _ _ _ _ _) as [later |] eqn:El; [ | discriminate ].
    intros E Hin. inversion E; subst; clear E. apply in_app_or in Hin.
    destruct Hin as [Hin | Hin]; [ now exists current, today | now apply (IH _ _ El) ].
  - destruct (dayLoop fuel _ _ _ _ _ _ _) as [later |] eqn:El; [ | discriminate ].
    intros E Hin. inversion E; subst; clear E. now apply (IH _ _ El).
Qed.

Lemma allSlotsOf_block (fuel : nat) (blocks : list AvailabilityBlock)
  (startDate endDate : Z) (tz : string) (minutes : Z) (l : list TimeSlot) (s : TimeSlot) :
  allSlotsOf fuel blocks startDate endDate tz minutes = Some l -> In s l ->
  exists block slots,
    In block blocks
    /\ generateSlotsFromBlock fuel block startDate endDate tz minutes = Some slots
    /\ In s slots.
Proof.
  revert l. induction blocks as [| block blocks IH]; intros l; simpl.
  - intros E. inversion E. intros [].
  - destruct (generateSlotsFromBlock _ _ _ _ _ _) as [slots |] eqn:Eg; [ | discriminate ].
    destruct (allSlotsOf _ _ _ _ _ _) as [more |] eqn:Em; [ | discriminate ].
    intros E Hin. inversion E; subst; clear E. apply in_app_or in Hin.
    destruct Hin as [Hin | Hin].
    + exists block, slots. auto.
    + destruct (IH _ eq_refl Hin) as [b [sl [Hb Hrest]]]. exists b, sl. auto.
Qed.

(** X6: every offered slot lies inside an availability block.  For each
    returned slot there are an active block of the admin and a day of
    the block's weekday, not after the end of the range, such that the
    slot starts a whole number of slot lengths after the later of the
    block's start on that day (in UTC) and the start of the range, is
    exactly one slot length long, and ends no later than the block's end
    on that day and the end of the range; its display strings are the
    formatted start and end. *)
Theorem offered_slot_lies_in_block (fuel : nat) (db : Db)
  (input : CalculateAvailableSlotsInput) (slots : list TimeSlot) (s : TimeSlot) :
  calculateAvailableSlots fuel db input = Some slots -> In s slots ->
  exists block currentDate k,
    In block (availabilityBlocks db) /\ ab_userId block = userId input
    /\ ab_isActive block = true
    /\ getDay currentDate = ab_dayOfWeek block /\ currentDate <= endDate input
    /\ 0 <= k
    /\ startTime s
       = Z.max (dayStartUTC block currentDate) (startDate input)
         + k * (slotDurationOf input * 60 * 1000)
    /\ endTime s = startTime s + slotDurationOf input * 60 * 1000
    /\ endTime s <= Z.min (dayEndUTC block currentDate) (endDate input)
    /\ displayStartTime s = formatInTimeZone (startTime s) (userTimezone input)
    /\ displayEndTime s = formatInTimeZone (endTime s) (userTimezone input).
Proof.
  rewrite calculateAvailableSlots_parts.
  destruct (activeBlocks db input) as [| b0 bs] eqn:Eb.
  { intros E. inversion E. intros []. }
  destruct (allSlotsOf _ _ _ _ _ _) as [allSlots |] eqn:Ea; [ | discriminate ].
  simpl. intros E Hin. inversion E; subst; clear E.
  apply SlotComputation.sortWith_In, filter_In in Hin. destruct Hin as [Hin _].
  destruct (allSlotsOf_block _ _ _ _ _ _ _ _ Ea Hin) as [block [sl [Hblock [Eg Hs]]]].
  rewrite <- Eb in Hblock. apply filter_In in Hblock. destruct Hblock as [Hb Hp].
  apply andb_true_iff in Hp. destruct Hp as [Hu Hact]. apply Z.eqb_eq in Hu.
  unfold generateSlotsFromBlock in Eg.
  destruct (dayLoop_day _ _ _ _ _ _ _ _ _ _ Eg Hs) as [d [today [Hd [Hday [Et Hst]]]]].
  unfold daySlots in Et.
  destruct (slotLoop_grid _ _ _ _ _ _ _ Et Hst) as [k [Hk [H1 [H2 [H3 [H4 H5]]]]]].
  exists block, d, k. unfold dayStartUTC, dayEndUTC. repeat split; auto.
Qed.

(** *** Slots and the booking table *)

Lemma isFree_by_spans (db db' : Db) (input : CalculateAvailableSlotsInput) :
  availabilityBlocks db' = availabilityBlocks db ->
  calendarIntegrations db' = calendarIntegrations db ->
  calendarEvents db' = calendarEvents db ->
  bookedSpans db' input = bookedSpans db input ->
  forall fuel, calculateAvailableSlots fuel db' input = calculateAvailableSlots fuel db input.
Proof.
  intros Hb Hi He Hs fuel. rewrite !calculateAvailableSlots_parts.
  unfold activeBlocks. rewrite Hb.
  destruct (filter _ (availabilityBlocks db)); [ reflexivity | ].
  destruct (allSlotsOf _ _ _ _ _ _); [ | reflexivity ].
  simpl. do 2 f_equal. apply filter_ext. intros slot.
  unfold isFree, getCalendarEvents. now rewrite Hi, He, Hs.
Qed.

End Engine.

Section Monday.
Import Examples AdminExamples.

Lemma offered_slot_lies_in_block_witness :
  exists block currentDate k,
    In block (availabilityBlocks twoBookings) /\ ab_userId block = userId wholeMonday
    /\ ab_isActive block = true
    /\ getDay (LocalDate := utcDate) currentDate = ab_dayOfWeek block
    /\ currentDate <= endDate wholeMonday
    /\ 0 <= k
    /\ startTime nineOClock
       = Z.max (dayStartUTC (H := utcDate) (H0 := utcTz) block currentDate)
           (startDate wholeMonday)
         + k * (slotDurationOf wholeMonday * 60 * 1000)
    /\ endTime nineOClock = startTime nineOClock + slotDurationOf wholeMonday * 60 * 1000
    /\ endTime nineOClock
       <= Z.min (dayEndUTC (H := utcDate) (H0 := utcTz) block currentDate) (endDate wholeMonday)
    /\ displayStartTime nineOClock
       = formatInTimeZone (DateFnsTz := utcTz) (startTime nineOClock) (userTimezone wholeMonday)
    /\ displayEndTime nineOClock
       = formatInTimeZone (DateFnsTz := utcTz) (endTime nineOClock) (userTimezone wholeMonday).
Proof.
  apply (offered_slot_lies_in_block (H := utcDate) (H0 := utcTz) 20 twoBookings wholeMonday
           mondaySlots nineOClock).
  - vm_compute. reflexivity.
  - vm_compute. left. reflexivity.
Defined.

End Monday.

End SlotFacts.

(** ** Slots and the life of a booking *)

Module SlotsAndBookings.
Import Store Async MinimalAvailabilityService SlotParts BookingAdmin.

Lemma insertSorted_first (x : TimeSlot) (l : list TimeSlot) :
  Forall (byStart x) l -> insertSorted compareStart x l = x :: l.
Proof.
  destruct l as [| y l]; [ reflexivity | ]. intros Hall. simpl.
  inversion Hall as [| ? ? Hy _]; subst. unfold byStart in Hy. unfold compareStart.
  destruct (Z.leb_spec (startTime x - startTime y) 0); [ reflexivity | lia ].
Qed.

Lemma Forall_filter {A} (P : A -> Prop) (p : A -> bool) (l : list A) :
  Forall P l -> Forall P (filter p l).
Proof.
  induction 1 as [| x l Hx _ IH]; simpl; [ constructor | ].
  destruct (p x); [ now constructor | exact IH ].
Qed.

Lemma filter_insertSorted (p : TimeSlot -> bool) (x : TimeSlot) (l : list TimeSlot) :
  StronglySorted byStart l ->
  filter p (insertSorted compareStart x l)
  = if p x then insertSorted compareStart x (filter p l) else filter p l.
Proof.
  induction 1 as [| y l Hs IH Hy]; simpl.
  - destruct (p x); reflexivity.
  - unfold compareStart at 1.
    destruct (Z.leb_spec (startTime x - startTime y) 0) as [Hle | Hgt]; simpl.
    + destruct (p x) eqn:Px, (p y) eqn:Py; try reflexivity.
      * simpl. unfold compareStart.
        destruct (Z.leb_spec (startTime x - startTime y) 0); [ reflexivity | lia ].
      * symmetry. apply insertSorted_first, Forall_filter.
        revert Hy. apply Forall_impl. unfold byStart. intros; lia.
    + rewrite IH. destruct (p x) eqn:Px, (p y) eqn:Py; try reflexivity.
      simpl. unfold compareStart at 2.
      destruct (Z.leb_spec (startTime x - startTime y) 0); [ lia | reflexivity ].
Qed.

Lemma filter_sortWith (p : TimeSlot -> bool) (l : list TimeSlot) :
  filter p (sortWith compareStart l) = sortWith compareStart (filter p l).
Proof.
  induction l as [| x l IH]; simpl; [ reflexivity | ].
  rewrite filter_insertSorted by apply SlotComputation.sortWith_sorted.
  rewrite IH. destruct (p x); reflexivity.
Qed.

Lemma filter_filter {A} (p q : A -> bool) (l : list A) :
  filter p (filter q l) = filter (fun x => q x && p x) l.
Proof.
  induction l as [| x l IH]; simpl; [ reflexivity | ].
  destruct (q x); simpl; [ destruct (p x) | ]; now rewrite IH.
Qed.

Lemma filter_ext_Forall {A} (P : A -> Prop) (p q : A -> bool) (l : list A) :
  Forall P l -> (forall x, P x -> p x = q x) -> filter p l = filter q l.
Proof.
  intros Hall Hpq. induction Hall as [| x l Hx _ IH]; simpl; [ reflexivity | ].
  now rewrite (Hpq x Hx), IH.
Qed.

Lemma sortWith_length {A} (compare : A -> A -> Z) (l : list A) :
  List.length (sortWith compare l) = List.length l.
Proof.
  induction l as [| x l IH]; simpl; [ reflexivity | ].
  rewrite <- IH. generalize (sortWith compare l). intros m.
  induction m as [| y m IHm]; simpl; [ reflexivity | ].
  destruct (compare x y <=? 0); simpl; [ reflexivity | now rewrite IHm ].
Qed.

Section Engine.
Context `{LocalDate} `{DateFnsTz}.

Section Guarded.
Context `{MinimalBookingService.EmailFormat}.

Lemma accepted_store (now : Z) (uid : string)
  (input : MinimalBookingService.CreatePendingBookingInput) (db db' : Db)
  (r : MinimalBookingService.BookingResult) :
  MinimalBookingService.createPendingBooking now uid input db = (db', Ok r) ->
  db' = set_bookings
          (bookings db
           ++ [MinimalBookingService.pendingRow uid input (MinimalBookingService.nextBookingId db)])
          (set_txOpened (S (txOpened db)) db).
Proof.
  intros Hok. destruct (BookingGuard.accepted_inv _ _ _ _ _ _ Hok) as [E [Hd [Hn _]]].
  rewrite (BookingGuard.validated_runs_transaction _ _ _ _ E Hd Hn) in Hok.
  rewrite BookingGuard.transaction_outcome in Hok.
  destruct (find _ _); [ discriminate | ]. now inversion Hok.
Qed.

(** X7: an accepted booking takes exactly the slots it overlaps.  When
    [createPendingBooking] succeeds, a slot query of the booked admin
    that returned [slots] before returns afterwards [slots] without the
    slots that half-open-overlap the booked interval, in the same
    order; a query for another admin returns what it returned before. *)
Theorem booking_takes_its_slots (now : Z) (uid : string)
  (input : MinimalBookingService.CreatePendingBookingInput) (db db' : Db)
  (r : MinimalBookingService.BookingResult) (fuel : nat)
  (query : CalculateAvailableSlotsInput) (slots : list TimeSlot) :
  MinimalBookingService.createPendingBooking now uid input db = (db', Ok r) ->
  calculateAvailableSlots fuel db query = Some slots ->
  calculateAvailableSlots fuel db' query
  = Some (if userId query =? MinimalBookingService.userId input
          then filter (fun slot =>
                 negb (slotsOverlap (spanOfSlot slot)
                         (mkSpan (MinimalBookingService.startTime input)
                                 (MinimalBookingService.endTime input)))) slots
          else slots).
Proof.
  intros Hok. rewrite (accepted_store _ _ _ _ _ _ Hok). clear Hok.
  rewrite !SlotFacts.calculateAvailableSlots_parts. unfold activeBlocks. simpl availabilityBlocks.
  destruct (filter _ (availabilityBlocks db)) as [| b0 bs].
  { intros E. inversion E. now destruct (_ =? _). }
  destruct (allSlotsOf _ _ _ _ _ _) as [allSlots |] eqn:Ea; [ | discriminate ].
  simpl. intros E. inversion E; subst; clear E. f_equal.
  apply SlotComputation.allSlotsOf_within in Ea.
  set (row := MinimalBookingService.pendingRow uid input (MinimalBookingService.nextBookingId db)).
  set (db1 := set_bookings _ _).
  assert (Hfree : forall slot, within (startDate query) (endDate query) slot ->
            isFree db1 query slot
            = isFree db query slot
              && negb ((b_userId row =? userId query)
                       && slotsOverlap (spanOfSlot slot) (spanOf row))).
  { intros slot Hw. unfold isFree, bookedSpans, getCalendarEvents. simpl.
    rewrite filter_app, map_app, existsb_app. simpl.
    rewrite negb_orb, andb_assoc. f_equal. f_equal.
    unfold bookedWhere, spanOf. subst row. simpl.
    destruct (MinimalBookingService.userId input =? userId query); [ | reflexivity ]. simpl.
    destruct ((_ <=? _) && (_ >=? _)) eqn:Er; simpl; [ now rewrite orb_false_r | ].
    destruct (slotsOverlap _ _) eqn:Eo; [ | reflexivity ].
    apply (SlotComputation.overlap_inside_range _ _ _ _ _ Hw) in Eo. congruence. }
  rewrite (filter_ext_Forall _ _ _ _ Ea Hfree). simpl b_userId.
  rewrite (Z.eqb_sym (MinimalBookingService.userId input)).
  destruct (userId query =? MinimalBookingService.userId input).
  - rewrite filter_sortWith, filter_filter. reflexivity.
  - f_equal. apply filter_ext. intros slot. simpl. now rewrite andb_true_r.
Qed.

Lemma slot_length (fuel : nat) (db : Db) (query : CalculateAvailableSlotsInput)
  (slots : list TimeSlot) (slot : TimeSlot) :
  calculateAvailableSlots fuel db query = Some slots -> In slot slots ->
  endTime slot = startTime slot + slotDurationOf query * 60 * 1000.
Proof.
  rewrite SlotFacts.calculateAvailableSlots_parts.
  destruct (activeBlocks db query) as [| b0 bs]; [ intros E; inversion E; intros [] | ].
  destruct (allSlotsOf _ _ _ _ _ _) as [allSlots |] eqn:Ea; [ | discriminate ].
  simpl. intros E Hin. inversion E; subst; clear E.
  apply SlotComputation.sortWith_In, filter_In in Hin. destruct Hin as [Hin _].
  destruct (SlotFacts.allSlotsOf_block _ _ _ _ _ _ _ _ Ea Hin) as [block [sl [_ [Eg Hs]]]].
  unfold generateSlotsFromBlock in Eg.
  destruct (SlotFacts.dayLoop_day _ _ _ _ _ _ _ _ _ _ Eg Hs) as [d [today [_ [_ [Et Hst]]]]].
  unfold daySlots in Et.
  destruct (SlotFacts.slotLoop_grid _ _ _ _ _ _ _ Et Hst) as [k [_ [_ [Hlen _]]]].
  exact Hlen.
Qed.

(** X22: an offered slot can be booked.  On a store whose bookings
    all end after they start, a request for exactly an offered slot of
    the admin, with a slot length between 15 minutes and 8 hours, a
    start not before the clock reading, and attendee data that pass
    the schema, is accepted by [createPendingBooking]: it meets no
    conflict, and the booking is stored as pending for that
    interval. *)
Theorem offered_slot_is_bookable (fuel : nat) (db : Db) (query : CalculateAvailableSlotsInput)
  (slots : list TimeSlot) (slot : TimeSlot) (now : Z) (uid : string)
  (input : MinimalBookingService.CreatePendingBookingInput) :
  calculateAvailableSlots fuel db query = Some slots -> In slot slots ->
  Forall (fun b => b_startTime b < b_endTime b) (bookings db) ->
  15 <= slotDurationOf query <= 8 * 60 ->
  MinimalBookingService.userId input = userId query ->
  MinimalBookingService.startTime input = startTime slot ->
  MinimalBookingService.endTime input = endTime slot ->
  now <= startTime slot ->
  MinimalBookingService.createBookingInputSchema_parse input = Ok input ->
  exists db' r,
    MinimalBookingService.createPendingBooking now uid input db = (db', Ok r)
    /\ MinimalBookingService.r_status r = PENDING
    /\ MinimalBookingService.r_uid r = uid
    /\ MinimalBookingService.r_startTime r = startTime slot
    /\ MinimalBookingService.r_endTime r = endTime slot
    /\ bookings db'
       = bookings db
         ++ [MinimalBookingService.pendingRow uid input (MinimalBookingService.nextBookingId db)].
Proof.
  intros Hcalc Hin Hproper Hdur Hu Hs He Hnow Hparse.
  pose proof (slot_length _ _ _ _ _ Hcalc Hin) as Hlen.
  destruct (SlotComputation.available_slot _ _ _ _ _ Hcalc Hin) as [Hw [_ Hfree]].
  rewrite (BookingGuard.validated_runs_transaction now uid input db Hparse)
    by (rewrite ?Hs, ?He; lia).
  rewrite BookingGuard.transaction_outcome.
  destruct (find (MinimalBookingService.overlappingWhere input) (bookings db)) as [b |] eqn:Ef.
  - exfalso.
    assert (Hex : exists b, find (MinimalBookingService.overlappingWhere input) (bookings db)
                            = Some b) by eauto.
    apply (BookingGuard.find_overlapping_Some_iff input (bookings db) Hproper) in Hex;
      [ | rewrite Hs, He; lia ].
    destruct Hex as [b' [Hb [Hub [Hst Hov]]]]. rewrite Hs, He in Hov.
    change (MinimalBookingService.halfOpenOverlap (startTime slot) (endTime slot)
              (b_startTime b') (b_endTime b'))
      with (slotsOverlap (spanOfSlot slot) (mkSpan (b_startTime b') (b_endTime b'))) in Hov.
    pose proof (SlotComputation.overlap_inside_range _ _ _ _ _ Hw Hov) as Hrange.
    rewrite (Hfree b' Hb) in Hov; [ discriminate | ].
    rewrite Hrange, andb_true_r. apply andb_true_iff. split.
    + apply Z.eqb_eq. congruence.
    + now apply BookingGuard.statusIn_pending_confirmed.
  - eexists. eexists. split; [ reflexivity | ]. simpl. repeat split; auto.
Qed.

End Guarded.

Lemma spans_after_update (input : CalculateAvailableSlotsInput) (id : Z)
  (data : Booking -> Booking) (l : list Booking) :
  (forall b, In b l -> b_id b = id ->
             bookedWhere input (data b) = bookedWhere input b /\ spanOf (data b) = spanOf b) ->
  map spanOf (filter (bookedWhere input) (map (fun b => if b_id b =? id then data b else b) l))
  = map spanOf (filter (bookedWhere input) l).
Proof.
  induction l as [| b l IH]; intros Hd; [ reflexivity | ].
  assert (IH' := IH (fun b' Hb' => Hd b' (or_intror Hb'))). clear IH.
  cbn [map filter].
  destruct (Z.eqb_spec (b_id b) id) as [Hid | Hid].
  - destruct (Hd b (or_introl eq_refl) Hid) as [-> Hspan].
    destruct (bookedWhere input b); cbn [map]; rewrite ?Hspan, IH'; reflexivity.
  - destruct (bookedWhere input b); cbn [map]; rewrite IH'; reflexivity.
Qed.

Lemma spans_after_rejection (input : CalculateAvailableSlotsInput) (id : Z) (l : list Booking) :
  map spanOf (filter (bookedWhere input) (map (fun b => if b_id b =? id then rejected b else b) l))
  = map spanOf (filter (bookedWhere input) (filter (fun b => negb (b_id b =? id)) l)).
Proof.
  induction l as [| b l IH]; [ reflexivity | ].
  cbn [map filter]. destruct (b_id b =? id); cbn [negb filter].
  - assert (bookedWhere input (rejected b) = false) as ->; [ | exact IH ].
    unfold bookedWhere. simpl. now rewrite andb_false_r.
  - destruct (bookedWhere input b); cbn [map]; now rewrite IH.
Qed.

(** X8: what approval and rejection do to the offered slots.  Approving
    a booking changes no answer of the slot computation (the interval
    was taken while the booking was pending and stays taken); after a
    rejection the slot computation answers as on the store from which
    the booking's row is removed. *)
Theorem transition_and_slots (bookingId : string) (admin : Z) (db db' : Db)
  (r : MinimalBookingService.BookingResult) (calendarEventId videoLink reason : option string)
  (fuel : nat) (query : CalculateAvailableSlotsInput) :
  NoDup (map b_id (bookings db)) ->
  (approveBooking bookingId admin calendarEventId videoLink db = (db', Ok r) ->
   calculateAvailableSlots fuel db' query = calculateAvailableSlots fuel db query)
  /\ (rejectBooking bookingId admin reason db = (db', Ok r) ->
      calculateAvailableSlots fuel db' query
      = calculateAvailableSlots fuel (withoutBooking (MinimalBookingService.r_id r) db) query).
Proof.
  intros Hnd. split; intros Hok.
  - destruct (BookingAdminFacts.transition_inv bookingId admin db db'
                (confirmed calendarEventId videoLink) r (fun b => eq_refl) Hok)
      as [row [Hin [Hp [_ ->]]]].
    apply SlotFacts.isFree_by_spans; try reflexivity.
    unfold bookedSpans. simpl bookings. apply spans_after_update.
    intros b Hb Hid. split; [ | reflexivity ].
    assert (b = row) as ->.
    { apply (BookingAdminFacts.NoDup_map_inj b_id (bookings db)); auto. }
    unfold pendingWhere in Hp. rewrite !andb_true_iff in Hp. destruct Hp as [_ Hs].
    apply BookingAdminFacts.BookingStatus_eqb_eq in Hs.
    unfold bookedWhere. simpl. now rewrite Hs.
  - destruct (BookingAdminFacts.transition_inv bookingId admin db db' rejected r
                (fun b => eq_refl) Hok) as [row [Hin [Hp [-> ->]]]].
    apply SlotFacts.isFree_by_spans; try reflexivity.
    unfold bookedSpans, withoutBooking. simpl bookings. apply spans_after_rejection.
Qed.

(** *** Blocks are not merged *)

Lemma allSlotsOf_per_block (fuel : nat) (blocks : list AvailabilityBlock)
  (startDate endDate : Z) (tz : string) (minutes : Z) (l : list TimeSlot) :
  allSlotsOf fuel blocks startDate endDate tz minutes = Some l ->
  exists perBlock,
    Forall2 (fun block slots =>
               generateSlotsFromBlock fuel block startDate endDate tz minutes = Some slots)
            blocks perBlock
    /\ l = List.concat perBlock.
Proof.
  revert l. induction blocks as [| block blocks IH]; intros l; simpl.
  - intros E. inversion E. exists []. split; [ constructor | reflexivity ].
  - destruct (generateSlotsFromBlock _ _ _ _ _ _) as [slots |] eqn:Eg; [ | discriminate ].
    destruct (allSlotsOf _ _ _ _ _ _) as [more |] eqn:Em; [ | discriminate ].
    intros E. inversion E; subst; clear E.
    destruct (IH _ eq_refl) as [perBlock [Hall ->]].
    exists (slots :: perBlock). split; [ now constructor | reflexivity ].
Qed.

Lemma filter_concat {A} (p : A -> bool) (ls : list (list A)) :
  filter p (List.concat ls) = List.concat (map (filter p) ls).
Proof.
  induction ls as [| l ls IH]; simpl; [ reflexivity | ].
  now rewrite filter_app, IH.
Qed.

(** X9: the slots of different blocks are not merged.  The result is
    the sorted concatenation of the free slots of each active block,
    one block after the other: a slot generated by several blocks is
    returned once for each of them, and the number of slots returned is
    the sum over the blocks of the number of free slots each
    generates. *)
Theorem blocks_are_not_merged (fuel : nat) (db : Db)
  (input : CalculateAvailableSlotsInput) (slots : list TimeSlot) :
  calculateAvailableSlots fuel db input = Some slots ->
  exists perBlock,
    Forall2 (fun block generated =>
               generateSlotsFromBlock fuel block (startDate input) (endDate input)
                 (userTimezone input) (slotDurationOf input) = Some generated)
            (activeBlocks db input) perBlock
    /\ slots = sortWith compareStart (List.concat (map (filter (isFree db input)) perBlock))
    /\ List.length slots
       = list_sum (map (fun generated => List.length (filter (isFree db input) generated))
                     perBlock).
Proof.
  rewrite SlotFacts.calculateAvailableSlots_parts.
  destruct (activeBlocks db input) as [| b0 bs] eqn:Eb.
  { intros E. inversion E. exists []. repeat split. constructor. }
  destruct (allSlotsOf _ _ _ _ _ _) as [allSlots |] eqn:Ea; [ | discriminate ].
  simpl. intros E. inversion E; subst; clear E.
  destruct (allSlotsOf_per_block _ _ _ _ _ _ _ Ea) as [perBlock [Hall ->]].
  exists perBlock. split; [ exact Hall | ]. rewrite filter_concat. split; [ reflexivity | ].
  rewrite sortWith_length. clear. induction perBlock as [| g gs IH]; simpl; [ reflexivity | ].
  now rewrite length_app, IH.
Qed.

End Engine.

Section Monday.
Import Examples AdminExamples.

Lemma booking_takes_its_slots_witness :
  calculateAvailableSlots (H := utcDate) (H0 := utcTz) 20 afterBooking wholeMonday
  = Some (if userId wholeMonday =? MinimalBookingService.userId (request (at_ 12 0) (at_ 13 0))
          then filter (fun slot =>
                 negb (slotsOverlap (spanOfSlot slot)
                         (mkSpan (MinimalBookingService.startTime (request (at_ 12 0) (at_ 13 0)))
                                 (MinimalBookingService.endTime (request (at_ 12 0) (at_ 13 0))))))
                 mondaySlots
          else mondaySlots).
Proof.
  eapply (booking_takes_its_slots (H := utcDate) (H0 := utcTz)
            (H1 := MinimalBookingService.hasAtSign)
            monday "booking-3" (request (at_ 12 0) (at_ 13 0)) twoBookings afterBooking).
  - vm_compute. reflexivity.
  - vm_compute. reflexivity.
Defined.

Lemma offered_slot_is_bookable_witness :
  exists db' r,
    MinimalBookingService.createPendingBooking (H := MinimalBookingService.hasAtSign)
      monday "booking-3" (request (at_ 9 0) (at_ 9 30)) twoBookings = (db', Ok r)
    /\ MinimalBookingService.r_status r = PENDING
    /\ MinimalBookingService.r_uid r = "booking-3"
    /\ MinimalBookingService.r_startTime r = startTime nineOClock
    /\ MinimalBookingService.r_endTime r = endTime nineOClock
    /\ bookings db'
       = bookings twoBookings
         ++ [MinimalBookingService.pendingRow "booking-3" (request (at_ 9 0) (at_ 9 30))
               (MinimalBookingService.nextBookingId twoBookings)].
Proof.
  apply (offered_slot_is_bookable (H := utcDate) (H0 := utcTz)
           (H1 := MinimalBookingService.hasAtSign)
           20 twoBookings wholeMonday mondaySlots nineOClock monday "booking-3"
           (request (at_ 9 0) (at_ 9 30))).
  - vm_compute. reflexivity.
  - vm_compute. left. reflexivity.
  - apply BookingAdminFacts.twoBookings_proper.
  - vm_compute. split; discriminate.
  - reflexivity.
  - reflexivity.
  - reflexivity.
  - vm_compute. discriminate.
  - vm_compute. reflexivity.
Defined.

Lemma transition_and_slots_witness :
  calculateAvailableSlots (H := utcDate) (H0 := utcTz) 20 afterApproval wholeMonday
  = calculateAvailableSlots (H := utcDate) (H0 := utcTz) 20 twoBookings wholeMonday
  /\ calculateAvailableSlots (H := utcDate) (H0 := utcTz) 20 afterRejection wholeMonday
     = calculateAvailableSlots (H := utcDate) (H0 := utcTz) 20 (withoutBooking 2 twoBookings)
         wholeMonday.
Proof.
  split.
  - eapply (proj1 (transition_and_slots (H := utcDate) (H0 := utcTz) "booking-2" 7
                     twoBookings afterApproval _ None (Some "https://zoom.example/j/1") None
                     20 wholeMonday BookingAdminFacts.twoBookings_ids)).
    vm_compute. reflexivity.
  - refine (proj2 (transition_and_slots (H := utcDate) (H0 := utcTz) "booking-2" 7
                     twoBookings afterRejection
                     (MinimalBookingService.toBookingResult (rejected pendingBooking))
                     None None (Some "busy")
                     20 wholeMonday BookingAdminFacts.twoBookings_ids) _).
    vm_compute. reflexivity.
Defined.

Lemma blocks_are_not_merged_witness :
  exists perBlock,
    Forall2 (fun block generated =>
               generateSlotsFromBlock (H := utcDate) (H0 := utcTz) 20 block
                 (startDate wholeMonday) (endDate wholeMonday)
                 (userTimezone wholeMonday) (slotDurationOf wholeMonday) = Some generated)
            (activeBlocks doubledBlock wholeMonday) perBlock
    /\ flat_map (fun slot => [slot; slot]) mondaySlots
       = sortWith compareStart (List.concat (map (filter (isFree doubledBlock wholeMonday)) perBlock))
    /\ List.length (flat_map (fun slot => [slot; slot]) mondaySlots)
       = list_sum (map (fun generated =>
                          List.length (filter (isFree doubledBlock wholeMonday) generated))
                     perBlock).
Proof.
  apply (blocks_are_not_merged (H := utcDate) (H0 := utcTz) 20 doubledBlock wholeMonday).
  vm_compute. reflexivity.
Defined.

End Monday.

End SlotsAndBookings.

(** ** More on the sync engine *)

Module SyncFacts.
Import Store Async Exn CalendarSyncService SyncParts.

Lemma filter_map_same {A} (p : A -> bool) (g : A -> A) (l : list A) :
  (forall x, g x = x \/ (p x = false /\ p (g x) = false)) ->
  filter p (map g l) = filter p l.
Proof.
  intros Hg. induction l as [| x l IH]; simpl; [ reflexivity | ].
  rewrite IH. destruct (Hg x) as [-> | [-> ->]]; reflexivity.
Qed.

Lemma sameKey_integration (integrationId externalEventId other : string) (e : CalendarEvent) :
  other <> integrationId -> sameKey integrationId externalEventId e = true ->
  (ce_calendarIntegrationId e =? other)%string = false.
Proof.
  intros Hne Hs. unfold sameKey in Hs. apply andb_true_iff in Hs. destruct Hs as [Hs _].
  apply String.eqb_eq in Hs. rewrite Hs. apply String.eqb_neq. congruence.
Qed.

Section Engine.
Context `{GoogleCalendar} `{DateParse} `{DateFns}.

Lemma upsertEvent_other (now : Z) (integrationId : string) (event : GoogleCalendarEvent)
  (startDateTime other : string) (db : Db) :
  other <> integrationId ->
  eventsOf other (fst (upsertEvent now integrationId event startDateTime db))
  = eventsOf other db.
Proof.
  intros Hne.
  unfold upsertEvent, bind, storableDate, calendarEvent_upsert, modify, ret, throw.
  destruct (newDate startDateTime) as [start |]; [ | reflexivity ].
  destruct (if Js.truthy (end_dateTime event) then _ else _) as [stop |]; [ | reflexivity ].
  simpl. unfold eventsOf. destruct (existsb _ (calendarEvents db)); simpl.
  - apply filter_map_same. intros e.
    destruct (sameKey integrationId (id event) e) eqn:Es; [ right | now left ].
    simpl. split; now apply (sameKey_integration integrationId (id event)).
  - rewrite filter_app. simpl.
    assert ((integrationId =? other)%string = false) as ->
      by (apply String.eqb_neq; congruence).
    apply app_nil_r.
Qed.

Lemma processLoop_other (now : Z) (integrationId other : string)
  (events : list GoogleCalendarEvent) (count : Z) (db : Db) :
  other <> integrationId ->
  eventsOf other (fst (processLoop now integrationId events count db)) = eventsOf other db.
Proof.
  intros Hne. revert count db. induction events as [| event rest IH]; intros count db.
  - reflexivity.
  - cbn [processLoop]. cbv zeta.
    destruct (negb (Js.truthy (Some (id event))) || negb (Js.truthy (start_dateTime event)));
      [ apply IH | ].
    destruct (start_dateTime event) as [startDateTime |]; [ | apply IH ].
    unfold bind.
    pose proof (upsertEvent_other now integrationId event startDateTime other db Hne) as Hu.
    destruct (upsertEvent now integrationId event startDateTime db) as [db1 [[] | e1]];
      simpl in Hu; [ | exact Hu ].
    now rewrite IH.
Qed.

(** *** Replaying a listing *)

Lemma sameKey_keyOf (integrationId externalEventId : string) (x y : CalendarEvent) :
  keyOf x = keyOf y ->
  sameKey integrationId externalEventId x = sameKey integrationId externalEventId y.
Proof. unfold keyOf, sameKey. intros E. inversion E. congruence. Qed.

Lemma touchedBy_keyOf (integrationId : string) (events : list GoogleCalendarEvent)
  (x y : CalendarEvent) :
  keyOf x = keyOf y -> touchedBy integrationId events x = touchedBy integrationId events y.
Proof.
  intros E. unfold touchedBy. induction events as [| event rest IH]; simpl; [ reflexivity | ].
  now rewrite IH, (sameKey_keyOf _ _ _ _ E).
Qed.

Lemma refreshed_keyOf (now : Z) (event : GoogleCalendarEvent) (e : CalendarEvent) :
  keyOf (refreshed now event e) = keyOf e /\ ce_isBusy (refreshed now event e) = ce_isBusy e.
Proof. unfold refreshed. destruct (datesOf event) as [[s t] |]; split; reflexivity. Qed.

Lemma applyTo_keyOf (now : Z) (integrationId : string) (event : GoogleCalendarEvent)
  (e : CalendarEvent) :
  keyOf (applyTo now integrationId e event) = keyOf e
  /\ ce_isBusy (applyTo now integrationId e event) = ce_isBusy e.
Proof.
  unfold applyTo. destruct (_ && _); [ apply refreshed_keyOf | split; reflexivity ].
Qed.

Lemma processed_start (event : GoogleCalendarEvent) :
  processed event = true ->
  negb (Js.truthy (Some (id event))) || negb (Js.truthy (start_dateTime event)) = false
  /\ exists startDateTime, start_dateTime event = Some startDateTime.
Proof.
  unfold processed. intros Hp. apply andb_true_iff in Hp. destruct Hp as [Ha Hb].
  rewrite Ha, Hb. split; [ reflexivity | ].
  destruct (start_dateTime event) as [s |]; [ now exists s | discriminate ].
Qed.

Lemma upsertEvent_run (now : Z) (integrationId : string) (event : GoogleCalendarEvent)
  (startDateTime : string) (db : Db) :
  start_dateTime event = Some startDateTime ->
  upsertEvent now integrationId event startDateTime db
  = match datesOf event with
    | Some _ => (upserted now integrationId event db, Ok tt)
    | None => (db, Throw (JsError "Provided Date object is invalid. Expected Date."))
    end.
Proof.
  intros Hs.
  unfold upsertEvent, upserted, refreshed, datesOf, bind, storableDate, calendarEvent_upsert,
    modify, ret, throw.
  rewrite Hs. destruct (newDate startDateTime) as [start |]; [ | reflexivity ].
  destruct (if Js.truthy (end_dateTime event) then _ else _) as [stop |]; [ | reflexivity ].
  simpl. destruct (existsb _ (calendarEvents db)); reflexivity.
Qed.

Lemma processLoop_cons (now : Z) (integrationId : string) (event : GoogleCalendarEvent)
  (rest : list GoogleCalendarEvent) (count : Z) (db : Db) :
  processLoop now integrationId (event :: rest) count db
  = if processed event then
      match datesOf event with
      | Some _ =>
        processLoop now integrationId rest (count + 1) (upserted now integrationId event db)
      | None => (db, Throw (JsError "Provided Date object is invalid. Expected Date."))
      end
    else processLoop now integrationId rest count db.
Proof.
  cbn [processLoop]. destruct (processed event) eqn:Hp.
  - destruct (processed_start _ Hp) as [-> [startDateTime Hs]]. rewrite Hs.
    unfold bind. rewrite (upsertEvent_run _ _ _ _ _ Hs).
    destruct (datesOf event); reflexivity.
  - unfold processed in Hp. apply andb_false_iff in Hp.
    replace (negb (Js.truthy (Some (id event))) || negb (Js.truthy (start_dateTime event)))
      with true by (destruct Hp as [-> | ->]; simpl; auto using orb_true_r).
    reflexivity.
Qed.

(** A run that succeeds has made dates of every event it did not skip,
    and counts those events. *)
Lemma processLoop_Ok (now : Z) (integrationId : string) (events : list GoogleCalendarEvent)
  (count : Z) (db db1 : Db) (n : Z) :
  processLoop now integrationId events count db = (db1, Ok n) ->
  Forall (fun event => processed event = true -> datesOf event <> None) events
  /\ n = count + Z.of_nat (List.length (filter processed events)).
Proof.
  revert count db. induction events as [| event rest IH]; intros count db.
  - simpl. unfold ret. intros E. inversion E. split; [ constructor | lia ].
  - rewrite processLoop_cons. cbn [filter]. destruct (processed event) eqn:Hp.
    + destruct (datesOf event) as [dates |] eqn:Ed; [ | discriminate ].
      intros E. destruct (IH _ _ E) as [Hall ->]. split.
      * constructor; [ congruence | exact Hall ].
      * cbn [List.length]. lia.
    + intros E. destruct (IH _ _ E) as [Hall ->]. split; [ | reflexivity ].
      constructor; [ congruence | exact Hall ].
Qed.

Lemma fold_untouched (now : Z) (integrationId : string) (events : list GoogleCalendarEvent)
  (e : CalendarEvent) :
  touchedBy integrationId events e = false ->
  fold_left (applyTo now integrationId) events e = e.
Proof.
  induction events as [| event rest IH]; [ reflexivity | ].
  unfold touchedBy. cbn [existsb fold_left]. intros Ht. apply orb_false_iff in Ht.
  destruct Ht as [Ha Hr]. unfold applyTo at 2. rewrite Ha. now apply IH.
Qed.

Lemma fold_overwrites (now : Z) (integrationId : string) (events : list GoogleCalendarEvent) :
  Forall (fun event => processed event = true -> datesOf event <> None) events ->
  forall x y,
    touchedBy integrationId events x = true ->
    keyOf x = keyOf y -> ce_isBusy x = ce_isBusy y ->
    fold_left (applyTo now integrationId) events x
    = fold_left (applyTo now integrationId) events y.
Proof.
  induction 1 as [| event rest Hd _ IH]; intros x y Ht Hk Hb; [ discriminate | ].
  cbn [fold_left]. unfold touchedBy in Ht. cbn [existsb] in Ht.
  unfold applyTo at 2 4. rewrite <- (sameKey_keyOf _ _ _ _ Hk).
  destruct (processed event && sameKey integrationId (id event) x) eqn:Ha.
  - apply andb_true_iff in Ha. destruct Ha as [Hp _].
    assert (refreshed now event x = refreshed now event y) as ->; [ | reflexivity ].
    unfold refreshed, keyOf in *. destruct (datesOf event) as [[s t] |]; [ | now elim Hd ].
    inversion Hk. congruence.
  - simpl in Ht. now apply IH.
Qed.

Lemma fold_other_clock (now1 now2 : Z) (integrationId : string)
  (events : list GoogleCalendarEvent) :
  Forall (fun event => processed event = true -> datesOf event <> None) events ->
  forall e,
    fold_left (applyTo now2 integrationId) events e
    = if touchedBy integrationId events e
      then withSyncedAt now2 (fold_left (applyTo now1 integrationId) events e)
      else e.
Proof.
  induction 1 as [| event rest Hd Hall IH]; intros e; [ reflexivity | ].
  cbn [fold_left]. unfold touchedBy. cbn [existsb]. fold (touchedBy integrationId rest e).
  unfold applyTo at 2 4.
  destruct (processed event && sameKey integrationId (id event) e) eqn:Ha; [ | apply IH ].
  cbn [orb]. apply andb_true_iff in Ha. destruct Ha as [Hp _].
  destruct (refreshed_keyOf now1 event e) as [Hk1 Hb1].
  destruct (refreshed_keyOf now2 event e) as [Hk2 Hb2].
  assert (Hstamp : refreshed now2 event e = withSyncedAt now2 (refreshed now1 event e)).
  { unfold refreshed. destruct (datesOf event) as [[s t] |]; [ reflexivity | now elim Hd ]. }
  rewrite IH, (touchedBy_keyOf _ _ _ _ Hk2).
  destruct (touchedBy integrationId rest e) eqn:Ht.
  - f_equal. apply (fold_overwrites now1 integrationId rest Hall).
    + now rewrite (touchedBy_keyOf _ _ _ _ Hk2).
    + congruence.
    + congruence.
  - rewrite (fold_untouched now1 integrationId rest (refreshed now1 event e))
      by now rewrite (touchedBy_keyOf _ _ _ _ Hk1).
    exact Hstamp.
Qed.

Lemma existsb_sameKey_map (integrationId externalEventId : string)
  (g : CalendarEvent -> CalendarEvent) (l : list CalendarEvent) :
  (forall e, keyOf (g e) = keyOf e) ->
  existsb (sameKey integrationId externalEventId) (map g l)
  = existsb (sameKey integrationId externalEventId) l.
Proof.
  intros Hg. induction l as [| e l IH]; simpl; [ reflexivity | ].
  now rewrite IH, (sameKey_keyOf _ _ _ _ (Hg e)).
Qed.

(** On a store that holds a row for every listed event, the loop is a
    map over the rows. *)
Lemma processLoop_replay (now : Z) (integrationId : string)
  (events : list GoogleCalendarEvent) (count : Z) (db : Db) :
  Forall (fun event => processed event = true ->
            datesOf event <> None
            /\ existsb (sameKey integrationId (id event)) (calendarEvents db) = true) events ->
  processLoop now integrationId events count db
  = (set_calendarEvents
       (map (fun e => fold_left (applyTo now integrationId) events e) (calendarEvents db)) db,
     Ok (count + Z.of_nat (List.length (filter processed events)))).
Proof.
  revert count db. induction events as [| event rest IH]; intros count db Hall.
  - simpl. unfold ret. rewrite map_id, Z.add_0_r. now destruct db.
  - inversion Hall as [| ? ? Hev Hrest]; subst. rewrite processLoop_cons. cbn [filter].
    destruct (processed event) eqn:Hp.
    + destruct (Hev eq_refl) as [Hd Hk].
      destruct (datesOf event) as [[s t] |] eqn:Ed; [ | now elim Hd ].
      assert (Hup : upserted now integrationId event db
                    = set_calendarEvents
                        (map (fun e => applyTo now integrationId e event) (calendarEvents db)) db).
      { unfold upserted. rewrite Ed, Hk. f_equal. apply map_ext. intros e.
        unfold applyTo. now rewrite Hp. }
      rewrite Hup, IH.
      * simpl calendarEvents. rewrite map_map. cbn [List.length fold_left]. f_equal.
        f_equal. rewrite Nat2Z.inj_succ. lia.
      * revert Hrest. apply Forall_impl. intros ev Hq Hpe. destruct (Hq Hpe) as [Hd' Hk'].
        split; [ exact Hd' | ]. simpl calendarEvents. rewrite existsb_sameKey_map; [ exact Hk' | ].
        intros e. apply applyTo_keyOf.
    + rewrite IH.
      * f_equal. f_equal. apply map_ext. intros e. cbn [fold_left].
        assert (applyTo now integrationId e event = e) as ->; [ | reflexivity ].
        unfold applyTo. now rewrite Hp.
      * exact Hrest.
Qed.

Lemma upserted_has_key (now : Z) (integrationId : string) (event : GoogleCalendarEvent)
  (db : Db) :
  datesOf event <> None ->
  existsb (sameKey integrationId (id event))
    (calendarEvents (upserted now integrationId event db)) = true.
Proof.
  intros Hd. unfold upserted. destruct (datesOf event) as [[s t] |]; [ | now elim Hd ].
  destruct (existsb _ (calendarEvents db)) eqn:Ek; simpl.
  - rewrite existsb_sameKey_map; [ exact Ek | ].
    intros e. destruct (sameKey _ _ e); [ apply refreshed_keyOf | reflexivity ].
  - rewrite existsb_app. simpl. unfold sameKey. simpl. now rewrite !String.eqb_refl, orb_true_r.
Qed.

(** A row with the key of the event, after its upsert, carries the
    event's data already. *)
Lemma upserted_row (now : Z) (integrationId : string) (event : GoogleCalendarEvent)
  (db : Db) (e : CalendarEvent) :
  datesOf event <> None ->
  In e (calendarEvents (upserted now integrationId event db)) ->
  sameKey integrationId (id event) e = true ->
  refreshed now event e = e.
Proof.
  intros Hd. unfold upserted, refreshed.
  destruct (datesOf event) as [[s t] |] eqn:Ed; [ | now elim Hd ].
  destruct (existsb _ (calendarEvents db)) eqn:Ek; simpl.
  - intros Hin Hs. apply in_map_iff in Hin. destruct Hin as [e0 [He0 _]].
    destruct (sameKey integrationId (id event) e0) eqn:Hs0.
    + subst e. reflexivity.
    + subst e0. congruence.
  - intros Hin Hs. apply in_app_or in Hin. destruct Hin as [Hin | [<- | []]].
    + exfalso. assert (Hex : existsb (sameKey integrationId (id event)) (calendarEvents db) = true)
        by (apply existsb_exists; now exists e).
      congruence.
    + reflexivity.
Qed.

Lemma upserted_origin (now : Z) (integrationId : string) (event : GoogleCalendarEvent)
  (db : Db) (e : CalendarEvent) :
  In e (calendarEvents (upserted now integrationId event db)) ->
  sameKey integrationId (id event) e = false ->
  In e (calendarEvents db).
Proof.
  unfold upserted. destruct (datesOf event) as [[s t] |] eqn:Ed; [ | auto ].
  destruct (existsb _ (calendarEvents db)); simpl.
  - intros Hin Hs. apply in_map_iff in Hin. destruct Hin as [e0 [He0 Hin]].
    destruct (sameKey integrationId (id event) e0) eqn:Hs0; [ | now subst e0 ].
    exfalso. subst e.
    rewrite (sameKey_keyOf _ _ _ e0 (proj1 (refreshed_keyOf now event e0))) in Hs. congruence.
  - intros Hin Hs. apply in_app_or in Hin. destruct Hin as [Hin | [<- | []]]; [ exact Hin | ].
    exfalso. unfold sameKey in Hs. simpl in Hs. now rewrite !String.eqb_refl in Hs.
Qed.

(** A row that no listed event addresses was there before the loop. *)
Lemma processLoop_origin (now : Z) (integrationId : string)
  (events : list GoogleCalendarEvent) (count : Z) (db : Db) (e : CalendarEvent) :
  In e (calendarEvents (fst (processLoop now integrationId events count db))) ->
  touchedBy integrationId events e = false ->
  In e (calendarEvents db).
Proof.
  revert count db. induction events as [| event rest IH]; intros count db; [ auto | ].
  rewrite processLoop_cons. unfold touchedBy. cbn [existsb].
  fold (touchedBy integrationId rest e). intros Hin Ht. apply orb_false_iff in Ht.
  destruct Ht as [Ha Hr]. destruct (processed event) eqn:Hp.
  - destruct (datesOf event) as [dates |]; [ | exact Hin ].
    apply (upserted_origin now integrationId event); [ | exact Ha ].
    now apply (IH (count + 1)).
  - now apply (IH count).
Qed.

Lemma keysExtend_existsb (integrationId externalEventId : string) (l l' : list CalendarEvent) :
  keysExtend l l' ->
  existsb (sameKey integrationId externalEventId) l = true ->
  existsb (sameKey integrationId externalEventId) l' = true.
Proof.
  intros Hk Hex. apply existsb_exists in Hex. destruct Hex as [e [Hin Hs]].
  destruct (SyncEngine.keysExtend_In _ _ _ Hk Hin) as [e' [Hin' Hkey]].
  apply existsb_exists. exists e'. split; [ exact Hin' | ].
  now rewrite (sameKey_keyOf _ _ _ _ Hkey).
Qed.

(** After a run that succeeded, every row carries the data of the last
    listed event that addresses it, and every listed event has a row. *)
Lemma processLoop_settled (now : Z) (integrationId : string)
  (events : list GoogleCalendarEvent) (count : Z) (db db1 : Db) (n : Z) :
  processLoop now integrationId events count db = (db1, Ok n) ->
  (forall e, In e (calendarEvents db1) -> fold_left (applyTo now integrationId) events e = e)
  /\ Forall (fun event => processed event = true ->
               existsb (sameKey integrationId (id event)) (calendarEvents db1) = true) events.
Proof.
  revert count db. induction events as [| event rest IH]; intros count db.
  - intros _. split; [ reflexivity | constructor ].
  - intros Hrun. pose proof (processLoop_Ok _ _ _ _ _ _ _ Hrun) as [Hdates _].
    inversion Hdates as [| ? ? Hd Hdrest]; subst.
    rewrite processLoop_cons in Hrun. destruct (processed event) eqn:Hp.
    + destruct (datesOf event) as [dates |] eqn:Ed; [ | discriminate ].
      destruct (IH _ _ Hrun) as [Hfix Hkeys].
      pose proof (SyncEngine.processLoop_stable now integrationId rest (count + 1)
                    (upserted now integrationId event db)) as Hst.
      rewrite Hrun in Hst. simpl in Hst. destruct Hst as [_ [Hext _]].
      split.
      * intros e Hin. cbn [fold_left]. unfold applyTo at 2. rewrite Hp. cbn [andb].
        destruct (sameKey integrationId (id event) e) eqn:Hs; [ | now apply Hfix ].
        destruct (refreshed_keyOf now event e) as [Hk Hb].
        destruct (touchedBy integrationId rest e) eqn:Ht.
        -- rewrite (fold_overwrites now integrationId rest Hdrest (refreshed now event e) e);
             [ now apply Hfix | now rewrite (touchedBy_keyOf _ _ _ _ Hk) | exact Hk | exact Hb ].
        -- rewrite fold_untouched by now rewrite (touchedBy_keyOf _ _ _ _ Hk).
           apply (upserted_row now integrationId event db); [ congruence | | exact Hs ].
           apply (processLoop_origin now integrationId rest (count + 1)); [ | exact Ht ].
           now rewrite Hrun.
      * constructor; [ | exact Hkeys ]. intros _.
        apply (keysExtend_existsb _ _ _ _ Hext). apply upserted_has_key. congruence.
    + destruct (IH _ _ Hrun) as [Hfix Hkeys]. split.
      * intros e Hin. cbn [fold_left].
        assert (applyTo now integrationId e event = e) as ->; [ | now apply Hfix ].
        unfold applyTo. now rewrite Hp.
      * constructor; [ congruence | exact Hkeys ].
Qed.

(** X12: replaying a listing only renews the time stamps.  When
    [processSyncEvents] has succeeded on a list of events, its result
    is the number of listed events that have an id and a start
    date-time, and running it again on the same list (as a repeated
    delivery of the same page does) succeeds with the same count, adds
    no row and changes no start, end, title or busy flag: it sets
    [syncedAt] to the new clock reading on the rows the list
    addresses, and nothing else. *)
Theorem replayed_listing_only_restamps (now1 : Z) (integrationId : string)
  (events : list GoogleCalendarEvent) (db db1 : Db) (n : Z) :
  processSyncEvents now1 integrationId events db = (db1, Ok n) ->
  n = Z.of_nat (List.length (filter processed events))
  /\ forall now2,
       processSyncEvents now2 integrationId events db1
       = (restamped now2 integrationId events db1, Ok n).
Proof.
  unfold processSyncEvents. intros Hrun.
  destruct (processLoop_Ok _ _ _ _ _ _ _ Hrun) as [Hdates Hn]. rewrite Z.add_0_l in Hn.
  destruct (processLoop_settled _ _ _ _ _ _ _ Hrun) as [Hfix Hkeys].
  split; [ exact Hn | ]. intros now2. rewrite processLoop_replay.
  - rewrite Z.add_0_l, <- Hn. unfold restamped. do 2 f_equal.
    apply map_ext_in. intros e Hin.
    rewrite (fold_other_clock now1 now2 integrationId events Hdates e).
    now rewrite (Hfix e Hin).
  - clear - Hdates Hkeys. induction Hdates as [| event rest Hd _ IH]; [ constructor | ].
    inversion Hkeys; subst. constructor; auto.
Qed.

(** The shape of the store after a sync: untouched, or the loop's store
    with one update of the integration's sync columns. *)
Lemma sync_shape (sync : Z -> string -> M Thrown SyncResult)
  (now : Z) (integrationId : string) (db : Db) :
  sync = performFullSync \/ sync = performIncrementalSync ->
  fst (sync now integrationId db) = db
  \/ exists events data,
       fst (sync now integrationId db)
       = updateById integrationId data (fst (processSyncEvents now integrationId events db))
       /\ (forall ci, connectionOf (data ci) = connectionOf ci).
Proof.
  intros Hsync.
  destruct (integrationOf integrationId db) as [ci |] eqn:Ef.
  - right.
    assert (Hreq : exists request,
              (sync = performFullSync /\ request = fullWindow now)
              \/ (sync = performIncrementalSync /\ request = incrementalRequest now ci))
      by (destruct Hsync; eauto).
    destruct Hreq as [request Hreq].
    rewrite (SyncEngine.sync_found sync request now integrationId db ci Ef Hreq).
    destruct (listEvents _ _) as [listed | error].
    + exists (events listed). unfold afterListing.
      destruct (processSyncEvents now integrationId (events listed) db) as [db1 [n | error]];
        simpl; eexists; split; reflexivity || (intros; reflexivity).
    + exists [], (syncFailed (messageOf error)). split; reflexivity || (intros; reflexivity).
  - left. destruct Hsync as [-> | ->].
    + now rewrite (SyncEngine.performFullSync_missing _ _ _ Ef).
    + now rewrite (SyncEngine.performIncrementalSync_missing _ _ _ Ef).
Qed.

Lemma integrationOf_other (integrationId other : string)
  (data : CalendarIntegration -> CalendarIntegration) (db : Db) :
  (forall ci, connectionOf (data ci) = connectionOf ci) ->
  other <> integrationId ->
  integrationOf other (updateById integrationId data db) = integrationOf other db.
Proof.
  intros Hid Hne. unfold integrationOf, updateById. simpl.
  induction (calendarIntegrations db) as [| ci l IH]; simpl; [ reflexivity | ].
  destruct (ci_id ci =? integrationId)%string eqn:E; simpl; [ | now rewrite IH ].
  assert (Hsame : ci_id (data ci) = ci_id ci) by (specialize (Hid ci); now inversion Hid).
  rewrite Hsame. apply String.eqb_eq in E.
  assert ((ci_id ci =? other)%string = false) as -> by (apply String.eqb_neq; congruence).
  exact IH.
Qed.

(** X10: a sync is local to its integration.  Whatever the provider
    answers, [performFullSync] and [performIncrementalSync] of one
    integration leave the bookings, the availability blocks and the
    connection columns of every integration (owner, type, tokens,
    expiry, calendar id) as they were, and change neither the row nor
    the cached events of any other integration. *)
Theorem sync_is_local (sync : Z -> string -> M Thrown SyncResult)
  (now : Z) (integrationId : string) (db : Db) :
  sync = performFullSync \/ sync = performIncrementalSync ->
  let db' := fst (sync now integrationId db) in
  bookings db' = bookings db
  /\ availabilityBlocks db' = availabilityBlocks db
  /\ txOpened db' = txOpened db
  /\ map connectionOf (calendarIntegrations db') = map connectionOf (calendarIntegrations db)
  /\ (forall other, other <> integrationId ->
        integrationOf other db' = integrationOf other db
        /\ eventsOf other db' = eventsOf other db).
Proof.
  intros Hsync db'. subst db'.
  destruct (sync_shape sync now integrationId db Hsync) as [-> | [events [data [-> Hdata]]]].
  { repeat split; reflexivity. }
  destruct (SyncEngine.processSyncEvents_stable now integrationId events db) as [Honly _].
  unfold eventsOnly in Honly.
  pose proof (fun other => processLoop_other now integrationId other events 0 db) as Hother.
  fold (processSyncEvents now integrationId events) in Hother.
  set (db1 := fst (processSyncEvents now integrationId events db)) in *.
  assert (Hi : calendarIntegrations db1 = calendarIntegrations db) by now rewrite Honly.
  repeat split; try (simpl; now rewrite Honly).
  - simpl. rewrite Hi, map_map. apply map_ext. intros ci.
    destruct (ci_id ci =? integrationId)%string; [ apply Hdata | reflexivity ].
  - rewrite (integrationOf_other _ _ _ _ Hdata H2).
    now apply SyncEngine.integrationOf_eventsOnly.
  - rewrite <- (Hother other H2). reflexivity.
Qed.

End Engine.

Section WithSlots.
Context `{GoogleCalendar} `{DateParse} `{DateFns}.
Context `{MinimalAvailabilityService.LocalDate} `{MinimalAvailabilityService.DateFnsTz}.
Import MinimalAvailabilityService SlotParts.

Lemma slots_by_parts (db db' : Db) (input : CalculateAvailableSlotsInput) :
  availabilityBlocks db' = availabilityBlocks db ->
  getCalendarEvents db' (userId input) (startDate input) (endDate input)
  = getCalendarEvents db (userId input) (startDate input) (endDate input) ->
  bookings db' = bookings db ->
  forall fuel, calculateAvailableSlots fuel db' input = calculateAvailableSlots fuel db input.
Proof.
  intros Hb He Hs fuel. rewrite !SlotFacts.calculateAvailableSlots_parts.
  unfold activeBlocks. rewrite Hb.
  destruct (filter _ (availabilityBlocks db)); [ reflexivity | ].
  destruct (allSlotsOf _ _ _ _ _ _); [ | reflexivity ].
  simpl. do 2 f_equal. apply filter_ext. intros slot.
  unfold isFree, bookedSpans. now rewrite He, Hs.
Qed.

Lemma find_after_update (p : CalendarIntegration -> bool) (integrationId : string)
  (data : CalendarIntegration -> CalendarIntegration) (l : list CalendarIntegration) :
  (forall ci, In ci l -> ci_id ci = integrationId -> p ci = false /\ p (data ci) = false) ->
  find p (map (fun ci => if (ci_id ci =? integrationId)%string then data ci else ci) l)
  = find p l.
Proof.
  induction l as [| ci l IH]; intros Hp; [ reflexivity | ].
  cbn [map find]. rewrite IH by (intros ci' Hin; apply Hp; now right).
  destruct (String.eqb_spec (ci_id ci) integrationId) as [E | E]; [ | reflexivity ].
  destruct (Hp ci (or_introl eq_refl) E) as [-> ->]. reflexivity.
Qed.

(** X11: syncing one integration changes no slot of an admin who does
    not own it.  If no integration row under the synced id belongs to
    the admin of a slot query, [calculateAvailableSlots] answers that
    query after the sync exactly as before, whether the sync succeeded
    or failed. *)
Theorem sync_keeps_other_admins_slots (sync : Z -> string -> M Thrown SyncResult)
  (now : Z) (integrationId : string) (db : Db) (fuel : nat)
  (query : CalculateAvailableSlotsInput) :
  sync = performFullSync \/ sync = performIncrementalSync ->
  (forall ci, In ci (calendarIntegrations db) -> ci_id ci = integrationId ->
              ci_userId ci <> userId query) ->
  calculateAvailableSlots fuel (fst (sync now integrationId db)) query
  = calculateAvailableSlots fuel db query.
Proof.
  intros Hsync Hown.
  destruct (sync_shape sync now integrationId db Hsync) as [-> | [events [data [-> Hdata]]]];
    [ reflexivity | ].
  destruct (SyncEngine.processSyncEvents_stable now integrationId events db) as [Honly _].
  unfold eventsOnly in Honly.
  pose proof (fun other => processLoop_other now integrationId other events 0 db) as Hother.
  fold (processSyncEvents now integrationId events) in Hother.
  set (db1 := fst (processSyncEvents now integrationId events db)) in *.
  assert (Hi : calendarIntegrations db1 = calendarIntegrations db) by now rewrite Honly.
  apply slots_by_parts; try (simpl; now rewrite Honly).
  unfold getCalendarEvents. simpl calendarIntegrations. simpl calendarEvents. rewrite Hi.
  rewrite find_after_update.
  2:{ intros ci Hin Hid. pose proof (Hown ci Hin Hid) as Hne.
      assert (Hu : ci_userId (data ci) = ci_userId ci)
        by (specialize (Hdata ci); now inversion Hdata).
      rewrite Hu. apply Z.eqb_neq in Hne. now rewrite Hne. }
  destruct (find _ (calendarIntegrations db)) as [found |] eqn:Ef; [ | reflexivity ].
  apply find_some in Ef. destruct Ef as [Hin Hp].
  rewrite !andb_true_iff in Hp. destruct Hp as [[Hu _] _]. apply Z.eqb_eq in Hu.
  assert (Hne : ci_id found <> integrationId).
  { intros E. now apply (Hown found Hin E). }
  f_equal.
  transitivity (filter (fun e => ce_isBusy e
                          && ((ce_startTime e <=? endDate query)
                              && (ce_endTime e >=? startDate query)))
                  (eventsOf (ci_id found) db1)).
  { unfold eventsOf. rewrite SlotsAndBookings.filter_filter. apply filter_ext.
    intros e. destruct (_ =? _)%string, (ce_isBusy e); reflexivity. }
  rewrite (Hother (ci_id found) Hne).
  unfold eventsOf. rewrite SlotsAndBookings.filter_filter. apply filter_ext.
  intros e. destruct (_ =? _)%string, (ce_isBusy e); reflexivity.
Qed.

(** *** The cleanup *)

Lemma filter_idem {A} (p : A -> bool) (l : list A) : filter p (filter p l) = filter p l.
Proof.
  induction l as [| x l IH]; simpl; [ reflexivity | ].
  destruct (p x) eqn:E; simpl; [ now rewrite E, IH | exact IH ].
Qed.

Lemma filter_none {A} (p : A -> bool) (l : list A) :
  filter p (filter (fun x => negb (p x)) l) = [].
Proof.
  induction l as [| x l IH]; simpl; [ reflexivity | ].
  destruct (p x) eqn:E; simpl; [ exact IH | now rewrite E ].
Qed.

Lemma filter_split_length {A} (p : A -> bool) (l : list A) :
  (List.length (filter p l) + List.length (filter (fun x => negb (p x)) l))%nat
  = List.length l.
Proof.
  induction l as [| x l IH]; simpl; [ reflexivity | ].
  destruct (p x); simpl; lia.
Qed.

(** The busy intervals a slot query sees after a cleanup are those it
    saw before, without the deleted ones. *)
Lemma getCalendarEvents_after_cleanup (now : Z) (integrationId : option string) (db : Db)
  (admin lo hi : Z) :
  getCalendarEvents (fst (cleanupOldEvents now integrationId db)) admin lo hi
  = match find (fun ci => (ci_userId ci =? admin)
                          && (ci_type ci =? "google-calendar")%string
                          && (ci_syncStatus ci =? "active")%string)
            (calendarIntegrations db) with
    | None => []
    | Some found =>
      map (fun e => mkSpan (ce_startTime e) (ce_endTime e))
        (filter (fun e => negb (cleanupWhere now integrationId e)
                          && ((ce_calendarIntegrationId e =? ci_id found)%string
                              && ce_isBusy e
                              && ((ce_startTime e <=? hi) && (ce_endTime e >=? lo))))
           (calendarEvents db))
    end.
Proof.
  unfold getCalendarEvents, cleanupOldEvents. simpl.
  destruct (find _ (calendarIntegrations db)); [ | reflexivity ].
  now rewrite SlotsAndBookings.filter_filter.
Qed.

(** X13: the cleanup deletes once, and can only free slots.
    [cleanupOldEvents] returns the number of cached events by which the
    table shrank and touches no other table; run again at the same
    clock reading it deletes nothing.  An empty-string integration id
    is taken as no id: the sweep then covers every integration.  Every
    slot offered before the cleanup is offered after it, and the answer
    to a slot query is unchanged when every deleted event had ended
    before the start of the queried range. *)
Theorem cleanup_deletes_once (now : Z) (integrationId : option string) (db : Db) :
  let db' := fst (cleanupOldEvents now integrationId db) in
  snd (cleanupOldEvents now integrationId db)
  = Ok (Z.of_nat (List.length (calendarEvents db))
        - Z.of_nat (List.length (calendarEvents db')))
  /\ eventsOnly db db'
  /\ cleanupOldEvents now integrationId db' = (db', Ok 0)
  /\ cleanupOldEvents now (Some "") db = cleanupOldEvents now None db
  /\ (forall fuel query slots slots' slot,
        calculateAvailableSlots fuel db query = Some slots ->
        calculateAvailableSlots fuel db' query = Some slots' ->
        In slot slots -> In slot slots')
  /\ (forall fuel query,
        (forall e, In e (calendarEvents db) -> cleanupWhere now integrationId e = true ->
                   ce_endTime e < startDate query) ->
        calculateAvailableSlots fuel db' query = calculateAvailableSlots fuel db query).
Proof.
  intros db'. subst db'. split; [ | split; [ | split; [ | split; [ | split ] ] ] ].
  - unfold cleanupOldEvents. simpl. f_equal.
    pose proof (filter_split_length (cleanupWhere now integrationId) (calendarEvents db)). lia.
  - unfold cleanupOldEvents, eventsOnly. simpl. now destruct db.
  - unfold cleanupOldEvents. simpl. rewrite filter_none. simpl. f_equal.
    unfold set_calendarEvents. simpl. f_equal.
    rewrite SlotsAndBookings.filter_filter. apply filter_ext. intros e.
    now destruct (cleanupWhere now integrationId e).
  - reflexivity.
  - intros fuel query slots slots' slot.
    rewrite !SlotFacts.calculateAvailableSlots_parts. unfold activeBlocks.
    simpl availabilityBlocks.
    destruct (filter _ (availabilityBlocks db)) as [| b0 bs]; [ congruence | ].
    destruct (allSlotsOf _ _ _ _ _ _) as [allSlots |]; [ | discriminate ].
    simpl. intros E E'. inversion E; inversion E'; subst; clear E E'.
    rewrite !SlotComputation.sortWith_In, !filter_In. intros [Hin Hfree].
    split; [ exact Hin | ]. unfold isFree in *. apply andb_true_iff in Hfree.
    destruct Hfree as [Hev Hbk]. apply andb_true_iff. split; [ | exact Hbk ].
    apply negb_true_iff. apply negb_true_iff in Hev.
    change (set_calendarEvents
              (filter (fun e => negb (cleanupWhere now integrationId e)) (calendarEvents db)) db)
      with (fst (cleanupOldEvents now integrationId db)).
    rewrite getCalendarEvents_after_cleanup. unfold getCalendarEvents in Hev.
    destruct (find _ (calendarIntegrations db)) as [found |]; [ | reflexivity ].
    rewrite SlotFacts.existsb_map in *.
    destruct (existsb _ (filter (fun e => negb _ && _) _)) eqn:Ex; [ | reflexivity ].
    exfalso. apply existsb_exists in Ex. destruct Ex as [x [Hx Hf]].
    apply filter_In in Hx. destruct Hx as [Hx Hp]. apply andb_true_iff in Hp.
    destruct Hp as [_ Hp]. apply Bool.not_true_iff_false in Hev. apply Hev.
    apply existsb_exists. exists x. split; [ apply filter_In; now split | exact Hf ].
  - intros fuel query Hended. apply slots_by_parts; try reflexivity.
    rewrite getCalendarEvents_after_cleanup. unfold getCalendarEvents.
    destruct (find _ (calendarIntegrations db)) as [found |]; [ | reflexivity ].
    f_equal. apply SlotsAndBookings.filter_ext_Forall with (P := fun e => In e (calendarEvents db)).
    + apply Forall_forall. auto.
    + intros e Hin. destruct (cleanupWhere now integrationId e) eqn:Ec; [ | reflexivity ].
      specialize (Hended e Hin Ec). simpl.
      destruct (Z.geb_spec (ce_endTime e) (startDate query)); [ lia | ].
      now rewrite !andb_false_r.
Qed.

End WithSlots.

Section Monday.
Import Examples AdminExamples.

#[local] Existing Instance isoParse.
#[local] Existing Instance utcSubDays.

(** The sync that fails half-way has still kept to its integration. *)
Lemma sync_is_local_witness :
  let db' := fst (performIncrementalSync (H := providerWithBadDate) (at_ 8 0) "integration-1"
                    (mondayDb "active")) in
  bookings db' = bookings (mondayDb "active")
  /\ availabilityBlocks db' = availabilityBlocks (mondayDb "active")
  /\ txOpened db' = txOpened (mondayDb "active")
  /\ map connectionOf (calendarIntegrations db')
     = map connectionOf (calendarIntegrations (mondayDb "active"))
  /\ (forall other, other <> "integration-1" ->
        integrationOf other db' = integrationOf other (mondayDb "active")
        /\ eventsOf other db' = eventsOf other (mondayDb "active")).
Proof.
  apply (sync_is_local (H := providerWithBadDate) performIncrementalSync (at_ 8 0)
           "integration-1" (mondayDb "active")).
  right. reflexivity.
Defined.

(** Admin 8 has hours and a calendar of their own: 14 of the 16 slots
    of the day are open, the stand-up takes two.  The full sync of
    admin 7's calendar moves the dentist and takes a slot from admin 7,
    and admin 8 is offered what was offered before. *)
Lemma sync_keeps_other_admins_slots_witness :
  MinimalAvailabilityService.calculateAvailableSlots
    (H := MinimalAvailabilityService.utcDate) (H0 := MinimalAvailabilityService.utcTz) 20
    (fst (performFullSync (H := providerRejectingToken) (at_ 8 0) "integration-1" twoAdmins))
    otherAdminsMonday
  = MinimalAvailabilityService.calculateAvailableSlots
      (H := MinimalAvailabilityService.utcDate) (H0 := MinimalAvailabilityService.utcTz) 20
      twoAdmins otherAdminsMonday
  /\ option_map (@List.length _)
       (MinimalAvailabilityService.calculateAvailableSlots
          (H := MinimalAvailabilityService.utcDate)
          (H0 := MinimalAvailabilityService.utcTz) 20 twoAdmins otherAdminsMonday)
     = Some 14%nat
  /\ option_map (@List.length _)
       (MinimalAvailabilityService.calculateAvailableSlots
          (H := MinimalAvailabilityService.utcDate)
          (H0 := MinimalAvailabilityService.utcTz) 20 twoAdmins wholeMonday)
     = Some 15%nat
  /\ option_map (@List.length _)
       (MinimalAvailabilityService.calculateAvailableSlots
          (H := MinimalAvailabilityService.utcDate)
          (H0 := MinimalAvailabilityService.utcTz) 20
          (fst (performFullSync (H := providerRejectingToken) (at_ 8 0) "integration-1"
                  twoAdmins))
          wholeMonday)
     = Some 14%nat.
Proof.
  split; [ | repeat split; vm_compute; reflexivity ].
  apply (sync_keeps_other_admins_slots (H := providerRejectingToken)
           (H2 := MinimalAvailabilityService.utcDate) (H3 := MinimalAvailabilityService.utcTz)
           performFullSync (at_ 8 0) "integration-1" twoAdmins 20 otherAdminsMonday).
  - left. reflexivity.
  - intros ci [<- | [<- | []]] Hid; [ simpl; discriminate | discriminate Hid ].
Defined.

Lemma replayed_listing_only_restamps_witness :
  1 = Z.of_nat (List.length (filter processed onePage))
  /\ forall now2,
       processSyncEvents now2 "integration-1" onePage afterOnePage
       = (restamped now2 "integration-1" onePage afterOnePage, Ok 1).
Proof.
  apply (replayed_listing_only_restamps (at_ 8 0) "integration-1" onePage
           (mondayDb "active") afterOnePage 1).
  vm_compute. reflexivity.
Defined.

(** The kick-off of last spring is swept, the dentist stays. *)
Lemma cleanup_deletes_once_witness :
  snd (cleanupOldEvents monday None withOldEvent)
  = Ok (Z.of_nat (List.length (calendarEvents withOldEvent))
        - Z.of_nat (List.length
                      (calendarEvents (fst (cleanupOldEvents monday None withOldEvent))))).
Proof.
  apply (proj1 (cleanup_deletes_once (H2 := MinimalAvailabilityService.utcDate)
                  (H3 := MinimalAvailabilityService.utcTz) monday None withOldEvent)).
Defined.

End Monday.

End SyncFacts.

(** ** More on the credential vault *)

Module ConnectFacts.
Import Store Async Exn CalendarSyncService CalendarAuthService CalendarConnect.

Section Vault.
Context `{Crypto} `{GoogleOAuth}.

(** What [refreshTokens] does to the store: nothing, with an error, or
    one update of the token columns, without one. *)
Lemma refreshTokens_shape (now : Z) (integrationId : string) (db : Db) :
  (exists error, refreshTokens now integrationId db = (db, Throw error))
  \/ (exists accessToken refreshToken tokenExpiresAt,
        refreshTokens now integrationId db
        = (updateById integrationId (storeTokens accessToken refreshToken tokenExpiresAt) db,
           Ok tt)).
Proof.
  unfold refreshTokens, try_catch, bind, calendarIntegration_findUnique,
    CalendarSyncService.calendarIntegration_findUnique, gets, liftResult, throw.
  destruct (find _ (calendarIntegrations db)) as [ci |] eqn:Ef; [ | left; eauto ].
  destruct (Js.truthy (ci_refreshToken ci)); simpl; [ | left; eauto ].
  destruct (ci_refreshToken ci) as [stored |] eqn:Es; [ | left; eauto ].
  destruct (symmetricDecrypt stored) as [refreshToken | e1]; [ | left; eauto ].
  destruct getGoogleAppKeys as [keys | e2]; [ | left; eauto ].
  destruct (refreshAccessToken (fst keys) (snd keys)) as [newTokens | e3]; [ | left; eauto ].
  destruct (Js.truthy (access_token newTokens)) eqn:Ea; simpl; [ | left; eauto ].
  unfold CalendarSyncService.calendarIntegration_update.
  destruct (existsb _ _); [ right; eauto | left; eauto ].
Qed.

Lemma ensureValidToken_shape (now nowAtRefresh : Z) (integrationId : string) (db : Db) :
  (exists error, ensureValidToken now nowAtRefresh integrationId db = (db, Throw error))
  \/ ensureValidToken now nowAtRefresh integrationId db = (db, Ok tt)
  \/ (exists accessToken refreshToken tokenExpiresAt,
        ensureValidToken now nowAtRefresh integrationId db
        = (updateById integrationId (storeTokens accessToken refreshToken tokenExpiresAt) db,
           Ok tt)).
Proof.
  unfold ensureValidToken, bind, calendarIntegration_findUnique,
    CalendarSyncService.calendarIntegration_findUnique, gets, throw, ret.
  destruct (find _ (calendarIntegrations db)) as [ci |]; [ | left; eauto ].
  destruct (ci_tokenExpiresAt ci) as [expiresAt |]; [ | right; left; reflexivity ].
  destruct (expiresAt - now <? fiveMinutes); [ | right; left; reflexivity ].
  destruct (refreshTokens_shape nowAtRefresh integrationId db) as [Hr | Hr]; auto.
Qed.

Lemma storeTokens_local (integrationId : string) (accessToken : string)
  (refreshToken : option string) (tokenExpiresAt : Z) (db : Db) :
  let db' := updateById integrationId (storeTokens accessToken refreshToken tokenExpiresAt) db in
  bookings db' = bookings db
  /\ availabilityBlocks db' = availabilityBlocks db
  /\ calendarEvents db' = calendarEvents db
  /\ txOpened db' = txOpened db
  /\ map syncColumnsOf (calendarIntegrations db') = map syncColumnsOf (calendarIntegrations db).
Proof.
  simpl. repeat split. rewrite map_map. apply map_ext. intros ci.
  destruct (ci_id ci =? integrationId)%string; reflexivity.
Qed.

(** X14: a token refresh is all or nothing, and keeps to the token
    columns.  When [refreshTokens] or [ensureValidToken] rejects, the
    store is exactly as before; when they resolve, the bookings, the
    availability blocks, the cached events and the sync columns of
    every integration (sync token, last sync, status, error, calendar
    id, owner) are as before. *)
Theorem refresh_is_all_or_nothing (now nowAtRefresh : Z) (integrationId : string) (db : Db)
  (refresh : M Thrown unit) :
  refresh = refreshTokens nowAtRefresh integrationId
  \/ refresh = ensureValidToken now nowAtRefresh integrationId ->
  (forall error, snd (refresh db) = Throw error -> fst (refresh db) = db)
  /\ bookings (fst (refresh db)) = bookings db
  /\ availabilityBlocks (fst (refresh db)) = availabilityBlocks db
  /\ calendarEvents (fst (refresh db)) = calendarEvents db
  /\ txOpened (fst (refresh db)) = txOpened db
  /\ map syncColumnsOf (calendarIntegrations (fst (refresh db)))
     = map syncColumnsOf (calendarIntegrations db).
Proof.
  intros Hrefresh.
  assert (Hshape : (exists r, refresh db = (db, r))
                   \/ (exists accessToken refreshToken tokenExpiresAt,
                         refresh db
                         = (updateById integrationId
                              (storeTokens accessToken refreshToken tokenExpiresAt) db, Ok tt))).
  { destruct Hrefresh as [-> | ->].
    - destruct (refreshTokens_shape nowAtRefresh integrationId db) as [[e E] | E]; eauto.
    - destruct (ensureValidToken_shape now nowAtRefresh integrationId db)
        as [[e E] | [E | E]]; eauto. }
  destruct Hshape as [[r ->] | [a [r [t ->]]]].
  - repeat split; reflexivity.
  - split; [ discriminate | ]. apply storeTokens_local.
Qed.

End Vault.

Section Connect.
Context `{Crypto} `{GoogleOAuth} `{OAuthCode} `{Json}.

(** What a successful exchange has done. *)
Lemma exchange_inv (now : Z) (newId : string) (userId : Z) (code redirectUri : string)
  (db db' : Db) (integrationId : string) :
  exchangeCodeForTokens now newId userId code redirectUri db = (db', Ok integrationId) ->
  exists keys tokens row,
    getGoogleAppKeys = Ok keys
    /\ getToken (fst keys) (snd keys) redirectUri code = Ok tokens
    /\ Js.truthy (t_access_token tokens) = true
    /\ calendarIntegration_upsert newId userId
         (symmetricEncrypt (stringifyTokens tokens))
         (if Js.truthy (t_refresh_token tokens)
          then option_map symmetricEncrypt (t_refresh_token tokens) else None)
         (expiresAtOf now (t_expiry_date tokens)) db
       = (db', Ok row)
    /\ integrationId = ci_id row.
Proof.
  unfold exchangeCodeForTokens, try_catch, bind, liftResult, throw, ret.
  destruct getGoogleAppKeys as [keys | e1] eqn:Ek; [ | discriminate ].
  destruct (getToken (fst keys) (snd keys) redirectUri code) as [tokens | e2] eqn:Et;
    [ | discriminate ].
  destruct (Js.truthy (t_access_token tokens)) eqn:Ea; simpl; [ | discriminate ].
  assert (Hsame : mkTokens (t_access_token tokens) (t_refresh_token tokens)
                    (t_expiry_date tokens) (t_token_type tokens) (t_scope tokens) = tokens)
    by now destruct tokens.
  rewrite Hsame.
  destruct (calendarIntegration_upsert _ _ _ _ _ db) as [db1 [row | e3]] eqn:Eu;
    [ | discriminate ].
  intros E. inversion E; subst. exists keys, tokens, row. repeat split; auto.
Qed.

Lemma find_updated_by_id (p : CalendarIntegration -> bool)
  (data : CalendarIntegration -> CalendarIntegration) (l : list CalendarIntegration)
  (found : CalendarIntegration) :
  (forall ci, ci_id (data ci) = ci_id ci) ->
  NoDup (map ci_id l) -> In found l -> p found = true ->
  find (fun ci => (ci_id ci =? ci_id found)%string)
    (map (fun ci => if p ci then data ci else ci) l)
  = Some (data found).
Proof.
  intros Hid. induction l as [| ci l IH]; intros Hnd Hin Hp; [ contradiction | ].
  inversion Hnd as [| ? ? Hfresh Hnd']; subst. cbn [map find].
  destruct Hin as [-> | Hin].
  - rewrite Hp, Hid, String.eqb_refl. reflexivity.
  - assert (Hne : ci_id ci <> ci_id found).
    { intros E. apply Hfresh. rewrite E. now apply in_map. }
    assert ((ci_id (if p ci then data ci else ci) =? ci_id found)%string = false) as ->.
    { apply String.eqb_neq. destruct (p ci); now rewrite ?Hid. }
    now apply IH.
Qed.

Lemma find_appended (integrationId : string) (l : list CalendarIntegration)
  (row : CalendarIntegration) :
  find (fun ci => (ci_id ci =? integrationId)%string) l = None ->
  ci_id row = integrationId ->
  find (fun ci => (ci_id ci =? integrationId)%string) (l ++ [row]) = Some row.
Proof.
  intros Hnone Hid. induction l as [| ci l IH]; simpl in *.
  - now rewrite Hid, String.eqb_refl.
  - destruct (ci_id ci =? integrationId)%string; [ discriminate | now apply IH ].
Qed.

(** X15: what the exchange stores, [getOAuthClient] reads back.  On a
    store with unique integration ids, where the id offered for a new
    row is not in use, and with an encryption and a JSON layer that
    give back the document they were given, [getOAuthClient] on the id
    that [exchangeCodeForTokens] returned yields the client of the app
    keys carrying exactly the tokens the provider issued; the stored
    row is disconnected, without error, and expires as the provider
    said: never, when it said nothing. *)
Theorem connect_round_trip (now : Z) (newId : string) (userId : Z) (code redirectUri : string)
  (db db' : Db) (integrationId : string) :
  exchangeCodeForTokens now newId userId code redirectUri db = (db', Ok integrationId) ->
  NoDup (map ci_id (calendarIntegrations db)) ->
  integrationOf newId db = None ->
  (forall keys tokens,
     getGoogleAppKeys = Ok keys ->
     getToken (fst keys) (snd keys) redirectUri code = Ok tokens ->
     symmetricDecrypt (symmetricEncrypt (stringifyTokens tokens)) = Ok (stringifyTokens tokens)
     /\ parseTokens (stringifyTokens tokens) = Ok tokens) ->
  exists keys tokens row,
    getGoogleAppKeys = Ok keys
    /\ getToken (fst keys) (snd keys) redirectUri code = Ok tokens
    /\ getOAuthClient integrationId db' = (db', Ok (mkClient (fst keys) (snd keys) tokens))
    /\ integrationOf integrationId db' = Some row
    /\ ci_userId row = userId /\ ci_type row = "google-calendar"
    /\ ci_syncStatus row = "disconnected" /\ ci_syncError row = None
    /\ ci_tokenExpiresAt row = expiresAtOf now (t_expiry_date tokens)
    /\ (t_expiry_date tokens = Undefined ->
        forall clock clockAtRefresh,
          ensureValidToken clock clockAtRefresh integrationId db' = (db', Ok tt)).
Proof.
  intros Hok Hnd Hfresh Hround.
  destruct (exchange_inv _ _ _ _ _ _ _ _ Hok) as [keys [tokens [row [Ek [Et [Ea [Eu ->]]]]]]].
  exists keys, tokens, row. split; [ exact Ek | ]. split; [ exact Et | ].
  assert (Hrow : integrationOf (ci_id row) db' = Some row
                 /\ ci_accessToken row = symmetricEncrypt (stringifyTokens tokens)
                 /\ ci_userId row = userId /\ ci_type row = "google-calendar"
                 /\ ci_syncStatus row = "disconnected" /\ ci_syncError row = None
                 /\ ci_tokenExpiresAt row = expiresAtOf now (t_expiry_date tokens)).
  { unfold calendarIntegration_upsert in Eu.
    destruct (find (userId_type userId) (calendarIntegrations db)) as [found |] eqn:Ef.
    - inversion Eu; subst; clear Eu. apply find_some in Ef. destruct Ef as [Hin Hp].
      unfold userId_type in Hp. apply andb_true_iff in Hp as Hp'. destruct Hp' as [Hu Hty].
      apply Z.eqb_eq in Hu. apply String.eqb_eq in Hty.
      unfold integrationOf. simpl calendarIntegrations.
      change (ci_id (reconnected _ _ _ found)) with (ci_id found).
      rewrite (find_updated_by_id (userId_type userId)
                 (reconnected (symmetricEncrypt (stringifyTokens tokens))
                    (if Js.truthy (t_refresh_token tokens)
                     then option_map symmetricEncrypt (t_refresh_token tokens) else None)
                    (expiresAtOf now (t_expiry_date tokens)))
                 _ found (fun ci => eq_refl) Hnd Hin Hp).
      repeat split; auto.
    - inversion Eu; subst; clear Eu. unfold integrationOf. simpl.
      split; [ | repeat split ]. now apply find_appended. }
  destruct Hrow as [Hfind [Hacc [Hu [Hty [Hst [Her Hex]]]]]].
  split; [ | split; [ exact Hfind | repeat split; auto ] ].
  - unfold getOAuthClient, bind, calendarIntegration_findUnique,
      CalendarSyncService.calendarIntegration_findUnique, gets, liftResult, ret.
    fold (integrationOf (ci_id row) db'). rewrite Hfind, Hacc.
    destruct (Hround keys tokens Ek Et) as [-> ->]. rewrite Ek. now destruct tokens.
  - intros Hundef clock clockAtRefresh.
    unfold ensureValidToken, bind, calendarIntegration_findUnique,
      CalendarSyncService.calendarIntegration_findUnique, gets, ret.
    fold (integrationOf (ci_id row) db'). rewrite Hfind, Hex, Hundef. reflexivity.
Qed.

End Connect.

Section WithSlots.
Context `{Crypto} `{GoogleOAuth} `{OAuthCode} `{Json}.
Context `{MinimalAvailabilityService.LocalDate} `{MinimalAvailabilityService.DateFnsTz}.
Import MinimalAvailabilityService.

Lemma find_none_after_reconnect (userId : Z) (accessToken : string)
  (refreshToken : option string) (tokenExpiresAt : option Z) (l : list CalendarIntegration) :
  find (fun ci => (ci_userId ci =? userId)
                  && (ci_type ci =? "google-calendar")%string
                  && (ci_syncStatus ci =? "active")%string)
    (map (fun ci => if userId_type userId ci
                    then reconnected accessToken refreshToken tokenExpiresAt ci else ci) l)
  = None.
Proof.
  induction l as [| ci l IH]; [ reflexivity | ]. cbn [map find].
  destruct (userId_type userId ci) eqn:Ep.
  - simpl. rewrite andb_false_r. exact IH.
  - unfold userId_type in Ep. rewrite Ep. exact IH.
Qed.

(** X16: connecting again hides the cached calendar until a sync
    succeeds.  After a successful [exchangeCodeForTokens] the admin's
    integration is disconnected, so [calculateAvailableSlots] answers
    the admin's queries as if no event were cached; yet the cached
    events stay stored, the bookings and blocks are untouched, and an
    integration that existed keeps its id, its sync token and its
    last-sync time. *)
Theorem reconnect_hides_cached_events (now : Z) (newId : string) (admin : Z)
  (code redirectUri : string) (db db' : Db) (integrationId : string) :
  exchangeCodeForTokens now newId admin code redirectUri db = (db', Ok integrationId) ->
  calendarEvents db' = calendarEvents db
  /\ bookings db' = bookings db
  /\ availabilityBlocks db' = availabilityBlocks db
  /\ (forall ci, In ci (calendarIntegrations db) -> userId_type admin ci = true ->
        exists ci', In ci' (calendarIntegrations db')
                    /\ ci_id ci' = ci_id ci /\ ci_syncToken ci' = ci_syncToken ci
                    /\ ci_lastSyncAt ci' = ci_lastSyncAt ci
                    /\ ci_syncStatus ci' = "disconnected")
  /\ (forall fuel query,
        userId query = admin ->
        calculateAvailableSlots fuel db' query
        = calculateAvailableSlots fuel (set_calendarEvents [] db) query).
Proof.
  intros Hok.
  destruct (exchange_inv _ _ _ _ _ _ _ _ Hok) as [keys [tokens [row [Ek [Et [Ea [Eu ->]]]]]]].
  unfold calendarIntegration_upsert in Eu.
  destruct (find (userId_type admin) (calendarIntegrations db)) as [found |] eqn:Ef;
    inversion Eu; subst; clear Eu; (split; [ reflexivity | ]); (split; [ reflexivity | ]);
    (split; [ reflexivity | ]); split.
  - intros ci Hin Hp. eexists. split.
    + simpl. apply in_map_iff. exists ci. split; [ reflexivity | exact Hin ].
    + rewrite Hp. repeat split.
  - intros fuel query <-. apply SyncFacts.slots_by_parts; try reflexivity.
    unfold getCalendarEvents. simpl calendarIntegrations. simpl calendarEvents.
    rewrite find_none_after_reconnect.
    match goal with |- _ = match ?found with _ => _ end => destruct found end; reflexivity.
  - intros ci Hin Hp. exfalso. apply (find_none _ _ Ef) in Hin. congruence.
  - intros fuel query <-. apply SyncFacts.slots_by_parts; try reflexivity.
    unfold getCalendarEvents. simpl calendarIntegrations. simpl calendarEvents.
    assert (Hnone : find (fun ci => (ci_userId ci =? userId query)
                                    && (ci_type ci =? "google-calendar")%string
                                    && (ci_syncStatus ci =? "active")%string)
                      (calendarIntegrations db ++
                       [mkIntegration newId (userId query) "google-calendar"
                          (symmetricEncrypt (stringifyTokens tokens))
                          (if Js.truthy (t_refresh_token tokens)
                           then option_map symmetricEncrypt (t_refresh_token tokens) else None)
                          (expiresAtOf now (t_expiry_date tokens)) "primary" None None
                          "disconnected" None]) = None).
    { clear - Ef. induction (calendarIntegrations db) as [| ci l IH]; simpl in *.
      - now rewrite andb_false_r.
      - unfold userId_type in Ef at 1.
        destruct ((ci_userId ci =? userId query) && _); [ discriminate | ]. simpl.
        now apply IH. }
    rewrite Hnone.
    match goal with |- _ = match ?found with _ => _ end => destruct found end; reflexivity.
Qed.

End WithSlots.

Section Monday.
Import Examples AdminExamples.

(** Without a stored refresh token the refresh fails, and nothing is
    written. *)
Lemma refresh_is_all_or_nothing_witness :
  fst (ensureValidToken (H := toyCrypto) (H0 := refreshWithoutRefreshToken)
         (at_ 8 0) (at_ 8 0) "integration-1" withoutRefreshToken) = withoutRefreshToken.
Proof.
  apply (proj1 (refresh_is_all_or_nothing (H := toyCrypto) (H0 := refreshWithoutRefreshToken)
                  (at_ 8 0) (at_ 8 0) "integration-1" withoutRefreshToken
                  (ensureValidToken (H := toyCrypto) (H0 := refreshWithoutRefreshToken)
                     (at_ 8 0) (at_ 8 0) "integration-1")
                  (or_intror eq_refl))
           (JsError "No refresh token available")).
  reflexivity.
Defined.

Lemma connect_round_trip_witness :
  exists keys tokens row,
    getGoogleAppKeys (GoogleOAuth := refreshWithoutRefreshToken) = Ok keys
    /\ getToken (OAuthCode := issuing) (fst keys) (snd keys)
         "https://cal.example/callback" "code-1" = Ok tokens
    /\ getOAuthClient (H := toyCrypto) (H0 := refreshWithoutRefreshToken) (H2 := toyJson)
         "integration-2" afterFirstConnect
       = (afterFirstConnect, Ok (mkClient (fst keys) (snd keys) tokens))
    /\ integrationOf "integration-2" afterFirstConnect = Some row
    /\ ci_userId row = 8 /\ ci_type row = "google-calendar"
    /\ ci_syncStatus row = "disconnected" /\ ci_syncError row = None
    /\ ci_tokenExpiresAt row = expiresAtOf (at_ 8 0) (t_expiry_date tokens)
    /\ (t_expiry_date tokens = Undefined ->
        forall clock clockAtRefresh,
          ensureValidToken (H := toyCrypto) (H0 := refreshWithoutRefreshToken)
            clock clockAtRefresh "integration-2" afterFirstConnect
          = (afterFirstConnect, Ok tt)).
Proof.
  apply (connect_round_trip (H := toyCrypto) (H0 := refreshWithoutRefreshToken)
           (H1 := issuing) (H2 := toyJson)
           (at_ 8 0) "integration-2" 8 "code-1" "https://cal.example/callback"
           (mondayDb "active") afterFirstConnect "integration-2").
  - vm_compute. reflexivity.
  - repeat constructor. simpl. tauto.
  - reflexivity.
  - intros keys tokens Ek Et. inversion Et; subst. vm_compute. split; reflexivity.
Defined.

Lemma reconnect_hides_cached_events_witness :
  MinimalAvailabilityService.calculateAvailableSlots
    (H := MinimalAvailabilityService.utcDate) (H0 := MinimalAvailabilityService.utcTz)
    20%nat afterReconnect wholeMonday
  = MinimalAvailabilityService.calculateAvailableSlots
      (H := MinimalAvailabilityService.utcDate) (H0 := MinimalAvailabilityService.utcTz)
      20%nat (set_calendarEvents [] (mondayDb "active")) wholeMonday.
Proof.
  refine (proj2 (proj2 (proj2 (proj2
           (reconnect_hides_cached_events (H := toyCrypto) (H0 := refreshWithoutRefreshToken)
              (H1 := issuing) (H2 := toyJson)
              (H3 := MinimalAvailabilityService.utcDate)
              (H4 := MinimalAvailabilityService.utcTz)
              (at_ 8 0) "integration-2" 7 "code-1" "https://cal.example/callback"
              (mondayDb "active") afterReconnect "integration-1" _))))
           20%nat wholeMonday eq_refl).
  vm_compute. reflexivity.
Defined.

End Monday.

End ConnectFacts.

(** ** The calendar sync job *)

Module SyncJobFacts.
Import Store Async Exn CalendarSyncService CalendarAuthService CalendarConnect SyncParts SyncJob.

Lemma aside_refl (integrationId : string) (db : Db) : aside integrationId db db.
Proof. repeat split. Qed.

Lemma aside_trans (integrationId : string) (db1 db2 db3 : Db) :
  aside integrationId db1 db2 -> aside integrationId db2 db3 -> aside integrationId db1 db3.
Proof.
  intros [B1 [A1 [I1 O1]]] [B2 [A2 [I2 O2]]]. repeat split; try congruence.
  intros other Hne. now rewrite O2, O1.
Qed.

Lemma aside_updateById (integrationId : string)
  (data : CalendarIntegration -> CalendarIntegration) (db : Db) :
  (forall ci, ci_id (data ci) = ci_id ci) ->
  aside integrationId db (updateById integrationId data db).
Proof.
  intros Hid. repeat split.
  - simpl. rewrite map_map. apply map_ext. intros ci.
    destruct (ci_id ci =? integrationId)%string; [ apply Hid | reflexivity ].
  - intros other Hne. unfold integrationOf, updateById. simpl.
    induction (calendarIntegrations db) as [| ci l IH]; simpl; [ reflexivity | ].
    destruct (ci_id ci =? integrationId)%string eqn:E; simpl; [ | now rewrite IH ].
    rewrite Hid. apply String.eqb_eq in E.
    assert ((ci_id ci =? other)%string = false) as -> by (apply String.eqb_neq; congruence).
    exact IH.
Qed.

Lemma aside_eventsOnly (integrationId : string) (db db' : Db) :
  eventsOnly db db' -> aside integrationId db db'.
Proof. unfold eventsOnly. intros ->. repeat split. Qed.

Section Job.
Context `{Crypto} `{GoogleOAuth} `{Json} `{DateParse} `{DateFns}.
Variable calendarOf : OAuth2Client -> GoogleCalendar.
Variable readings : nat -> Readings.
Variable atCleanup : Z.

Lemma ensureValidToken_aside (now nowAtRefresh : Z) (integrationId : string) (db : Db) :
  aside integrationId db (fst (ensureValidToken now nowAtRefresh integrationId db)).
Proof.
  destruct (ConnectFacts.ensureValidToken_shape now nowAtRefresh integrationId db)
    as [[e ->] | [-> | [a [r [t ->]]]]]; try apply aside_refl.
  apply aside_updateById. reflexivity.
Qed.

Lemma getOAuthClient_reads (integrationId : string) (db : Db) :
  fst (getOAuthClient integrationId db) = db.
Proof.
  unfold getOAuthClient, bind, calendarIntegration_findUnique,
    CalendarSyncService.calendarIntegration_findUnique, gets, liftResult, throw, ret.
  destruct (find _ (calendarIntegrations db)) as [ci |]; [ | reflexivity ].
  destruct (symmetricDecrypt (ci_accessToken ci)) as [text |]; [ | reflexivity ].
  destruct (parseTokens text) as [tokens |]; [ | reflexivity ].
  destruct getGoogleAppKeys; reflexivity.
Qed.

Lemma performIncrementalSync_aside (client : OAuth2Client) (now : Z) (integrationId : string)
  (db : Db) :
  aside integrationId db
    (fst (performIncrementalSync (H := calendarOf client) now integrationId db)).
Proof.
  destruct (SyncFacts.sync_shape (H := calendarOf client) performIncrementalSync now
              integrationId db (or_intror eq_refl)) as [-> | [events [data [-> Hdata]]]];
    [ apply aside_refl | ].
  eapply aside_trans.
  - apply aside_eventsOnly.
    apply SyncEngine.processSyncEvents_stable.
  - apply aside_updateById. intros ci. specialize (Hdata ci). now inversion Hdata.
Qed.

Lemma syncOne_aside (k : nat) (integrationId : string) (db : Db) :
  aside integrationId db (fst (syncOne calendarOf readings k integrationId db)).
Proof.
  unfold syncOne, bind.
  pose proof (ensureValidToken_aside (atCheck (readings k)) (atRefresh (readings k))
                integrationId db) as He.
  destruct (ensureValidToken _ _ integrationId db) as [db1 [[] | e1]]; [ | exact He ].
  simpl in He. pose proof (getOAuthClient_reads integrationId db1) as Hg.
  destruct (getOAuthClient integrationId db1) as [db2 [client | e2]]; simpl in Hg; subst db2;
    [ | exact He ].
  eapply aside_trans; [ exact He | apply performIncrementalSync_aside ].
Qed.

(** One round never rejects, counts the integration once, as synced or
    as failed, and keeps to its integration. *)
Lemma syncRound_counts (k : nat) (integration : CalendarIntegration) (result : SyncJobResult)
  (db : Db) :
  exists db' result',
    syncRound calendarOf readings k integration result db = (db', Ok result')
    /\ aside (ci_id integration) db db'
    /\ integrationsProcessed result' = integrationsProcessed result + 1
    /\ integrationsSynced result' + integrationsFailed result'
       = integrationsSynced result + integrationsFailed result + 1
    /\ integrationsSynced result <= integrationsSynced result'
    /\ integrationsFailed result <= integrationsFailed result'.
Proof.
  unfold syncRound, try_catch, bind, ret.
  pose proof (syncOne_aside k (ci_id integration) db) as Ha.
  destruct (syncOne calendarOf readings k (ci_id integration) db) as [db1 [syncResult | e]];
    simpl in Ha.
  - destruct (negb (hasError syncResult)); eexists; eexists;
      (split; [ reflexivity | ]); (split; [ exact Ha | ]); simpl; lia.
  - eexists; eexists; (split; [ reflexivity | ]); (split; [ exact Ha | ]); simpl; lia.
Qed.

Lemma syncLoop_counts (integrations : list CalendarIntegration) (k : nat)
  (result : SyncJobResult) (db : Db) :
  exists db' result',
    syncLoop calendarOf readings k integrations result db = (db', Ok result')
    /\ bookings db' = bookings db
    /\ availabilityBlocks db' = availabilityBlocks db
    /\ map ci_id (calendarIntegrations db') = map ci_id (calendarIntegrations db)
    /\ (forall other, ~ In other (map ci_id integrations) ->
          integrationOf other db' = integrationOf other db)
    /\ integrationsProcessed result'
       = integrationsProcessed result + Z.of_nat (List.length integrations)
    /\ integrationsSynced result' + integrationsFailed result'
       = integrationsSynced result + integrationsFailed result
         + Z.of_nat (List.length integrations)
    /\ integrationsSynced result <= integrationsSynced result'
    /\ integrationsFailed result <= integrationsFailed result'.
Proof.
  revert k result db. induction integrations as [| integration rest IH]; intros k result db.
  - exists db, result. simpl. repeat split; auto; lia.
  - cbn [syncLoop]. unfold bind.
    destruct (syncRound_counts k integration result db)
      as [db1 [r1 [-> [[B1 [A1 [I1 O1]]] [P1 [S1 [L1 F1]]]]]]].
    destruct (IH (S k) r1 db1) as [db2 [r2 [-> [B2 [A2 [I2 [O2 [P2 [S2 [L2 F2]]]]]]]]]].
    exists db2, r2. split; [ reflexivity | ].
    repeat split; try congruence.
    + intros other Hnot. rewrite O2, O1; auto.
      * intros E. apply Hnot. left. auto.
      * intros Hin. apply Hnot. now right.
    + cbn [List.length]. rewrite Nat2Z.inj_succ. lia.
    + cbn [List.length]. rewrite Nat2Z.inj_succ. lia.
    + lia.
    + lia.
Qed.

Lemma integrationOf_unique (db : Db) (ci : CalendarIntegration) :
  NoDup (map ci_id (calendarIntegrations db)) -> In ci (calendarIntegrations db) ->
  integrationOf (ci_id ci) db = Some ci.
Proof.
  unfold integrationOf. induction (calendarIntegrations db) as [| x l IH]; intros Hnd Hin;
    [ contradiction | ].
  inversion Hnd as [| ? ? Hfresh Hnd']; subst. simpl.
  destruct Hin as [-> | Hin]; [ now rewrite String.eqb_refl | ].
  destruct (String.eqb_spec (ci_id x) (ci_id ci)) as [E | E]; [ | now apply IH ].
  exfalso. apply Hfresh. rewrite E. now apply in_map.
Qed.

(** X17: the sync job counts every active integration once and leaves
    the others alone.  [syncAllCalendars] always resolves: a failure
    for one integration, rejected or reported, is counted and the loop
    goes on.  [integrationsProcessed] is the number of integrations
    that were active when the job started, and equals
    [integrationsSynced + integrationsFailed].  The job changes no
    booking and no availability block, neither adds nor removes an
    integration, and, ids being unique, leaves every integration that
    was not active (disconnected, or in error) exactly as it was: an
    integration in error is never retried by the job. *)
Theorem job_counts_active_integrations (db : Db) :
  exists db' result,
    syncAllCalendars calendarOf readings atCleanup db = (db', Ok result)
    /\ integrationsProcessed result
       = Z.of_nat (List.length (filter (fun ci => (ci_syncStatus ci =? "active")%string)
                                  (calendarIntegrations db)))
    /\ integrationsProcessed result = integrationsSynced result + integrationsFailed result
    /\ 0 <= integrationsSynced result /\ 0 <= integrationsFailed result
    /\ bookings db' = bookings db
    /\ availabilityBlocks db' = availabilityBlocks db
    /\ map ci_id (calendarIntegrations db') = map ci_id (calendarIntegrations db)
    /\ (NoDup (map ci_id (calendarIntegrations db)) ->
        forall ci, In ci (calendarIntegrations db) -> ci_syncStatus ci <> "active" ->
                   integrationOf (ci_id ci) db' = Some ci).
Proof.
  unfold syncAllCalendars, try_catch, bind, gets.
  set (active := filter _ (calendarIntegrations db)).
  destruct (syncLoop_counts active 0 (mkJobResult 0 0 0 0) db)
    as [db1 [r [-> [B [A [I [O [P [S [L F]]]]]]]]]].
  simpl in P, S, L, F. unfold cleanupOldEvents, ret. simpl.
  eexists. eexists. split; [ reflexivity | ]. simpl.
  repeat split; auto; try lia.
  intros Hnd ci Hin Hst. unfold integrationOf in *. simpl.
  rewrite O.
  - now apply (integrationOf_unique db ci).
  - intros Hact. apply in_map_iff in Hact. destruct Hact as [ci' [Hid Hin']].
    apply filter_In in Hin'. destruct Hin' as [Hin' Hactive].
    assert (ci' = ci) as ->.
    { apply (BookingAdminFacts.NoDup_map_inj ci_id (calendarIntegrations db)); auto. }
    apply String.eqb_eq in Hactive. contradiction.
Qed.

End Job.

Section Monday.
Import Examples AdminExamples.

(** On the Monday calendar the stored access token is no ciphertext of
    the vault: the one active integration is counted as failed, and the
    job resolves. *)
Lemma job_counts_active_integrations_witness :
  exists db' result,
    syncAllCalendars (H := toyCrypto) (H0 := refreshWithoutRefreshToken) (H1 := toyJson)
      (H2 := isoParse) (H3 := utcSubDays)
      (fun _ => providerWithBadDate) (fun _ => mkReadings (at_ 8 0) (at_ 8 0) (at_ 8 0))
      (at_ 8 5) (mondayDb "active") = (db', Ok result)
    /\ integrationsProcessed result = 1
    /\ integrationsProcessed result = integrationsSynced result + integrationsFailed result.
Proof.
  destruct (job_counts_active_integrations (H := toyCrypto) (H0 := refreshWithoutRefreshToken)
              (H1 := toyJson) (H2 := isoParse) (H3 := utcSubDays)
              (fun _ => providerWithBadDate)
              (fun _ => mkReadings (at_ 8 0) (at_ 8 0) (at_ 8 0))
              (at_ 8 5) (mondayDb "active")) as [db' [result [E [P [T _]]]]].
  exists db', result. split; [ exact E | ]. split; [ exact P | exact T ].
Defined.

End Monday.

End SyncJobFacts.

(** ** The rate limit *)

Module RateLimitFacts.
Import RateLimit.

Lemma set_same (ip : string) (entry : RateLimitEntry) (store : RateLimitStore) :
  set ip entry store ip = Some entry.
Proof. unfold set. now rewrite String.eqb_refl. Qed.

Lemma set_other (ip other : string) (entry : RateLimitEntry) (store : RateLimitStore) :
  other <> ip -> set ip entry store other = store other.
Proof. unfold set. intros Hne. apply String.eqb_neq in Hne. now rewrite Hne. Qed.

(** Inside an open window the counter decides. *)
Lemma verdicts_in_window (ip : string) (closes : Z) (times : list Z) :
  Forall (fun now => now <= closes) times ->
  forall (store : RateLimitStore) (c : Z),
    store ip = Some (mkEntry c closes) -> 1 <= c <= RATE_LIMIT_COUNT ->
    verdicts ip times store
    = map (fun j => verdictOf closes (c + Z.of_nat j)) (seq 0 (List.length times)).
Proof.
  induction 1 as [| now later Hnow _ IH]; intros store c Hentry Hc; [ reflexivity | ].
  cbn [verdicts List.length seq map]. unfold isRateLimited. rewrite Hentry. simpl resetAt.
  destruct (Z.ltb_spec closes now) as [Hexp | _]; [ lia | ]. simpl count.
  rewrite <- seq_shift, map_map. unfold RATE_LIMIT_COUNT in *.
  destruct (Z.geb_spec c 10) as [Hfull | Hroom].
  - f_equal.
    + unfold verdictOf, RATE_LIMIT_COUNT. rewrite Z.add_0_r.
      destruct (Z.ltb_spec c 10); [ lia | reflexivity ].
    + assert (c = 10) as -> by lia. rewrite (IH store 10 Hentry) by (unfold RATE_LIMIT_COUNT; lia).
      apply map_ext. intros j. unfold verdictOf, RATE_LIMIT_COUNT.
      destruct (Z.ltb_spec (10 + Z.of_nat j) 10); [ lia | ].
      destruct (Z.ltb_spec (10 + Z.of_nat (S j)) 10); [ lia | reflexivity ].
  - f_equal.
    + unfold verdictOf, RATE_LIMIT_COUNT. rewrite Z.add_0_r.
      destruct (Z.ltb_spec c 10); [ reflexivity | lia ].
    + rewrite (IH _ (c + 1) (set_same ip _ store)) by (unfold RATE_LIMIT_COUNT; lia).
      apply map_ext. intros j. f_equal. lia.
Qed.

(** X18: a window lets exactly ten requests pass.  When a request of an
    address opens a window (the address has no entry, or its entry has
    lapsed) at [opened], then, of the requests of that address made up
    to and including the instant the window closes, one hour later,
    the first ten pass, with 9, 8, ..., 0 remaining, and every further
    one is limited, with the closing instant as [resetAt]. *)
Theorem window_lets_ten_pass (ip : string) (opened : Z) (later : list Z)
  (store : RateLimitStore) :
  (forall entry, store ip = Some entry -> resetAt entry < opened) ->
  Forall (fun now => now <= opened + RATE_LIMIT_WINDOW_MS) later ->
  verdicts ip (opened :: later) store
  = map (fun k => verdictOf (opened + RATE_LIMIT_WINDOW_MS) (Z.of_nat k))
      (seq 0 (S (List.length later))).
Proof.
  intros Hopens Hlater. cbn [verdicts seq map].
  assert (Hfirst : isRateLimited opened ip store
                   = (set ip (mkEntry 1 (opened + RATE_LIMIT_WINDOW_MS)) store,
                      mkVerdict false None (Some (RATE_LIMIT_COUNT - 1)))).
  { unfold isRateLimited. destruct (store ip) as [entry |] eqn:E; [ | reflexivity ].
    specialize (Hopens entry eq_refl).
    destruct (Z.ltb_spec (resetAt entry) opened); [ reflexivity | lia ]. }
  rewrite Hfirst. f_equal.
  rewrite (verdicts_in_window ip _ later Hlater _ 1 (set_same ip _ store))
    by (unfold RATE_LIMIT_COUNT; lia).
  rewrite <- seq_shift, map_map. apply map_ext. intros j. f_equal. lia.
Qed.

Lemma ceilSeconds_bounds (ms : Z) : ms <= 1000 * ceilSeconds ms < ms + 1000.
Proof.
  unfold ceilSeconds.
  pose proof (Z.div_mod (- ms) 1000 ltac:(lia)).
  pose proof (Z.mod_pos_bound (- ms) 1000 ltac:(lia)). lia.
Qed.

(** X19: the advertised wait.  When a request is limited, the reset
    instant it reports is not before the request; the seconds to wait,
    computed at the same instant, are the least whole number of
    seconds that reaches the reset instant (the reset instant not
    being 0); a retry passes exactly when it comes strictly after the
    reset instant, so a retry made after exactly the advertised wait
    is limited again whenever the remaining time was a whole number
    of seconds. *)
Theorem advertised_wait (now : Z) (ip : string) (store store' : RateLimitStore)
  (verdict : Verdict) :
  isRateLimited now ip store = (store', verdict) -> limited verdict = true ->
  exists closes,
    v_resetAt verdict = Some closes /\ now <= closes /\ store' = store
    /\ (closes <> 0 ->
        closes - now <= 1000 * secondsToWait now verdict < closes - now + 1000)
    /\ (forall retry, limited (snd (isRateLimited retry ip store')) = (retry <=? closes))
    /\ (closes <> 0 -> (closes - now) mod 1000 = 0 ->
        limited (snd (isRateLimited (now + 1000 * secondsToWait now verdict) ip store'))
        = true).
Proof.
  intros Hr Hl.
  assert (Hshape : exists entry,
            store ip = Some entry /\ now <= resetAt entry
            /\ RATE_LIMIT_COUNT <= count entry /\ store' = store
            /\ verdict = mkVerdict true (Some (resetAt entry)) (Some 0)).
  { unfold isRateLimited in Hr. destruct (store ip) as [entry |] eqn:E.
    - destruct (Z.ltb_spec (resetAt entry) now) as [Hexp | Hopen].
      + inversion Hr; subst. discriminate.
      + destruct (Z.geb_spec (count entry) RATE_LIMIT_COUNT) as [Hfull | Hroom].
        * inversion Hr; subst. exists entry. repeat split; auto.
        * inversion Hr; subst. discriminate.
    - inversion Hr; subst. discriminate. }
  destruct Hshape as [entry [E [Hopen [Hfull [-> ->]]]]]. clear Hr Hl.
  exists (resetAt entry).
  assert (Hretry : forall retry,
            limited (snd (isRateLimited retry ip store)) = (retry <=? resetAt entry)).
  { intros retry. unfold isRateLimited. rewrite E.
    destruct (Z.ltb_spec (resetAt entry) retry), (Z.leb_spec retry (resetAt entry));
      try lia; [ reflexivity | ].
    destruct (Z.geb_spec (count entry) RATE_LIMIT_COUNT); [ reflexivity | lia ]. }
  repeat split; auto.
  - unfold secondsToWait. cbn [v_resetAt]. destruct (Z.eqb_spec (resetAt entry) 0); [ contradiction | ].
    apply ceilSeconds_bounds.
  - unfold secondsToWait. cbn [v_resetAt]. destruct (Z.eqb_spec (resetAt entry) 0); [ contradiction | ].
    apply ceilSeconds_bounds.
  - intros Hnz Hmod. rewrite Hretry. apply Z.leb_le.
    unfold secondsToWait. cbn [v_resetAt]. destruct (Z.eqb_spec (resetAt entry) 0); [ contradiction | ].
    unfold ceilSeconds.
    assert (Hneg : (- (resetAt entry - now)) mod 1000 = 0).
    { apply Z.mod_divide; [ lia | ]. apply Z.divide_opp_r.
      apply Z.mod_divide; [ lia | exact Hmod ]. }
    pose proof (Z.div_mod (- (resetAt entry - now)) 1000 ltac:(lia)). lia.
Qed.

(** X20: the periodic cleanup is not observable.  A request that comes
    after a cleanup gets the verdict it would have got without it, and
    leaves the address with the same entry. *)
Theorem cleanup_changes_no_verdict (swept now : Z) (ip : string) (store : RateLimitStore) :
  swept <= now ->
  snd (isRateLimited now ip (cleanupExpiredEntries swept store))
  = snd (isRateLimited now ip store)
  /\ fst (isRateLimited now ip (cleanupExpiredEntries swept store)) ip
     = fst (isRateLimited now ip store) ip.
Proof.
  intros Hle. unfold isRateLimited, cleanupExpiredEntries.
  destruct (store ip) as [entry |] eqn:E; [ | simpl; now rewrite !set_same ].
  destruct (Z.ltb_spec (resetAt entry) swept) as [Hgone | Hkept].
  - destruct (Z.ltb_spec (resetAt entry) now); [ | lia ]. simpl. now rewrite !set_same.
  - destruct (resetAt entry <? now); [ simpl; now rewrite !set_same | ].
    destruct (count entry >=? RATE_LIMIT_COUNT); simpl.
    + now rewrite E, (proj2 (Z.ltb_ge _ _) Hkept).
    + now rewrite !set_same.
Qed.

Section Served.
Context {State A : Type}.

Lemma serve_in_window (ip : string) (closes : Z) (requests : list (Request State A)) :
  Forall (fun request => arrives request <= closes) requests ->
  forall (store : RateLimitStore) (state : State) (c : Z),
    store ip = Some (mkEntry c closes) -> 1 <= c <= RATE_LIMIT_COUNT ->
    fst (serve ip requests store state)
    = fold_left (fun st request => fst (handler request st))
        (firstn (Z.to_nat (RATE_LIMIT_COUNT - c)) requests) state
    /\ map reachedNext (snd (serve ip requests store state))
       = map (fun j => c + Z.of_nat j <? RATE_LIMIT_COUNT) (seq 0 (List.length requests)).
Proof.
  induction 1 as [| request later Hnow _ IH]; intros store state c Hentry Hc.
  - simpl. now rewrite firstn_nil.
  - cbn [serve List.length seq map]. unfold publicBookingRateLimit, isRateLimited.
    rewrite Hentry. simpl resetAt. simpl count.
    destruct (Z.ltb_spec closes (arrives request)) as [Hexp | _]; [ lia | ].
    rewrite <- seq_shift, map_map. unfold RATE_LIMIT_COUNT in *.
    destruct (Z.geb_spec c 10) as [Hfull | Hroom].
    + assert (c = 10) as -> by lia. cbn [limited].
      destruct (IH store state 10 Hentry ltac:(unfold RATE_LIMIT_COUNT; lia)) as [Hs Ho].
      destruct (serve ip later store state) as [final outcomes]. cbn [fst snd] in *.
      split; [ exact Hs | ]. cbn [map reachedNext]. f_equal. rewrite Ho.
      apply map_ext. intros j.
      destruct (Z.ltb_spec (10 + Z.of_nat j) 10),
               (Z.ltb_spec (10 + Z.of_nat (Datatypes.S j)) 10);
        try lia; reflexivity.
    + cbn [limited]. destruct (handler request state) as [state1 result] eqn:Eh.
      destruct (IH (set ip (mkEntry (c + 1) closes) store) state1 (c + 1)
                  (set_same ip _ store) ltac:(unfold RATE_LIMIT_COUNT; lia)) as [Hs Ho].
      destruct (serve ip later _ state1) as [final outcomes]. cbn [fst snd] in *.
      split.
      * replace (Z.to_nat (10 - c)) with (Datatypes.S (Z.to_nat (10 - (c + 1)))) by lia.
        cbn [firstn fold_left]. rewrite Eh. exact Hs.
      * cbn [map reachedNext]. f_equal.
        -- destruct (Z.ltb_spec (c + Z.of_nat 0) 10); [ reflexivity | lia ].
        -- rewrite Ho. apply map_ext. intros j. f_equal. lia.
Qed.

(** X21: the limit counts attempts, and the eleventh never reaches the
    procedure.  When the requests of an address fall into one window,
    the procedure behind the middleware runs for the first ten of
    them, in order and whatever it answers (a request it refuses uses
    up quota like one it accepts), and for none of the others: the state
    at the end is the state after the first ten. *)
Theorem limit_counts_attempts (ip : string) (first : Request State A)
  (later : list (Request State A)) (store : RateLimitStore) (state : State) :
  (forall entry, store ip = Some entry -> resetAt entry < arrives first) ->
  Forall (fun request => arrives request <= arrives first + RATE_LIMIT_WINDOW_MS) later ->
  fst (serve ip (first :: later) store state)
  = fold_left (fun st request => fst (handler request st)) (firstn 10 (first :: later)) state
  /\ map reachedNext (snd (serve ip (first :: later) store state))
     = map (fun k => Z.of_nat k <? 10) (seq 0 (Datatypes.S (List.length later))).
Proof.
  intros Hopens Hlater. cbn [serve]. unfold publicBookingRateLimit.
  assert (Hfirst : isRateLimited (arrives first) ip store
                   = (set ip (mkEntry 1 (arrives first + RATE_LIMIT_WINDOW_MS)) store,
                      mkVerdict false None (Some (RATE_LIMIT_COUNT - 1)))).
  { unfold isRateLimited. destruct (store ip) as [entry |] eqn:E; [ | reflexivity ].
    specialize (Hopens entry eq_refl).
    destruct (Z.ltb_spec (resetAt entry) (arrives first)); [ reflexivity | lia ]. }
  rewrite Hfirst. cbn [limited].
  destruct (handler first state) as [state1 result] eqn:Eh.
  destruct (serve_in_window ip _ later Hlater _ state1 1 (set_same ip _ store)
              ltac:(unfold RATE_LIMIT_COUNT; lia)) as [Hs Ho].
  destruct (serve ip later _ state1) as [final outcomes]. cbn [fst snd] in *.
  split.
  - change (firstn 10 (first :: later)) with (first :: firstn 9 later).
    cbn [fold_left]. rewrite Eh. exact Hs.
  - cbn [seq map reachedNext]. f_equal. rewrite Ho, <- seq_shift, map_map.
    apply map_ext. intros j. unfold RATE_LIMIT_COUNT.
    destruct (Z.ltb_spec (1 + Z.of_nat j) 10), (Z.ltb_spec (Z.of_nat (Datatypes.S j)) 10);
      try lia; reflexivity.
Qed.

End Served.

Section Monday.
Import Examples AdminExamples.

Lemma window_lets_ten_pass_witness :
  verdicts visitor (monday :: repeat (monday + 60000) 11) emptyStore
  = map (fun k => verdictOf (monday + RATE_LIMIT_WINDOW_MS) (Z.of_nat k))
      (seq 0 (Datatypes.S (List.length (repeat (monday + 60000) 11)))).
Proof.
  apply (window_lets_ten_pass visitor monday (repeat (monday + 60000) 11) emptyStore).
  - intros entry Hentry. discriminate Hentry.
  - apply Forall_forall. intros now Hin. apply repeat_spec in Hin. subst now.
    unfold RATE_LIMIT_WINDOW_MS. lia.
Defined.

Lemma advertised_wait_witness :
  exists closes,
    v_resetAt (mkVerdict true (Some (monday + 5000)) (Some 0)) = Some closes
    /\ monday <= closes /\ usedUp = usedUp
    /\ (closes <> 0 ->
        closes - monday
        <= 1000 * secondsToWait monday (mkVerdict true (Some (monday + 5000)) (Some 0))
        < closes - monday + 1000)
    /\ (forall retry, limited (snd (isRateLimited retry visitor usedUp)) = (retry <=? closes))
    /\ (closes <> 0 -> (closes - monday) mod 1000 = 0 ->
        limited (snd (isRateLimited
                        (monday
                         + 1000 * secondsToWait monday
                                    (mkVerdict true (Some (monday + 5000)) (Some 0)))
                        visitor usedUp))
        = true).
Proof.
  apply (advertised_wait monday visitor usedUp usedUp
           (mkVerdict true (Some (monday + 5000)) (Some 0))); reflexivity.
Defined.

Lemma cleanup_changes_no_verdict_witness :
  snd (isRateLimited (monday + 6000) visitor (cleanupExpiredEntries (monday + 5500) usedUp))
  = snd (isRateLimited (monday + 6000) visitor usedUp)
  /\ fst (isRateLimited (monday + 6000) visitor
            (cleanupExpiredEntries (monday + 5500) usedUp)) visitor
     = fst (isRateLimited (monday + 6000) visitor usedUp) visitor.
Proof.
  apply (cleanup_changes_no_verdict (monday + 5500) (monday + 6000) visitor usedUp). lia.
Defined.

(** Eleven attempts at the same booking: the first is accepted, nine
    meet the conflict, the eleventh is turned away at the door. *)
Lemma limit_counts_attempts_witness :
  fst (serve visitor (attempt :: repeat attempt 10) emptyStore twoBookings)
  = fold_left (fun st request => fst (handler request st))
      (firstn 10 (attempt :: repeat attempt 10)) twoBookings
  /\ map reachedNext (snd (serve visitor (attempt :: repeat attempt 10) emptyStore twoBookings))
     = map (fun k => Z.of_nat k <? 10)
         (seq 0 (Datatypes.S (List.length (repeat attempt 10)))).
Proof.
  apply (limit_counts_attempts visitor attempt (repeat attempt 10) emptyStore twoBookings).
  - intros entry Hentry. discriminate Hentry.
  - apply Forall_forall. intros request Hin. apply repeat_spec in Hin. subst request.
    unfold RATE_LIMIT_WINDOW_MS. lia.
Defined.

End Monday.

End RateLimitFacts.

(** ** The availability blocks *)

Module BlockFacts.
Import Store Async Exn MinimalAvailabilityService AvailabilityBlockService.

Section Service.
Context `{LocalDate} `{LocalSeconds} `{TimeColumn} `{DateFnsTz}.

Lemma validate_Ok (input : CreateAvailabilityBlockInput) :
  validateAvailabilityBlock input = Ok tt ->
  0 <= dayOfWeek input <= 6 /\ timezone input <> ""
  /\ timeMs (startTime input) < timeMs (endTime input).
Proof.
  unfold validateAvailabilityBlock.
  destruct (Z.ltb_spec (dayOfWeek input) 0); [ discriminate | ].
  rewrite Z.gtb_ltb. destruct (Z.ltb_spec 6 (dayOfWeek input)); [ discriminate | ].
  simpl. destruct (String.eqb_spec (timezone input) ""); [ discriminate | ]. simpl.
  destruct (Z.leb_spec (timeMs (endTime input)) (timeMs (startTime input)));
    [ discriminate | ].
  intros _. repeat split; auto; lia.
Qed.

Lemma update_inv (input : UpdateAvailabilityBlockInput) (db db' : Db)
  (block : AvailabilityBlock) :
  update input db = (db', Ok block) ->
  exists existing,
    find (fun b => (ab_id b =? id input)%string) (availabilityBlocks db) = Some existing
    /\ block = updated input existing
    /\ db' = set_availabilityBlocks
               (map (fun b => if (ab_id b =? id input)%string then updated input b else b)
                  (availabilityBlocks db)) db
    /\ (truthyDate (u_startTime input) || truthyDate (u_endTime input)
        || truthyNumber (u_dayOfWeek input) || Js.truthy (u_timezone input) = true ->
        validateAvailabilityBlock
          (mkCreate (ab_userId existing)
             (orDefault (u_dayOfWeek input) (ab_dayOfWeek existing))
             (orDefault (u_startTime input) (ab_startTime existing))
             (orDefault (u_endTime input) (ab_endTime existing))
             (orDefault (u_timezone input) (ab_timezone existing))
             None) = Ok tt).
Proof.
  unfold update, bind, gets, throw, liftResult, ret.
  destruct (find _ (availabilityBlocks db)) as [existing |] eqn:Ef; [ | discriminate ].
  destruct (truthyDate (u_startTime input) || truthyDate (u_endTime input)
            || truthyNumber (u_dayOfWeek input) || Js.truthy (u_timezone input)).
  - destruct (validateAvailabilityBlock _) as [[] | e] eqn:Ev; [ | discriminate ].
    intros E. inversion E; subst. exists existing. repeat split; auto.
  - intros E. inversion E; subst. exists existing. repeat split; auto. discriminate.
Qed.

Lemma find_block_unique (blockId : string) (l : list AvailabilityBlock)
  (existing b : AvailabilityBlock) :
  NoDup (map ab_id l) ->
  find (fun b => (ab_id b =? blockId)%string) l = Some existing ->
  In b l -> ab_id b = blockId -> b = existing.
Proof.
  intros Hnd Ef Hin Hid. apply find_some in Ef. destruct Ef as [Hin' Hid'].
  apply String.eqb_eq in Hid'.
  apply (BookingAdminFacts.NoDup_map_inj ab_id l); auto. congruence.
Qed.

(** X23: the blocks in the store stay valid, but for one update.  On a
    store with unique block ids whose blocks all have a weekday from 0
    to 6, a time zone that is not empty and an end after the start (by
    local time of day), a successful [create] and a successful
    [update] that does not set the time zone to the empty string store
    only such blocks, provided the [TIME] column gives back the local
    time of day of what was written; [delete] keeps the rest; a
    [create] or [update] that rejects writes nothing.  The exception:
    an [update] that carries only an empty time zone skips the
    validation and stores it. *)
Theorem stored_blocks_stay_valid (db : Db) :
  NoDup (map ab_id (availabilityBlocks db)) ->
  Forall validBlock (availabilityBlocks db) ->
  (forall newId input db' block,
     create newId input db = (db', Ok block) ->
     timeMs (asTime (startTime input)) = timeMs (startTime input) ->
     timeMs (asTime (endTime input)) = timeMs (endTime input) ->
     Forall validBlock (availabilityBlocks db'))
  /\ (forall input db' block,
        update input db = (db', Ok block) ->
        u_timezone input <> Some "" ->
        (forall s, u_startTime input = Some s -> timeMs (asTime s) = timeMs s) ->
        (forall e, u_endTime input = Some e -> timeMs (asTime e) = timeMs e) ->
        Forall validBlock (availabilityBlocks db'))
  /\ (forall blockId callerId,
        Forall validBlock (availabilityBlocks (fst (delete blockId callerId db))))
  /\ (forall newId input error, snd (create newId input db) = Throw error ->
                                fst (create newId input db) = db)
  /\ (forall input error, snd (update input db) = Throw error -> fst (update input db) = db)
  /\ (forall blockId existing,
        find (fun b => (ab_id b =? blockId)%string) (availabilityBlocks db) = Some existing ->
        exists db',
          update (mkUpdate blockId None None None (Some "") None) db
          = (db', Ok (mkBlock (ab_id existing) (ab_userId existing) (ab_dayOfWeek existing)
                        (ab_startTime existing) (ab_endTime existing) ""
                        (ab_isActive existing)))
          /\ exists stored, In stored (availabilityBlocks db') /\ ~ validBlock stored).
Proof.
  intros Hnd Hvalid. split; [ | split; [ | split; [ | split; [ | split ] ] ] ].
  - intros newId input db' block. unfold create, bind, liftResult.
    destruct (validateAvailabilityBlock input) as [[] | e] eqn:Ev; [ | discriminate ].
    intros E Hs He. inversion E; subst; clear E. simpl.
    apply Forall_app. split; [ exact Hvalid | ]. constructor; [ | constructor ].
    destruct (validate_Ok _ Ev) as [Hd [Ht Hlt]]. unfold validBlock. simpl.
    rewrite Hs, He. auto.
  - intros input db' block Hok Htz Hs He.
    destruct (update_inv _ _ _ _ Hok) as [existing [Ef [_ [-> Hval]]]]. simpl.
    apply Forall_forall. intros b Hin. apply in_map_iff in Hin.
    destruct Hin as [b0 [Hb Hin0]]. rewrite Forall_forall in Hvalid.
    pose proof (Hvalid b0 Hin0) as Hb0.
    destruct (String.eqb_spec (ab_id b0) (id input)) as [Hid | Hid]; [ | now subst b ].
    subst b. pose proof (find_block_unique _ _ _ _ Hnd Ef Hin0 Hid) as <-.
    destruct Hb0 as [Hd0 [Ht0 Hlt0]].
    assert (Hstart : timeMs (ab_startTime (updated input b0))
                     = timeMs (orDefault (u_startTime input) (ab_startTime b0))).
    { simpl. destruct (u_startTime input) as [s |]; simpl; [ now apply Hs | reflexivity ]. }
    assert (Hend : timeMs (ab_endTime (updated input b0))
                   = timeMs (orDefault (u_endTime input) (ab_endTime b0))).
    { simpl. destruct (u_endTime input) as [e |]; simpl; [ now apply He | reflexivity ]. }
    unfold validBlock. rewrite Hstart, Hend.
    destruct (truthyDate (u_startTime input) || truthyDate (u_endTime input)
              || truthyNumber (u_dayOfWeek input) || Js.truthy (u_timezone input)) eqn:Etr.
    + destruct (validate_Ok _ (Hval eq_refl)) as [Hd [Ht Hlt]]. simpl in Hd, Ht, Hlt.
      simpl. auto.
    + rewrite !orb_false_iff in Etr. destruct Etr as [[[Es Ee] Ed] Etz].
      destruct (u_startTime input); [ discriminate | ].
      destruct (u_endTime input); [ discriminate | ]. simpl.
      repeat split; auto.
      * destruct (u_dayOfWeek input) as [d |]; simpl in *; [ | lia ].
        apply negb_false_iff, Z.eqb_eq in Ed. lia.
      * destruct (u_dayOfWeek input) as [d |]; simpl in *; [ | lia ].
        apply negb_false_iff, Z.eqb_eq in Ed. lia.
      * destruct (u_timezone input) as [tz |]; simpl in *; [ | exact Ht0 ].
        apply negb_false_iff, String.eqb_eq in Etz. subst tz. now elim Htz.
  - intros blockId callerId. unfold delete, bind, gets, throw, modify.
    destruct (find _ (availabilityBlocks db)) as [block |]; [ | exact Hvalid ].
    destruct (negb (ab_userId block =? callerId)); [ exact Hvalid | ]. simpl.
    apply Forall_forall. intros b Hin. apply filter_In in Hin.
    rewrite Forall_forall in Hvalid. now apply Hvalid.
  - intros newId input error. unfold create, bind, liftResult.
    destruct (validateAvailabilityBlock input) as [[] | e]; [ discriminate | reflexivity ].
  - intros input error. unfold update, bind, gets, throw, liftResult, ret.
    destruct (find _ (availabilityBlocks db)) as [existing |]; [ | reflexivity ].
    destruct (truthyDate (u_startTime input) || truthyDate (u_endTime input)
              || truthyNumber (u_dayOfWeek input) || Js.truthy (u_timezone input)).
    + destruct (validateAvailabilityBlock _) as [[] | e]; [ discriminate | reflexivity ].
    + discriminate.
  - intros blockId existing Ef. unfold update, bind, gets, throw, liftResult, ret.
    simpl. rewrite Ef. simpl. eexists. split; [ reflexivity | ].
    apply find_some in Ef. destruct Ef as [Hin Hid].
    exists (updated (mkUpdate blockId None None None (Some "") None) existing). split.
    + simpl. apply in_map_iff. exists existing. rewrite Hid. auto.
    + unfold validBlock. simpl. intros [_ [Hne _]]. now apply Hne.
Qed.

(** X24: the check for more than 24 hours never fires.  When the local
    clock fields of the two dates are in their ranges,
    [validateAvailabilityBlock] never rejects with the duration error:
    the difference of two times of day is less than a day; so a block
    cannot run past midnight, and [create] accepts exactly the inputs
    with a weekday from 0 to 6, a time zone that is not empty, and an
    end that is later in the day than the start. *)
Theorem duration_check_never_fires (input : CreateAvailabilityBlockInput) :
  0 <= getHours (startTime input) <= 23 -> 0 <= getMinutes (startTime input) <= 59 ->
  0 <= getSeconds (startTime input) <= 59 ->
  0 <= getHours (endTime input) <= 23 -> 0 <= getMinutes (endTime input) <= 59 ->
  0 <= getSeconds (endTime input) <= 59 ->
  validateAvailabilityBlock input
  <> Throw (JsError "Availability block duration cannot exceed 24 hours")
  /\ (validateAvailabilityBlock input = Ok tt
      <-> 0 <= dayOfWeek input <= 6 /\ timezone input <> ""
          /\ timeMs (startTime input) < timeMs (endTime input))
  /\ (forall newId db,
        (exists block, create newId input db
                       = (set_availabilityBlocks (availabilityBlocks db ++ [block]) db, Ok block))
        <-> validateAvailabilityBlock input = Ok tt).
Proof.
  intros Hh1 Hm1 Hs1 Hh2 Hm2 Hs2.
  assert (Hday : timeMs (endTime input) - timeMs (startTime input) <= 24 * 3600000)
    by (unfold timeMs; lia).
  assert (Hiff : validateAvailabilityBlock input = Ok tt
                 <-> 0 <= dayOfWeek input <= 6 /\ timezone input <> ""
                     /\ timeMs (startTime input) < timeMs (endTime input)).
  { split; [ apply validate_Ok | ]. intros [Hd [Ht Hlt]]. unfold validateAvailabilityBlock.
    destruct (Z.ltb_spec (dayOfWeek input) 0); [ lia | ]. rewrite Z.gtb_ltb.
    destruct (Z.ltb_spec 6 (dayOfWeek input)); [ lia | ]. simpl.
    destruct (String.eqb_spec (timezone input) ""); [ contradiction | ]. simpl.
    destruct (Z.leb_spec (timeMs (endTime input)) (timeMs (startTime input))); [ lia | ].
    rewrite Z.gtb_ltb.
    match goal with |- context [?a <? ?b] => destruct (Z.ltb_spec a b) end;
      [ lia | reflexivity ]. }
  split; [ | split; [ exact Hiff | ] ].
  - unfold validateAvailabilityBlock.
    destruct ((dayOfWeek input <? 0) || (dayOfWeek input >? 6)); [ discriminate | ].
    destruct (negb (Js.truthy (Some (timezone input)))); [ discriminate | ].
    destruct (timeMs (endTime input) <=? timeMs (startTime input)); [ discriminate | ].
    rewrite Z.gtb_ltb.
    match goal with |- context [?a <? ?b] => destruct (Z.ltb_spec a b) end;
      [ lia | discriminate ].
  - intros newId db. unfold create, bind, liftResult. split.
    + intros [block E]. destruct (validateAvailabilityBlock input) as [[] | e];
        [ reflexivity | discriminate ].
    + intros ->. eexists. reflexivity.
Qed.

Lemma slots_by_active_blocks (db db' : Db) (query : CalculateAvailableSlotsInput) :
  SlotParts.activeBlocks db' query = SlotParts.activeBlocks db query ->
  calendarIntegrations db' = calendarIntegrations db ->
  calendarEvents db' = calendarEvents db ->
  bookings db' = bookings db ->
  forall fuel, calculateAvailableSlots fuel db' query = calculateAvailableSlots fuel db query.
Proof.
  intros Ha Hi He Hb fuel. rewrite !SlotFacts.calculateAvailableSlots_parts, Ha.
  destruct (SlotParts.activeBlocks db query); [ reflexivity | ].
  destruct (allSlotsOf _ _ _ _ _ _); [ | reflexivity ].
  simpl. do 2 f_equal. apply filter_ext. intros slot.
  unfold SlotParts.isFree, SlotParts.bookedSpans, getCalendarEvents. now rewrite Hi, He, Hb.
Qed.

(** X25: for the offered slots, switching a block off is deleting it.
    After an [update] that only sets [isActive] to false,
    [calculateAvailableSlots] answers every query as it does after the
    owner's [delete] of that block. *)
Theorem deactivation_equals_deletion (blockId : string) (db db1 : Db)
  (block : AvailabilityBlock) (fuel : nat) (query : CalculateAvailableSlotsInput) :
  update (mkUpdate blockId None None None None (Some false)) db = (db1, Ok block) ->
  snd (delete blockId (ab_userId block) db) = Ok tt
  /\ calculateAvailableSlots fuel db1 query
     = calculateAvailableSlots fuel (fst (delete blockId (ab_userId block) db)) query.
Proof.
  intros Hok. destruct (update_inv _ _ _ _ Hok) as [existing [Ef [-> [-> _]]]].
  simpl id in *. unfold delete, bind, gets, throw, modify. rewrite Ef. simpl ab_userId.
  rewrite Z.eqb_refl. simpl. split; [ reflexivity | ].
  apply slots_by_active_blocks; try reflexivity.
  unfold SlotParts.activeBlocks. simpl availabilityBlocks. clear Hok Ef.
  induction (availabilityBlocks db) as [| b l IH]; [ reflexivity | ].
  cbn [map filter]. destruct (ab_id b =? blockId)%string; cbn [negb].
  - simpl. rewrite andb_false_r. exact IH.
  - cbn [filter].
    destruct ((ab_userId b =? MinimalAvailabilityService.userId query) && ab_isActive b);
      now rewrite IH.
Qed.

End Service.

Section Monday.
Import Examples AdminExamples.

Lemma twoBookings_blocks : NoDup (map ab_id (availabilityBlocks twoBookings)).
Proof. repeat constructor. simpl. tauto. Qed.

Lemma twoBookings_valid :
  Forall (validBlock (H := utcDate) (H0 := utcSeconds)) (availabilityBlocks twoBookings).
Proof.
  constructor; [ | constructor ]. unfold validBlock.
  split; [ vm_compute; split; discriminate | ].
  split; [ discriminate | vm_compute; reflexivity ].
Qed.

Lemma stored_blocks_stay_valid_witness :
  Forall (validBlock (H := utcDate) (H0 := utcSeconds))
    (availabilityBlocks
       (fst (create (H := utcDate) (H0 := utcSeconds) (H1 := utcTime)
               "block-2" tuesdayAfternoon twoBookings))).
Proof.
  refine (proj1 (stored_blocks_stay_valid (H := utcDate) (H0 := utcSeconds) (H1 := utcTime)
                   twoBookings twoBookings_blocks twoBookings_valid)
            "block-2" tuesdayAfternoon _ _ _ _ _).
  - vm_compute. reflexivity.
  - vm_compute. reflexivity.
  - vm_compute. reflexivity.
Defined.

Lemma duration_check_never_fires_witness :
  validateAvailabilityBlock (H := utcDate) (H0 := utcSeconds) tuesdayAfternoon
  <> Throw (JsError "Availability block duration cannot exceed 24 hours").
Proof.
  apply (proj1 (duration_check_never_fires (H := utcDate) (H0 := utcSeconds) (H1 := utcTime)
                  tuesdayAfternoon
                  ltac:(vm_compute; split; discriminate) ltac:(vm_compute; split; discriminate)
                  ltac:(vm_compute; split; discriminate) ltac:(vm_compute; split; discriminate)
                  ltac:(vm_compute; split; discriminate)
                  ltac:(vm_compute; split; discriminate))).
Defined.

Lemma deactivation_equals_deletion_witness :
  calculateAvailableSlots (H := utcDate) (H0 := utcTz) 20
    (fst (update (H := utcDate) (H0 := utcSeconds) (H1 := utcTime)
            (mkUpdate "block-1" None None None None (Some false)) twoBookings))
    wholeMonday
  = calculateAvailableSlots (H := utcDate) (H0 := utcTz) 20
      (fst (delete "block-1" 7 twoBookings)) wholeMonday.
Proof.
  refine (proj2 (deactivation_equals_deletion (H := utcDate) (H0 := utcSeconds)
                   (H1 := utcTime) (H2 := utcTz) "block-1" twoBookings _
                   (mkBlock "block-1" 7 1 (9 * 3600000) (17 * 3600000) "UTC" false)
                   20 wholeMonday _)).
  vm_compute. reflexivity.
Defined.

End Monday.

End BlockFacts.

(** ** The data retention job *)

Module RetentionFacts.
Import Store DataRetentionJob.

Lemma firstn_plus {A} (i k : nat) (l : list A) :
  firstn (i + k) l = firstn i l ++ firstn k (skipn i l).
Proof.
  revert l. induction i as [| i IH]; intros l; [ reflexivity | ].
  destruct l as [| x l]; simpl; [ now rewrite firstn_nil | ]. now rewrite IH.
Qed.

Lemma slice_batch {A} (i : nat) (l : list A) :
  slice i (i + batchSize) l = firstn batchSize (skipn i l).
Proof. unfold slice. f_equal. lia. Qed.

Lemma idIn_app (ids1 ids2 : list Z) (b : Booking) :
  idIn (ids1 ++ ids2) b = idIn ids1 b || idIn ids2 b.
Proof. unfold idIn. apply existsb_app. Qed.

Lemma idIn_In (ids : list Z) (b : Booking) : idIn ids b = true <-> In (b_id b) ids.
Proof.
  unfold idIn. rewrite existsb_exists. split.
  - intros [x [Hin E]]. apply Z.eqb_eq in E. now subst.
  - intros Hin. exists (b_id b). split; [ exact Hin | apply Z.eqb_refl ].
Qed.

Lemma filter_negb_filter {A} (p q : A -> bool) (l : list A) :
  filter (fun x => negb (q x)) (filter (fun x => negb (p x)) l)
  = filter (fun x => negb (p x || q x)) l.
Proof.
  induction l as [| x l IH]; simpl; [ reflexivity | ].
  destruct (p x); simpl; [ exact IH | ]. destruct (q x); simpl; now rewrite IH.
Qed.

Lemma NoDup_map_filter {K R} (key : R -> K) (keep : R -> bool) (rows : list R)
  (Hkeys : NoDup (map key rows)) : NoDup (map key (filter keep rows)).
Proof.
  induction rows as [| row rows IH]; simpl; [ constructor | ].
  inversion Hkeys as [| ? ? Hfresh Hrest]; subst. destruct (keep row); simpl; [ | auto ].
  constructor; [ | auto ]. intros Hin. apply Hfresh. apply in_map_iff in Hin.
  destruct Hin as [other [E Hother]]. apply filter_In in Hother.
  apply in_map_iff. exists other. tauto.
Qed.

Lemma In_firstn {A} (n : nat) (l : list A) (x : A) : In x (firstn n l) -> In x l.
Proof.
  revert l. induction n as [| n IH]; intros l; [ intros [] | ].
  destruct l as [| y l]; simpl; [ auto | ]. intros [E | Hin]; [ now left | right; auto ].
Qed.

Lemma NoDup_map_firstn {A B} (f : A -> B) (n : nat) (l : list A) :
  NoDup (map f l) -> NoDup (map f (firstn n l)).
Proof.
  revert l. induction n as [| n IH]; intros l Hnd; [ constructor | ].
  destruct l as [| x l]; simpl; [ constructor | ].
  inversion Hnd as [| ? ? Hx Hl]; subst. constructor; [ | auto ].
  intros Hin. apply Hx. apply in_map_iff in Hin. destruct Hin as [y [E Hy]].
  apply in_map_iff. exists y. split; [ exact E | ]. now apply (In_firstn n).
Qed.

Lemma NoDup_map_skipn {A B} (f : A -> B) (n : nat) (l : list A) :
  NoDup (map f l) -> NoDup (map f (skipn n l)).
Proof.
  revert l. induction n as [| n IH]; intros l Hnd; [ exact Hnd | ].
  destruct l as [| x l]; simpl; [ constructor | ].
  inversion Hnd; subst. auto.
Qed.

Lemma skipn_In {A} (n : nat) (l : list A) (x : A) : In x (skipn n l) -> In x l.
Proof.
  revert l. induction n as [| n IH]; intros l; [ auto | ].
  destruct l as [| y l]; simpl; [ auto | ]. intros Hin. right. now apply IH.
Qed.

Lemma firstn_skipn_disjoint {A B} (f : A -> B) (n : nat) (l : list A) (x : A) :
  NoDup (map f l) -> In x (skipn n l) -> ~ In (f x) (map f (firstn n l)).
Proof.
  revert l. induction n as [| n IH]; intros l Hnd Hin; [ simpl; tauto | ].
  destruct l as [| y l]; simpl in *; [ contradiction | ].
  inversion Hnd as [| ? ? Hy Hl]; subst. intros [E | Hin'].
  - apply Hy. rewrite E. apply in_map. now apply (skipn_In n).
  - now apply (IH l Hl Hin).
Qed.

(** The rows a batch deletes are the rows of the batch. *)
Lemma batch_count (table batch : list Booking) :
  NoDup (map b_id table) -> NoDup (map b_id batch) -> incl batch table ->
  List.length (filter (idIn (map b_id batch)) table) = List.length batch.
Proof.
  intros Hnd Hb Hincl.
  assert (Hf : NoDup (map b_id (filter (idIn (map b_id batch)) table)))
    by (apply NoDup_map_filter; exact Hnd).
  rewrite <- (length_map b_id (filter _ table)), <- (length_map b_id batch).
  apply Nat.le_antisymm; apply NoDup_incl_length; auto.
  - intros x Hx. apply in_map_iff in Hx. destruct Hx as [b [<- Hin]].
    apply filter_In in Hin. now apply idIn_In.
  - intros x Hx. apply in_map_iff in Hx. destruct Hx as [b [<- Hin]].
    apply in_map. apply filter_In. split; [ now apply Hincl | ].
    apply idIn_In. now apply in_map.
Qed.

Lemma batchLoop_runs (db : Db) (oldBookings : list Booking) (processed : Z) :
  NoDup (map b_id (bookings db)) -> NoDup (map b_id oldBookings) ->
  incl oldBookings (bookings db) ->
  forall (fuel i : nat) (deleted : Z),
    (List.length oldBookings - i < fuel)%nat ->
    batchLoop fuel i oldBookings (mkRetention deleted processed)
      (set_bookings
         (filter (fun b => negb (idIn (map b_id (firstn i oldBookings)) b)) (bookings db)) db)
    = Some (set_bookings
              (filter (fun b => negb (idIn (map b_id oldBookings) b)) (bookings db)) db,
            mkRetention (deleted + Z.of_nat (List.length oldBookings - i)) processed).
Proof.
  intros Hnd Hold Hincl. induction fuel as [| fuel IH]; intros i deleted Hfuel; [ lia | ].
  cbn [batchLoop]. destruct (Nat.ltb_spec i (List.length oldBookings)) as [Hlt | Hge].
  - rewrite slice_batch. unfold booking_deleteMany. simpl bookings.
    set (batch := firstn batchSize (skipn i oldBookings)).
    rewrite filter_negb_filter.
    assert (Hpt : forall b,
              negb (idIn (map b_id (firstn i oldBookings)) b || idIn (map b_id batch) b)
              = negb (idIn (map b_id (firstn (i + batchSize) oldBookings)) b)).
    { intros b. unfold batch. now rewrite firstn_plus, map_app, idIn_app. }
    rewrite (filter_ext _ _ Hpt).
    assert (Hcount : List.length
                       (filter (idIn (map b_id batch))
                          (filter (fun b => negb (idIn (map b_id (firstn i oldBookings)) b))
                             (bookings db)))
                     = List.length batch).
    { apply batch_count.
      - apply NoDup_map_filter. exact Hnd.
      - now apply NoDup_map_firstn, NoDup_map_skipn.
      - intros b Hb. apply In_firstn in Hb. apply filter_In. split.
        + apply Hincl. now apply (skipn_In i).
        + apply negb_true_iff. destruct (idIn _ b) eqn:E; [ | reflexivity ].
          apply idIn_In in E. exfalso.
          now apply (firstn_skipn_disjoint b_id i oldBookings b Hold Hb). }
    rewrite Hcount.
    replace (set_bookings _ (set_bookings _ db))
      with (set_bookings
              (filter (fun b => negb (idIn (map b_id (firstn (i + batchSize) oldBookings)) b))
                 (bookings db)) db) by now destruct db.
    cbn [bookingsDeleted bookingsProcessed].
    rewrite IH by (unfold batchSize; lia). do 2 f_equal.
    assert (Hlen : List.length batch = Nat.min batchSize (List.length oldBookings - i)).
    { unfold batch. now rewrite length_firstn, length_skipn. }
    unfold batchSize in *. f_equal. lia.
  - rewrite firstn_all2 by lia. do 2 f_equal.
    replace (List.length oldBookings - i)%nat with 0%nat by lia. simpl. f_equal. lia.
Qed.

Lemma filter_true {A} (l : list A) : filter (fun _ => true) l = l.
Proof. induction l as [| x l IH]; simpl; [ reflexivity | now rewrite IH ]. Qed.

Section Job.
Context `{CalendarYear}.
Context `{MinimalAvailabilityService.LocalDate} `{MinimalAvailabilityService.DateFnsTz}.

Lemma expired_by_id (now : Z) (db : Db) (b : Booking) :
  NoDup (map b_id (bookings db)) -> In b (bookings db) ->
  idIn (map b_id (filter (expired now) (bookings db))) b = expired now b.
Proof.
  intros Hnd Hin. destruct (expired now b) eqn:E.
  - apply idIn_In. apply in_map. apply filter_In. auto.
  - destruct (idIn _ b) eqn:Ei; [ | reflexivity ]. apply idIn_In in Ei.
    apply in_map_iff in Ei. destruct Ei as [b' [Hid Hb']]. apply filter_In in Hb'.
    destruct Hb' as [Hin' E'].
    assert (b' = b) as -> by (apply (BookingAdminFacts.NoDup_map_inj b_id (bookings db)); auto).
    congruence.
Qed.

(** X26: the retention job deletes exactly the old bookings.  On a
    store with unique booking ids, with fuel for one round per old
    booking and one more, [cleanupOldBookings] ends; it reports, as
    processed and as deleted, the number of bookings that ended before
    the cutoff, whatever their status; the table afterwards holds the
    other bookings, in their order, and no other table is touched;
    batching changes nothing.  A slot query that starts at or after
    the cutoff is answered as before. *)
Theorem retention_deletes_the_old (fuel : nat) (now : Z) (db : Db) :
  NoDup (map b_id (bookings db)) ->
  (List.length (filter (expired now) (bookings db)) < fuel)%nat ->
  let old := Z.of_nat (List.length (filter (expired now) (bookings db))) in
  let db' := set_bookings (filter (fun b => negb (expired now b)) (bookings db)) db in
  cleanupOldBookings fuel now db = Some (db', mkRetention old old)
  /\ cleanupOldBookings fuel now db' = Some (db', mkRetention 0 0)
  /\ forall slotFuel query,
       oneYearBefore now <= MinimalAvailabilityService.startDate query ->
       MinimalAvailabilityService.calculateAvailableSlots slotFuel db' query
       = MinimalAvailabilityService.calculateAvailableSlots slotFuel db query.
Proof.
  intros Hnd Hfuel old db'.
  assert (Hkept : filter (fun b => negb (idIn (map b_id (filter (expired now) (bookings db))) b))
                    (bookings db)
                  = filter (fun b => negb (expired now b)) (bookings db)).
  { apply SlotsAndBookings.filter_ext_Forall with (P := fun b => In b (bookings db)).
    - apply Forall_forall. auto.
    - intros b Hin. now rewrite (expired_by_id now db b Hnd Hin). }
  assert (Hnone : filter (expired now) (filter (fun b => negb (expired now b)) (bookings db))
                  = []) by apply SyncFacts.filter_none.
  split; [ | split ].
  - unfold cleanupOldBookings.
    destruct (Nat.eqb_spec (List.length (filter (expired now) (bookings db))) 0) as [E0 | E0].
    + subst old db'. rewrite E0. simpl. do 2 f_equal.
      apply length_zero_iff_nil in E0. rewrite <- Hkept, E0. simpl.
      rewrite filter_true. now destruct db.
    + subst old db'.
      pose proof (batchLoop_runs db (filter (expired now) (bookings db))
                    (Z.of_nat (List.length (filter (expired now) (bookings db)))) Hnd
                    (NoDup_map_filter b_id _ _ Hnd)
                    (fun b Hb => proj1 (proj1 (filter_In _ _ _) Hb)) fuel 0 0 ltac:(lia))
        as Hrun.
      assert (Hstart : filter (fun b => negb (idIn (map b_id
                                  (firstn 0 (filter (expired now) (bookings db)))) b))
                         (bookings db) = bookings db).
      { rewrite <- (filter_true (bookings db)) at 2. apply filter_ext. reflexivity. }
      rewrite Hstart in Hrun.
      replace (set_bookings (bookings db) db) with db in Hrun by now destruct db.
      rewrite Hrun, Hkept, Nat.sub_0_r. reflexivity.
  - unfold cleanupOldBookings. subst db'. simpl bookings. rewrite Hnone. reflexivity.
  - intros slotFuel query Hcut. apply SlotFacts.isFree_by_spans; try reflexivity.
    unfold SlotParts.bookedSpans. subst db'. simpl bookings. f_equal.
    rewrite SlotsAndBookings.filter_filter.
    apply filter_ext. intros b. unfold SlotParts.bookedWhere, expired.
    destruct (Z.ltb_spec (b_endTime b) (oneYearBefore now)); simpl; [ | reflexivity ].
    destruct (Z.geb_spec (b_endTime b) (MinimalAvailabilityService.startDate query));
      [ lia | ].
    now rewrite !andb_false_r.
Qed.

End Job.

Section Monday.
Import Examples AdminExamples.

Lemma retention_deletes_the_old_witness :
  cleanupOldBookings (H := plainYear) 2 monday withOldBooking
  = Some (set_bookings
            (filter (fun b => negb (expired (H := plainYear) monday b))
               (bookings withOldBooking)) withOldBooking,
          mkRetention
            (Z.of_nat (List.length (filter (expired (H := plainYear) monday)
                                      (bookings withOldBooking))))
            (Z.of_nat (List.length (filter (expired (H := plainYear) monday)
                                      (bookings withOldBooking))))).
Proof.
  apply (proj1 (retention_deletes_the_old (H := plainYear)
                  (H0 := MinimalAvailabilityService.utcDate)
                  (H1 := MinimalAvailabilityService.utcTz) 2 monday withOldBooking
                  ltac:(repeat constructor; simpl; intuition discriminate)
                  ltac:(vm_compute; lia))).
Defined.

End Monday.

End RetentionFacts.

(** ** The clients *)

Module ClientFacts.
Import Async Exn.

Section Zoom.
Import ZoomClient.

(** X27: the Zoom token is reused until five minutes before it
    expires.  A call that obtained a non-empty token from the endpoint
    stores it with the date made from the clock reading plus the
    shortened lifetime.  When that instant is one a date can hold,
    every call whose clock reading is before it returns that token
    without asking the endpoint and leaves the client as it is, and
    the token then has more than 300 seconds of its lifetime left; a
    call at or after the stored expiry asks the endpoint again, and
    when the endpoint fails the client is left as it was and the error
    is replaced.  When the instant is out of a date's range, the
    stored expiry is the Invalid Date and every later call asks the
    endpoint again. *)
Theorem zoom_token_is_reused (now0 nowAfter0 : Z) (data : ZoomTokenResponse)
  (state : ClientState) :
  asked (getAccessToken now0 nowAfter0 (Ok data) state) = true ->
  access_token data <> "" ->
  let fetched := stateAfter (getAccessToken now0 nowAfter0 (Ok data) state) in
  let expiry := nowAfter0 + (expires_in data - 300) * 1000 in
  fetched = mkClientState (Some (access_token data)) (Some (newDate expiry))
  /\ (Z.abs expiry <= maxTime ->
      fetched = mkClientState (Some (access_token data)) (Some (Instant expiry))
      /\ (forall now nowAfter response,
            now < expiry ->
            getAccessToken now nowAfter response fetched
            = mkCall fetched (Ok (access_token data)) false
            /\ 300 * 1000 < nowAfter0 + expires_in data * 1000 - now)
      /\ (forall now nowAfter response,
            expiry <= now -> asked (getAccessToken now nowAfter response fetched) = true)
      /\ (forall now nowAfter error,
            expiry <= now ->
            getAccessToken now nowAfter (Throw error) fetched
            = mkCall fetched (Throw (JsError "Failed to obtain Zoom access token")) true))
  /\ (maxTime < Z.abs expiry ->
      fetched = mkClientState (Some (access_token data)) (Some InvalidDate)
      /\ (forall now nowAfter response,
            asked (getAccessToken now nowAfter response fetched) = true)
      /\ (forall now nowAfter error,
            getAccessToken now nowAfter (Throw error) fetched
            = mkCall fetched (Throw (JsError "Failed to obtain Zoom access token")) true)).
Proof.
  intros Hasked Hne fetched expiry.
  assert (Hf : fetched = mkClientState (Some (access_token data)) (Some (newDate expiry))).
  { subst fetched expiry. unfold getAccessToken in *.
    destruct (accessToken state) as [token |]; [ | reflexivity ].
    destruct (tokenExpiresAt state) as [expiresAt |]; [ | reflexivity ].
    destruct (Js.truthy (Some token) && isAfter expiresAt now0);
      [ discriminate | reflexivity ]. }
  assert (Htruthy : Js.truthy (Some (access_token data)) = true).
  { simpl. apply negb_true_iff. now apply String.eqb_neq. }
  split; [ exact Hf | ]. rewrite Hf. unfold newDate. split.
  - intros Hrange. destruct (Z.leb_spec (Z.abs expiry) maxTime); [ | lia ].
    split; [ reflexivity | ].
    unfold getAccessToken. cbn [accessToken tokenExpiresAt isAfter].
    rewrite Htruthy. cbn [andb]. repeat split.
    + rewrite Z.gtb_ltb. destruct (Z.ltb_spec now expiry); [ reflexivity | lia ].
    + subst expiry. lia.
    + intros now nowAfter response Hlate. rewrite Z.gtb_ltb.
      destruct (Z.ltb_spec now expiry); [ lia | ]. destruct response; reflexivity.
    + intros now nowAfter error Hlate. rewrite Z.gtb_ltb.
      destruct (Z.ltb_spec now expiry); [ lia | reflexivity ].
  - intros Hrange. destruct (Z.leb_spec (Z.abs expiry) maxTime); [ lia | ].
    split; [ reflexivity | ].
    unfold getAccessToken. cbn [accessToken tokenExpiresAt isAfter].
    rewrite Htruthy. cbn [andb]. split.
    + intros now nowAfter response. destruct response; reflexivity.
    + reflexivity.
Qed.

End Zoom.

Section Google.
Import CalendarSyncService GoogleCalendarClient.
Context `{CalendarApi} `{MonthWindow}.

Lemma withPageToken_again (pageToken : option string) (before : option string)
  (params : Params) :
  Js.truthy pageToken = true ->
  withPageToken pageToken (withPageToken before params) = withPageToken pageToken params.
Proof.
  intros Ht. unfold withPageToken. rewrite Ht. now destruct (Js.truthy before).
Qed.

Lemma truthy_orOption (a : option string) : Js.truthy (orOption a None) = Js.truthy a.
Proof. unfold orOption. now destruct (Js.truthy a) eqn:E. Qed.

Lemma orOption_truthy (a b : option string) : Js.truthy a = true -> orOption a b = a.
Proof. unfold orOption. now intros ->. Qed.

Lemma pageLoop_pages (params : Params) (pageToken : option string)
  (pages : list ListResponse) :
  Paged params pageToken pages ->
  forall (fuel : nat) (before : option string) (events : list GoogleCalendarEvent)
         (nextSyncToken : option string),
    (List.length pages <= fuel)%nat ->
    (pageToken = None \/ Js.truthy pageToken = true) ->
    (pageToken = None -> before = None) ->
    pageLoop fuel (withPageToken before params) events nextSyncToken pageToken
    = Some (Ok (mkListing (events ++ List.concat (map mapped pages))
                  (lastSyncToken pages nextSyncToken) false)).
Proof.
  induction 1 as [pageToken response Hcall Hend
                 | pageToken response later Hcall Hnext Hlater IH];
    intros fuel before events nextSyncToken Hfuel Htoken Hfirst.
  - destruct fuel as [| fuel]; [ simpl in Hfuel; lia | ]. cbn [pageLoop].
    assert (Hparams : withPageToken pageToken (withPageToken before params)
                      = withPageToken pageToken params).
    { destruct Htoken as [-> | Ht]; [ now rewrite (Hfirst eq_refl) | now apply withPageToken_again ]. }
    rewrite Hparams, Hcall, truthy_orOption, Hend. simpl. now rewrite app_nil_r.
  - destruct fuel as [| fuel]; [ simpl in Hfuel; lia | ]. cbn [pageLoop].
    assert (Hparams : withPageToken pageToken (withPageToken before params)
                      = withPageToken pageToken params).
    { destruct Htoken as [-> | Ht]; [ now rewrite (Hfirst eq_refl) | now apply withPageToken_again ]. }
    rewrite Hparams, Hcall, truthy_orOption, Hnext, (orOption_truthy _ None Hnext).
    rewrite (IH fuel pageToken (events ++ mapped response)
               (orOption (r_nextSyncToken response) nextSyncToken)).
    + simpl. now rewrite <- app_assoc.
    + simpl in Hfuel. lia.
    + now right.
    + intros E. rewrite E in Hnext. discriminate.
Qed.

Lemma pageLoop_breaks (params : Params) (pageToken : option string) (n : nat)
  (error : Thrown) :
  Broken params pageToken n error ->
  forall (fuel : nat) (before : option string) (events : list GoogleCalendarEvent)
         (nextSyncToken : option string),
    (n < fuel)%nat ->
    (pageToken = None \/ Js.truthy pageToken = true) ->
    (pageToken = None -> before = None) ->
    pageLoop fuel (withPageToken before params) events nextSyncToken pageToken
    = Some (Throw error).
Proof.
  induction 1 as [pageToken error Hcall
                 | pageToken response n error Hcall Hnext Hlater IH];
    intros fuel before events nextSyncToken Hfuel Htoken Hfirst;
    (destruct fuel as [| fuel]; [ lia | ]); cbn [pageLoop];
    assert (Hparams : withPageToken pageToken (withPageToken before params)
                      = withPageToken pageToken params)
      by (destruct Htoken as [-> | Ht];
          [ now rewrite (Hfirst eq_refl) | now apply withPageToken_again ]);
    rewrite Hparams, Hcall; [ reflexivity | ].
  rewrite truthy_orOption, Hnext, (orOption_truthy _ None Hnext).
  apply (IH fuel pageToken); [ lia | now right | ].
  intros E. rewrite E in Hnext. discriminate.
Qed.

(** X28: a listing is all its pages, or none.  When the calendar API
    serves the pages of a listing up to one without a next page token
    (an empty token counts as none), [listEvents], given fuel for them,
    returns the mapped events of all pages, in page order, with the
    last non-empty sync token that a page carried, and [hasMore] false.
    When the API fails on some page, [listEvents] rejects with that
    error, and the events of the pages before are lost with it. *)
Theorem listing_is_all_pages_or_none (fuel : nat) (now : Z) (calendarId : string)
  (options : Options) :
  (forall pages,
     Paged (initialParams now calendarId options) None pages ->
     (List.length pages <= fuel)%nat ->
     listEvents fuel now calendarId options
     = Some (Ok (mkListing (List.concat (map mapped pages)) (lastSyncToken pages None) false)))
  /\ (forall n error,
        Broken (initialParams now calendarId options) None n error ->
        (n < fuel)%nat ->
        listEvents fuel now calendarId options = Some (Throw error)).
Proof.
  assert (Hstart : withPageToken None (initialParams now calendarId options)
                   = initialParams now calendarId options) by reflexivity.
  split.
  - intros pages Hpages Hfuel. unfold listEvents. rewrite <- Hstart.
    rewrite (pageLoop_pages _ None pages Hpages fuel None [] None Hfuel); auto.
  - intros n error Hbroken Hfuel. unfold listEvents. rewrite <- Hstart.
    apply (pageLoop_breaks _ None n error Hbroken fuel None [] None Hfuel); auto.
Qed.

End Google.

Section Monday.
Import Examples AdminExamples ZoomClient GoogleCalendarClient.

Lemma zoom_token_is_reused_witness :
  getAccessToken (monday + 60000) (monday + 60200) (Throw (JsError "not asked"))
    (stateAfter (getAccessToken monday (monday + 200)
                   (Ok (mkTokenResponse "eyJ.zoom" "bearer" 3600 "meeting:write"))
                   (mkClientState None None)))
  = mkCall
      (mkClientState (Some "eyJ.zoom") (Some (Instant (monday + 200 + (3600 - 300) * 1000))))
      (Ok "eyJ.zoom") false.
Proof.
  refine (proj1 (proj1 (proj2 (proj1 (proj2 (zoom_token_is_reused monday (monday + 200)
                  (mkTokenResponse "eyJ.zoom" "bearer" 3600 "meeting:write")
                  (mkClientState None None) eq_refl
                  ltac:(discriminate))) _))
            (monday + 60000) (monday + 60200) (Throw (JsError "not asked")) eq_refl)).
  vm_compute. discriminate.
Defined.

(** A lifetime no date can hold: the stored expiry is the Invalid Date
    and the next call asks the endpoint although the token was issued
    a minute ago. *)
Example zoom_token_with_unbounded_lifetime :
  let fetched :=
    stateAfter (getAccessToken monday (monday + 200)
                  (Ok (mkTokenResponse "eyJ.zoom" "bearer" 9000000000000 "meeting:write"))
                  (mkClientState None None)) in
  fetched = mkClientState (Some "eyJ.zoom") (Some InvalidDate)
  /\ asked (getAccessToken (monday + 60000) (monday + 60200)
              (Throw (JsError "rate limited")) fetched) = true.
Proof. split; reflexivity. Qed.

Lemma listing_is_all_pages_or_none_witness :
  listEvents (H := twoPages) (H0 := aroundMonday) 2 monday "primary"
    (mkOptions (Some "token-1") None None)
  = Some (Ok (mkListing (List.concat (map mapped [firstPage; secondPage]))
                (lastSyncToken [firstPage; secondPage] None) false)).
Proof.
  apply (proj1 (listing_is_all_pages_or_none (H := twoPages) (H0 := aroundMonday)
                  2 monday "primary" (mkOptions (Some "token-1") None None))
           [firstPage; secondPage]).
  - apply Paged_more; [ reflexivity | reflexivity | ].
    apply Paged_last; reflexivity.
  - simpl. lia.
Defined.

End Monday.

End ClientFacts.
